(** * RetroSnap photo wall: a shallow embedding of the photo lifecycle,
      the storage service and the development-progress logic.

    Sources embedded here:
    - [types.ts]                           -> [Module Types]
    - [services/geminiService.ts]          -> [Module GeminiService]
    - [services/storageService.ts]         -> [Module StorageService]
    - [App.tsx] (the photo controller)     -> [Module App]
    - [components/DraggablePolaroid.tsx]   -> [Module DraggablePolaroid]
    - [components/CameraSection.tsx]       -> [Module CameraSection]
    - [components/WorldMap.tsx]            -> [Module WorldMap]

    Conventions.  A JavaScript [number] is a rational ([Q]); NaN and the
    infinities are outside the model.  Where a result depends on how the
    arithmetic rounds (the pixel sizes of the compression helper, the zoom
    buttons of the map) the operations round to binary64 ([JS.round64]);
    elsewhere sums and products are exact.  A [string] is the UTF-8
    encoding of the text.  An optional property ([caption?: string]) is an
    [option].  React state is passed explicitly: every
    [setPhotos(prev => ...)] of the controller is a function from the
    previous collection to the next one. *)

From stdpp Require Import gmap strings list.
From Stdlib Require Import Ascii String QArith Qabs Qminmax Qround Qpower Lqa
  Lia.

(** ** JavaScript run-time notions the sources rely on *)
Module JS.

(** Truthiness ([!v], [v || d], [c ? a : b]). *)
Definition truthy_number (n : Q) : bool := negb (Qeq_bool n 0).
Definition truthy_string (s : string) : bool := negb (String.eqb s "").
Definition truthy_flag (b : option bool) : bool :=
  match b with Some v => v | None => false end.

(** [a > b] on numbers. *)
Definition gt (a b : Q) : bool := negb (Qle_bool a b).
(** [a < b] on numbers. *)
Definition lt (a b : Q) : bool := negb (Qle_bool b a).

(** The result of running a piece of code that may throw; also the way a
    promise settles (fulfilled with a value, or rejected). *)
Inductive outcome (A : Type) : Type :=
| Returned (a : A)
| Thrown (e : string).
Arguments Returned {A} a.
Arguments Thrown {A} e.

Definition bind {A B} (c : outcome A) (k : A -> outcome B) : outcome B :=
  match c with
  | Returned a => k a
  | Thrown e => Thrown e
  end.

(** [try { body } catch (e) { handler }] *)
Definition try_catch {A} (body : outcome A) (handler : string -> outcome A)
  : outcome A :=
  match body with
  | Returned a => Returned a
  | Thrown e => handler e
  end.

(** [s.split(c)] for a one-character separator. *)
Fixpoint split (c : ascii) (s : string) : list string :=
  match s with
  | EmptyString => [EmptyString]
  | String a s' =>
      if Ascii.eqb a c then EmptyString :: split c s'
      else match split c s' with
           | piece :: rest => String a piece :: rest
           | [] => [String a EmptyString]
           end
  end.

(** [s.trim()] strips white space and line terminators at both ends: TAB,
    LF, VT, FF, CR and SPACE and, in their UTF-8 encoding, U+00A0, U+1680,
    U+2000 to U+200A, U+2028, U+2029, U+202F, U+205F, U+3000 and U+FEFF. *)
Definition is_space (a : ascii) : bool :=
  let n := nat_of_ascii a in
  (Nat.leb 9 n && Nat.leb n 13) || Nat.eqb n 32.

(** U+00A0 is C2 A0. *)
Definition is_space2 (a b : ascii) : bool :=
  Nat.eqb (nat_of_ascii a) 194 && Nat.eqb (nat_of_ascii b) 160.

(** U+1680 is E1 9A 80; U+2000 to U+200A, U+2028, U+2029 and U+202F are
    E2 80 followed by 80 to 8A, A8, A9 and AF; U+205F is E2 81 9F; U+3000 is
    E3 80 80; U+FEFF is EF BB BF. *)
Definition is_space3 (a b c : ascii) : bool :=
  let x := nat_of_ascii a in
  let y := nat_of_ascii b in
  let z := nat_of_ascii c in
  (Nat.eqb x 225 && Nat.eqb y 154 && Nat.eqb z 128)
  || (Nat.eqb x 226 && Nat.eqb y 128 &&
      ((Nat.leb 128 z && Nat.leb z 138) || Nat.eqb z 168 || Nat.eqb z 169
       || Nat.eqb z 175))
  || (Nat.eqb x 226 && Nat.eqb y 129 && Nat.eqb z 159)
  || (Nat.eqb x 227 && Nat.eqb y 128 && Nat.eqb z 128)
  || (Nat.eqb x 239 && Nat.eqb y 187 && Nat.eqb z 191).

Fixpoint trim_start (s : string) : string :=
  match s with
  | EmptyString => EmptyString
  | String a s1 =>
      if is_space a then trim_start s1
      else
        match s1 with
        | EmptyString => s
        | String b s2 =>
            if is_space2 a b then trim_start s2
            else
              match s2 with
              | EmptyString => s
              | String c s3 => if is_space3 a b c then trim_start s3 else s
              end
        end
  end.

(** The same from the end, on the bytes in reverse order. *)
Fixpoint drop_spaces_rev (l : list ascii) : list ascii :=
  match l with
  | [] => []
  | c :: l1 =>
      if is_space c then drop_spaces_rev l1
      else
        match l1 with
        | [] => l
        | b :: l2 =>
            if is_space2 b c then drop_spaces_rev l2
            else
              match l2 with
              | [] => l
              | a :: l3 => if is_space3 a b c then drop_spaces_rev l3 else l
              end
        end
  end.

Definition trim_end (s : string) : string :=
  string_of_list_ascii
    (rev (drop_spaces_rev (rev (list_ascii_of_string s)))).

Definition trim (s : string) : string := trim_end (trim_start s).

(** *** Number arithmetic in binary64

    The sum, difference, product or quotient of two numbers is the exact
    result rounded to the nearest binary64 value, ties to even; results
    below 2^-1022 or from 2^1024 on in magnitude are outside the model. *)

(** The exponent of the leading bit: [2 ^ ilog2 x <= x < 2 ^ (ilog2 x + 1)]
    for a positive [x]. *)
Definition ilog2 (x : Q) : Z :=
  let k := (Z.log2 (Qnum x) - Z.log2 (Zpos (Qden x)))%Z in
  if Qle_bool (2 ^ k) x then k else (k - 1)%Z.

(** The nearest whole number, ties to even. *)
Definition round_half_even (t : Q) : Z :=
  let f := Qfloor t in
  match Qcompare (t - inject_Z f) (1 # 2) with
  | Lt => f
  | Gt => (f + 1)%Z
  | Eq => if Z.even f then f else (f + 1)%Z
  end.

(** A positive number with its significand rounded to 53 bits. *)
Definition round_pos (x : Q) : Q :=
  let e := (ilog2 x - 52)%Z in
  (inject_Z (round_half_even (x / 2 ^ e)) * 2 ^ e)%Q.

Definition round64 (x : Q) : Q :=
  match Qnum x with
  | Z0 => 0%Q
  | Zpos _ => round_pos x
  | Zneg _ => (- round_pos (- x))%Q
  end.

(** [a + b], [a - b], [a * b] and [a / b] on numbers. *)
Definition num_add (a b : Q) : Q := round64 (a + b).
Definition num_sub (a b : Q) : Q := round64 (a - b).
Definition num_mul (a b : Q) : Q := round64 (a * b).
Definition num_div (a b : Q) : Q := round64 (a / b).

(** The built-in [Map] with string keys: entries are kept in the order of
    the first insertion of their key; [set] on a key already present
    replaces the value in place. *)
Module Map.
Definition t (V : Type) : Type := list (string * V).

Fixpoint set {V} (k : string) (v : V) (m : t V) : t V :=
  match m with
  | [] => [(k, v)]
  | (k', v') :: m' =>
      if String.eqb k' k then (k, v) :: m' else (k', v') :: set k v m'
  end.

Fixpoint get {V} (k : string) (m : t V) : option V :=
  match m with
  | [] => None
  | (k', v') :: m' => if String.eqb k' k then Some v' else get k m'
  end.

(** [entries.forEach(e => m.set(e[0], e[1]))] *)
Definition set_all {V} (entries : list (string * V)) (m : t V) : t V :=
  fold_left (fun acc e => set (fst e) (snd e) acc) entries m.

(** [new Map(entries)] *)
Definition of_entries {V} (entries : list (string * V)) : t V :=
  set_all entries [].

Definition keys {V} (m : t V) : list string := map fst m.

(** [Array.from(m.values())] *)
Definition values {V} (m : t V) : list V := map snd m.
End Map.

End JS.

(** ** types.ts *)
Module Types.

Record Location : Type := mkLocation {
  lat : Q;
  lng : Q;
  city : option string;
  country : option string
}.

Record Photo : Type := mkPhoto {
  id : string;
  dataUrl : string;
  timestamp : Q;
  x : Q;
  y : Q;
  rotation : Q;
  caption : option string;
  isGeneratingCaption : option bool;
  isPublic : option bool;
  developmentProgress : option Q;
  location : option Location
}.

End Types.

(** ** services/geminiService.ts *)
Module GeminiService.
Import JS.

(** What the generative model is sent, and what it answers. *)
Record Request : Type := mkRequest {
  model : string;
  mimeType : string;
  data : string;
  text : string
}.

Record Part : Type := mkPart {
  inlineData : option string;   (* [part.inlineData.data] when present *)
  part_text : option string
}.

Record Content : Type := mkContent { parts : option (list Part) }.
Record Candidate : Type := mkCandidate { content : option Content }.

Record Response : Type := mkResponse {
  response_text : option string;           (* [response.text] *)
  candidates : option (list Candidate)     (* [response.candidates] *)
}.

Definition CAPTION_PROMPT : string :=
  "Analyze the facial expression and mood in this photo. Based on that, write a very short, heartwarming, or funny handwritten-style caption (max 6 words) for a polaroid. If they are smiling, be happy. If silly, be funny. Do not use quotes.".

(** [base64Image.split(',')[1] || base64Image] *)
Definition cleanBase64 (base64Image : string) : string :=
  match nth_error (split "," base64Image) 1 with
  | Some piece => if truthy_string piece then piece else base64Image
  | None => base64Image
  end.

Section Service.

(** [process.env.API_KEY || ''] *)
Variable API_KEY : string.
(** [new GoogleGenAI(...)] followed by [ai.models.generateContent(...)]:
    the awaited call either answers or throws. *)
Variable generateContent : Request -> outcome Response.

(** The promise returned by [generatePhotoCaption]. *)
Definition generatePhotoCaption (base64Image : string) : outcome string :=
  if negb (truthy_string API_KEY) then Returned "Memories captured..."
  else
    try_catch
      (bind (generateContent
               (mkRequest "gemini-2.5-flash" "image/jpeg"
                          (cleanBase64 base64Image) CAPTION_PROMPT))
            (fun response =>
               Returned
                 (match response_text response with
                  | Some t =>
                      if truthy_string (trim t) then trim t
                      else "A beautiful moment"
                  | None => "A beautiful moment"
                  end)))
      (fun _ => Returned "Snap!").

(** [response.candidates?.[0]?.content?.parts || []] *)
Definition first_candidate_parts (response : Response) : list Part :=
  match candidates response with
  | Some (c :: _) =>
      match content c with
      | Some ct => match parts ct with Some ps => ps | None => [] end
      | None => []
      end
  | _ => []
  end.

(** The [for (const part of ...)] loop: the first part carrying image data. *)
Fixpoint first_inline_image (ps : list Part) : option string :=
  match ps with
  | [] => None
  | p :: ps' =>
      match inlineData p with
      | Some d => Some ("data:image/png;base64," ++ d)%string
      | None => first_inline_image ps'
      end
  end.

Definition edit_prompt (prompt : string) : string :=
  ("Edit this image to match this style description: " ++ prompt ++
   ". Keep the main subject composition but change the artistic style. Output only the image.")%string.

(** The promise returned by [editPhotoStyle]; [None] is [null]. *)
Definition editPhotoStyle (base64Image prompt : string)
  : outcome (option string) :=
  if negb (truthy_string API_KEY) then Returned None
  else
    try_catch
      (bind (generateContent
               (mkRequest "gemini-2.5-flash-image" "image/jpeg"
                          (cleanBase64 base64Image) (edit_prompt prompt)))
            (fun response =>
               Returned (first_inline_image (first_candidate_parts response))))
      (fun _ => Returned None).

End Service.
End GeminiService.

(** ** services/storageService.ts *)
Module StorageService.
Import JS Types.

Definition USER_STORAGE_KEY : string := "retrosnap_user_photos_v1".
Definition SHARED_POOL_KEY : string := "retrosnap_shared_pool_v1".

(** *** Image compression helper *)

(** A decoded image: [img.width] and [img.height] (unsigned longs). *)
Record Image : Type := mkImage {
  img_width : N;
  img_height : N
}.

(** A canvas element: its pixel size and what [drawImage] painted on it
    (the source text of the image and the destination size). *)
Record Canvas : Type := mkCanvas {
  canvas_width : N;
  canvas_height : N;
  painted : option (string * Q * Q)
}.

(** Assigning a number to an [unsigned long] attribute: truncate toward
    zero, then wrap modulo 2^32. *)
Definition to_unsigned_long (q : Q) : N :=
  Z.to_N ((Z.quot (Qnum q) (Zpos (Qden q))) mod 2 ^ 32)%Z.

Definition of_unsigned_long (n : N) : Q := inject_Z (Z.of_N n).

(** The resizing arithmetic of [img.onload], on the local variables
    [width] and [height]: [height *= maxWidth / width] and
    [width *= maxWidth / height] round twice, the quotient and the
    product. *)
Definition scaled_size (width height maxWidth : Q) : Q * Q :=
  if gt width height then
    if gt width maxWidth
    then (maxWidth, num_mul height (num_div maxWidth width))
    else (width, height)
  else
    if gt height maxWidth
    then (num_mul width (num_div maxWidth height), maxWidth)
    else (width, height).

Section Browser.

(** [img.src = base64Str]: the browser fires [onload] with a decoded image
    or [onerror] ([None]). *)
Variable decodeImage : string -> option Image.
(** Whether [canvas.getContext('2d')] yields a context. *)
Variable getContext2d : Canvas -> bool.
(** [canvas.toDataURL(type, quality)]. *)
Variable toDataURL : Canvas -> string -> Q -> string.

(** The canvas that [img.onload] sets up and paints, when it gets a
    context. *)
Definition compress_canvas (base64Str : string) (maxWidth : Q)
  : option Canvas :=
  match decodeImage base64Str with
  | None => None
  | Some img =>
      let '(width, height) :=
        scaled_size (of_unsigned_long (img_width img))
                    (of_unsigned_long (img_height img)) maxWidth in
      let canvas :=
        mkCanvas (to_unsigned_long width) (to_unsigned_long height) None in
      if getContext2d canvas then
        Some (mkCanvas (canvas_width canvas) (canvas_height canvas)
                       (Some (base64Str, width, height)))
      else None
  end.

(** The string the promise of [compressImage] resolves with. *)
Definition compressImage (base64Str : string) (maxWidth quality : Q)
  : string :=
  match compress_canvas base64Str maxWidth with
  | Some canvas => toDataURL canvas "image/jpeg" quality
  | None => base64Str
  end.

(** [compressImage(s)] with the default [maxWidth = 800], [quality = 0.6]. *)
Definition compressImage_default (base64Str : string) : string :=
  compressImage base64Str 800 0.6.

(** [{ ...p, dataUrl: compressed }] *)
Definition with_dataUrl (d : string) (p : Photo) : Photo :=
  mkPhoto (id p) d (timestamp p) (x p) (y p) (rotation p) (caption p)
          (isGeneratingCaption p) (isPublic p) (developmentProgress p)
          (location p).

(** Step 1 of [saveUserPhotos]: only a payload of more than 500000
    characters goes through [compressImage]. *)
Definition compress_large (photos : list Photo) : list Photo :=
  map (fun p =>
         if N.ltb 500000 (N.of_nat (String.length (dataUrl p)))
         then with_dataUrl (compressImage_default (dataUrl p)) p
         else p)
      photos.

End Browser.

(** *** Local storage and the global gallery *)

(** A document of the remote [global_gallery] collection.  [doc_data] is
    [doc.data()] read as photo fields; [data_has_id] tells whether the stored
    data carries an [id] property of its own, which then overrides [doc.id]
    in [{ id: doc.id, ...doc.data() }]. *)
Record Doc : Type := mkDoc {
  doc_id : string;
  data_has_id : bool;
  doc_data : Photo
}.

Definition with_id (i : string) (p : Photo) : Photo :=
  mkPhoto i (dataUrl p) (timestamp p) (x p) (y p) (rotation p) (caption p)
          (isGeneratingCaption p) (isPublic p) (developmentProgress p)
          (location p).

Definition photo_of_doc (d : Doc) : Photo :=
  if data_has_id d then doc_data d else with_id (doc_id d) (doc_data d).

(** [p => [p.id, p]] *)
Definition entry (p : Photo) : string * Photo := (id p, p).

(** The module-level handle [db]: [None] when Firebase is not configured
    (or failed to initialise); otherwise what awaiting the recent-photos
    query does, answer with documents or throw. *)
Definition Database : Type := option (outcome (list Doc)).

Section Store.

(** [JSON.parse] on a stored record, typed as the source types it
    ([Photo[]]); it throws on text that is not JSON.  Texts that parse to
    something else than a photo array are the matter of [Untyped] below,
    whose readers agree with these on every other text. *)
Variable JSON_parse : string -> outcome (list Photo).
(** The readings of [Date.now()] made while the module is loaded. *)
Variable loadTime : nat -> Q.

Definition INITIAL_COMMUNITY_PHOTOS : list Photo :=
  [ mkPhoto "case-tokyo"
      "https://images.unsplash.com/photo-1540959733332-eab4deabeeaf?q=80&w=600&auto=format&fit=crop"
      (loadTime 0) 0 0 (-2) (Some "Neon nights 🍜"%string) None (Some true)
      (Some 100%Q) (Some (mkLocation 35.6938 139.7035 (Some "Tokyo"%string) None));
    mkPhoto "case-paris"
      "https://images.unsplash.com/photo-1502602898657-3e91760cbb34?q=80&w=600&auto=format&fit=crop"
      (loadTime 1) 0 0 3 (Some "Bonjour Paris ☕"%string) None (Some true)
      (Some 100%Q) (Some (mkLocation 48.8584 2.2945 (Some "Paris"%string) None));
    mkPhoto "case-iceland"
      "https://images.unsplash.com/photo-1476610182048-b716b8518aae?q=80&w=600&auto=format&fit=crop"
      (loadTime 2) 0 0 4 (Some "Ice & Fire 🌊"%string) None (Some true)
      (Some 100%Q) (Some (mkLocation 64.9631 (-19.0208) (Some "Iceland"%string) None));
    mkPhoto "case-rio"
      "https://images.unsplash.com/photo-1483729558449-99ef09a8c325?q=80&w=600&auto=format&fit=crop"
      (loadTime 3) 0 0 2 (Some "Carnival! 💃"%string) None (Some true)
      (Some 100%Q) (Some (mkLocation (-22.9519) (-43.2105) (Some "Rio"%string) None)) ].

(** [localStorage] is a finite map from keys to strings; [getItem] is the
    lookup. *)
Definition read_photos (key : string) (localStorage : gmap string string)
  : outcome (list Photo) :=
  try_catch
    (match localStorage !! key with
     | Some stored => if truthy_string stored then JSON_parse stored
                      else Returned []
     | None => Returned []
     end)
    (fun _ => Returned []).

Definition getUserPhotos (localStorage : gmap string string)
  : outcome (list Photo) :=
  read_photos USER_STORAGE_KEY localStorage.

Definition getSharedPoolLocal (localStorage : gmap string string)
  : outcome (list Photo) :=
  read_photos SHARED_POOL_KEY localStorage.

(** Step 1 of [getGlobalGallery]: the photos fetched from the cloud. *)
Definition fetch_remote (db : Database) : list Photo :=
  match db with
  | Some (Returned docs) => map photo_of_doc docs
  | Some (Thrown _) => []
  | None => []
  end.

(** Step 3 of [getGlobalGallery]: dedup by id, the user's photos set last. *)
Definition merge_gallery (remotePhotos userPublic : list Photo)
  : list Photo :=
  Map.values
    (Map.set_all (map entry userPublic)
                 (Map.of_entries (map entry remotePhotos))).

(** Steps 1 and 2 of [getGlobalGallery]: the cloud photos, or the curated
    photos followed by the local shared pool when the cloud gave none. *)
Definition remote_or_fallback (db : Database)
  (localStorage : gmap string string) : outcome (list Photo) :=
  let remotePhotos := fetch_remote db in
  if Nat.eqb (List.length remotePhotos) 0
  then bind (getSharedPoolLocal localStorage)
            (fun pool => Returned (INITIAL_COMMUNITY_PHOTOS ++ pool))
  else Returned remotePhotos.

(** [p => p.isPublic] *)
Definition is_public (p : Photo) : bool := truthy_flag (isPublic p).

(** The promise returned by [getGlobalGallery]. *)
Definition getGlobalGallery (db : Database)
  (localStorage : gmap string string) : outcome (list Photo) :=
  bind (remote_or_fallback db localStorage)
       (fun remotePhotos =>
  bind (getUserPhotos localStorage)
       (fun userPhotos =>
  let userPublic := List.filter is_public userPhotos in
  Returned (merge_gallery remotePhotos userPublic))).

End Store.

(** *** Reading the storage whatever it holds

    Above, [JSON.parse] has the type the source gives its result,
    [Photo[]]: that is the reading of a storage whose two records are
    absent, empty, not JSON, or arrays of photo records, which is all that
    this application writes there.  [JSON.parse] itself yields any JSON
    value, and nothing in the service checks the shape of what it yields.
    Here are the three readers without that assumption on the value; the
    elements of an array are still photo records. *)
Module Untyped.

(** A JSON value that is neither an array nor a string. *)
Inductive Plain : Type :=
| JNull
| JBoolean (b : bool)
| JNumber (n : Q)
| JObject.

(** What [JSON.parse] yields: an array, a string (given by its code
    points), or a value that cannot be iterated. *)
Inductive Parsed : Type :=
| PhotoArray (photos : list Photo)
| Characters (codePoints : list string)
| NotIterable (v : Plain).

(** An element of an array built by spreading: a photo record, or one
    character of a string. *)
Inductive Item : Type :=
| IsPhoto (p : Photo)
| IsCharacter (c : string).

(** [p.id]; a string has no such property ([undefined], [None]). *)
Definition item_id (it : Item) : option string :=
  match it with
  | IsPhoto p => Some (id p)
  | IsCharacter _ => None
  end.

(** [p => [p.id, p]] *)
Definition item_entry (it : Item) : option string * Item := (item_id it, it).

(** [...v] inside an array literal. *)
Definition spread (v : Parsed) : outcome (list Item) :=
  match v with
  | PhotoArray photos => Returned (map IsPhoto photos)
  | Characters codePoints => Returned (map IsCharacter codePoints)
  | NotIterable _ => Thrown "TypeError: not iterable"
  end.

(** [v.filter(p => p.isPublic)]: only an array has [filter]. *)
Definition filter_public (v : Parsed) : outcome (list Photo) :=
  match v with
  | PhotoArray photos => Returned (List.filter is_public photos)
  | Characters _ => Thrown "TypeError: filter is not a function"
  | NotIterable _ => Thrown "TypeError: filter is not a function"
  end.

(** The built-in [Map] once more, with [undefined] among the keys. *)
Definition key_eqb (a b : option string) : bool :=
  match a, b with
  | Some x, Some y => String.eqb x y
  | None, None => true
  | _, _ => false
  end.

Fixpoint map_set (k : option string) (v : Item)
  (m : list (option string * Item)) : list (option string * Item) :=
  match m with
  | [] => [(k, v)]
  | (k', v') :: m' =>
      if key_eqb k' k then (k, v) :: m' else (k', v') :: map_set k v m'
  end.

Definition map_set_all (entries m : list (option string * Item))
  : list (option string * Item) :=
  fold_left (fun acc e => map_set (fst e) (snd e) acc) entries m.

(** [JSON.parse] restricted to the texts that parse to photo arrays. *)
Definition of_typed (parse : string -> outcome (list Photo))
  : string -> outcome Parsed :=
  fun text =>
    match parse text with
    | Returned photos => Returned (PhotoArray photos)
    | Thrown e => Thrown e
    end.

Section Readers.

Variable JSON_parse : string -> outcome Parsed.
Variable loadTime : nat -> Q.

(** [try { const stored = localStorage.getItem(key);
          return stored ? JSON.parse(stored) : []; }
     catch (e) { return []; }] *)
Definition read_stored (key : string) (localStorage : gmap string string)
  : outcome Parsed :=
  try_catch
    (match localStorage !! key with
     | Some stored => if truthy_string stored then JSON_parse stored
                      else Returned (PhotoArray [])
     | None => Returned (PhotoArray [])
     end)
    (fun _ => Returned (PhotoArray [])).

Definition getUserPhotos (localStorage : gmap string string)
  : outcome Parsed :=
  read_stored USER_STORAGE_KEY localStorage.

Definition getSharedPoolLocal (localStorage : gmap string string)
  : outcome Parsed :=
  read_stored SHARED_POOL_KEY localStorage.

(** Steps 1 and 2 of [getGlobalGallery]. *)
Definition remote_or_fallback (db : Database)
  (localStorage : gmap string string) : outcome (list Item) :=
  let remotePhotos := fetch_remote db in
  if Nat.eqb (List.length remotePhotos) 0
  then bind (getSharedPoolLocal localStorage)
            (fun pool =>
  bind (spread pool)
            (fun items =>
  Returned (map IsPhoto (INITIAL_COMMUNITY_PHOTOS loadTime) ++ items)))
  else Returned (map IsPhoto remotePhotos).

(** The promise returned by [getGlobalGallery]: it is rejected when
    spreading the pool or filtering the user's record throws. *)
Definition getGlobalGallery (db : Database)
  (localStorage : gmap string string) : outcome (list Item) :=
  bind (remote_or_fallback db localStorage)
       (fun remotePhotos =>
  bind (getUserPhotos localStorage)
       (fun stored =>
  bind (filter_public stored)
       (fun userPublic =>
  Returned
    (map snd
       (map_set_all (map item_entry (map IsPhoto userPublic))
          (map_set_all (map item_entry remotePhotos) [])))))).

End Readers.
End Untyped.

(** *** Writing: initialisation, the shared pool, saving and uploading *)

(** What a Firestore handle does: the recent-photos query of
    [getGlobalGallery] and [addDoc] on the [global_gallery] collection, which
    answers with the new document's id or throws. *)
Record Firestore : Type := mkFirestore {
  getDocs : outcome (list Doc);
  addDoc : Photo -> outcome string
}.

Section Persist.

Variable decodeImage : string -> option Image.
Variable getContext2d : Canvas -> bool.
Variable toDataURL : Canvas -> string -> Q -> string.
Variable JSON_parse : string -> outcome (list Photo).
(** [JSON.stringify] on a list of photos. *)
Variable JSON_stringify : list Photo -> string.
(** Whether the browser accepts a content of [localStorage]; a write that
    would go beyond it throws [QuotaExceededError]. *)
Variable within_quota : gmap string string -> bool.

(** [localStorage.setItem(key, value)]: the storage afterwards, or the
    exception. *)
Definition setItem (key value : string) (localStorage : gmap string string)
  : outcome (gmap string string) :=
  if within_quota (<[key := value]> localStorage)
  then Returned (<[key := value]> localStorage)
  else Thrown "QuotaExceededError".

(** [updatedPool] of [addToSharedPoolLocal]. *)
Definition updated_pool (currentPool photos : list Photo) : list Photo :=
  Map.values
    (Map.set_all (map entry photos)
                 (Map.of_entries (map entry currentPool))).

(** [addToSharedPoolLocal]: the storage it leaves.  The whole body is in a
    [try], the [catch] only warns. *)
Definition addToSharedPoolLocal (photos : list Photo)
  (localStorage : gmap string string) : gmap string string :=
  match
    bind (getSharedPoolLocal JSON_parse localStorage)
         (fun currentPool =>
            setItem SHARED_POOL_KEY
                    (JSON_stringify (updated_pool currentPool photos))
                    localStorage)
  with
  | Returned stored => stored
  | Thrown _ => localStorage
  end.

(** [saveUserPhotos]: the storage it leaves once its promise has resolved.
    A [setItem] that throws leaves the [try] block before step 3. *)
Definition saveUserPhotos (db : option Firestore) (photos : list Photo)
  (localStorage : gmap string string) : gmap string string :=
  let compressedPhotos :=
    compress_large decodeImage getContext2d toDataURL photos in
  match
    setItem USER_STORAGE_KEY (JSON_stringify compressedPhotos) localStorage
  with
  | Returned stored =>
      match db with
      | Some _ => stored
      | None =>
          addToSharedPoolLocal (List.filter is_public compressedPhotos) stored
      end
  | Thrown _ => localStorage
  end.



End Persist.
End StorageService.

(** ** App.tsx: the photo lifecycle controller *)
Module App.
Import JS Types.

(** Record updates [{ ...p, field: value }]. *)
Definition with_position (x' y' : Q) (p : Photo) : Photo :=
  mkPhoto (id p) (dataUrl p) (timestamp p) x' y' (rotation p) (caption p)
          (isGeneratingCaption p) (isPublic p) (developmentProgress p)
          (location p).

Definition with_progress (progress : Q) (p : Photo) : Photo :=
  mkPhoto (id p) (dataUrl p) (timestamp p) (x p) (y p) (rotation p)
          (caption p) (isGeneratingCaption p) (isPublic p) (Some progress)
          (location p).

Definition with_caption (c : string) (generating : bool) (p : Photo)
  : Photo :=
  mkPhoto (id p) (dataUrl p) (timestamp p) (x p) (y p) (rotation p)
          (Some c) (Some generating) (isPublic p) (developmentProgress p)
          (location p).

Definition with_generating (generating : bool) (p : Photo) : Photo :=
  mkPhoto (id p) (dataUrl p) (timestamp p) (x p) (y p) (rotation p)
          (caption p) (Some generating) (isPublic p) (developmentProgress p)
          (location p).

Definition with_image (d : string) (generating : bool) (p : Photo) : Photo :=
  mkPhoto (id p) d (timestamp p) (x p) (y p) (rotation p)
          (caption p) (Some generating) (isPublic p) (developmentProgress p)
          (location p).

Definition with_share (public : bool) (loc : option Location) (p : Photo)
  : Photo :=
  mkPhoto (id p) (dataUrl p) (timestamp p) (x p) (y p) (rotation p)
          (caption p) (isGeneratingCaption p) (Some public)
          (developmentProgress p) loc.

(** [prev.map(p => p.id === id ? f(p) : p)] *)
Definition patch (target : string) (f : Photo -> Photo) (prev : list Photo)
  : list Photo :=
  map (fun p => if String.eqb (id p) target then f p else p) prev.

(** *** handleCapture *)

(** What [handleCapture] reads from its surroundings. *)
Record CaptureEnv : Type := mkCaptureEnv {
  randomUUID : string;      (* [crypto.randomUUID()] *)
  random : Q;               (* [Math.random()] *)
  innerWidth : Q;           (* [window.innerWidth] *)
  innerHeight : Q;          (* [window.innerHeight] *)
  now : Q                   (* [Date.now()] *)
}.

Definition newPhoto (env : CaptureEnv) (userLocation : option Location)
  (data : string) : Photo :=
  let randomRotation := (random env * 10 - 5)%Q in
  let isMobile := lt (innerWidth env) 768 in
  let startX := if isMobile then (innerWidth env / 2 - 120)%Q else 40%Q in
  let startY := if isMobile then 20%Q else (innerHeight env - 400)%Q in
  mkPhoto (randomUUID env) data (now env) startX startY randomRotation
          (Some ""%string) (Some true) (Some false) (Some 0%Q) userLocation.

(** [setPhotos(prev => [...prev, newPhoto])] *)
Definition insert_photo (p : Photo) (prev : list Photo) : list Photo :=
  prev ++ [p].

(** The [setPhotos] that runs once [await generatePhotoCaption(dataUrl)]
    settles: the one of the [try] block when the promise is fulfilled, the
    one of the [catch] block when it is rejected. *)
Definition caption_settled (target : string) (r : outcome string)
  (prev : list Photo) : list Photo :=
  match r with
  | Returned c => patch target (with_caption c false) prev
  | Thrown _ => patch target (with_generating false) prev
  end.

(** *** updatePhotoPosition, updatePhotoProgress, deletePhoto *)

Definition updatePhotoPosition (target : string) (x' y' : Q)
  (prev : list Photo) : list Photo :=
  patch target (with_position x' y') prev.

Definition updatePhotoProgress (target : string) (progress : Q)
  (prev : list Photo) : list Photo :=
  patch target (with_progress progress) prev.

Definition deletePhoto (target : string) (prev : list Photo) : list Photo :=
  List.filter (fun p => negb (String.eqb (id p) target)) prev.

(** *** handleEditPhoto *)

(** The first [setPhotos]: raise the pending flag. *)
Definition edit_begin (target : string) (prev : list Photo) : list Photo :=
  patch target (with_generating true) prev.

(** [dataUrl: newImageData || p.dataUrl, isGeneratingCaption: false] *)
Definition apply_edit (newImageData : option string) (p : Photo) : Photo :=
  match newImageData with
  | Some d => if truthy_string d then with_image d false p
              else with_image (dataUrl p) false p
  | None => with_image (dataUrl p) false p
  end.

(** The [setPhotos] after [await editPhotoStyle(...)]; a rejected promise
    leaves [handleEditPhoto] before it. *)
Definition edit_settled (target : string) (r : outcome (option string))
  (prev : list Photo) : list Photo :=
  match r with
  | Returned newImageData => patch target (apply_edit newImageData) prev
  | Thrown _ => prev
  end.

(** [photos.find(p => p.id === id)] on the collection the callback closed
    over. *)
Definition find_photo (target : string) (photos : list Photo)
  : option Photo :=
  List.find (fun p => String.eqb (id p) target) photos.

(** *** handleToggleShare *)

Inductive Effect : Type :=
| ShowToast (msg : string)
| ClearToastAfter (ms : Q)
| UploadToCloud (p : Photo).

(** The body of the [map] callback for the matching photo.  [rnd] lists the
    values [Math.random()] returns, [n] counts the calls made so far. *)
Definition toggle_photo (rnd : nat -> Q) (n : nat) (p : Photo)
  : Photo * list Effect * nat :=
  let isNowPublic := negb (truthy_flag (isPublic p)) in
  let synthesize :=
    isNowPublic &&
    match location p with
    | None => true
    | Some l => negb (truthy_number (lat l))
    end in
  let updatedLoc :=
    if synthesize
    then Some (mkLocation (35.6762 + (rnd n - 0.5))%Q
                          (139.6503 + (rnd (S n) - 0.5))%Q
                          (Some "Unknown"%string) None)
    else location p in
  (with_share isNowPublic updatedLoc p,
   if isNowPublic
   then [ShowToast "📍 Pinned to Global Gallery"; ClearToastAfter 4000;
         UploadToCloud (with_share true updatedLoc p)]
   else [],
   if synthesize then S (S n) else n).

(** [prev.map(p => { if (p.id === id) {...} return p; })], with the effects
    it fires on the way. *)
Fixpoint handleToggleShare (rnd : nat -> Q) (target : string) (n : nat)
  (prev : list Photo) : list Photo * list Effect * nat :=
  match prev with
  | [] => ([], [], n)
  | p :: rest =>
      let '(p', fired, n1) :=
        if String.eqb (id p) target then toggle_photo rnd n p
        else (p, [], n) in
      let '(rest', fired', n2) := handleToggleShare rnd target n1 rest in
      (p' :: rest', fired ++ fired', n2)
  end.

Section Controller.

Variable API_KEY : string.
Variable generateContent :
  GeminiService.Request -> outcome GeminiService.Response.

(** [handleCapture]: the collection update made at once, and the one made
    when the caption call settles. *)
Definition handleCapture (env : CaptureEnv) (userLocation : option Location)
  (data : string)
  : (list Photo -> list Photo) * (list Photo -> list Photo) :=
  (insert_photo (newPhoto env userLocation data),
   caption_settled (randomUUID env)
     (GeminiService.generatePhotoCaption API_KEY generateContent data)).

(** [handleEditPhoto]: the update made at once and, when the photo is found
    in [photos] (the collection of the last render), the update made when
    the style edit settles. *)
Definition handleEditPhoto (photos : list Photo) (target prompt : string)
  : (list Photo -> list Photo) * option (list Photo -> list Photo) :=
  (edit_begin target,
   match find_photo target photos with
   | Some photo =>
       Some (edit_settled target
               (GeminiService.editPhotoStyle API_KEY generateContent
                  (dataUrl photo) prompt))
   | None => None
   end).

End Controller.

(** *** The controller as a transition system *)

Record State : Type := mkState {
  photos : list Photo;
  randomCalls : nat;
  fired : list Effect
}.

Inductive Event : Type :=
| Capture (p : Photo)
| CaptionSettled (target : string) (r : outcome string)
| UpdatePosition (target : string) (x' y' : Q)
| UpdateProgress (target : string) (progress : Q)
| Delete (target : string)
| EditBegin (target : string)
| EditSettled (target : string) (r : outcome (option string))
| ToggleShare (target : string).

Definition step (rnd : nat -> Q) (ev : Event) (s : State) : State :=
  match ev with
  | Capture p => mkState (insert_photo p (photos s)) (randomCalls s) (fired s)
  | CaptionSettled t r =>
      mkState (caption_settled t r (photos s)) (randomCalls s) (fired s)
  | UpdatePosition t x' y' =>
      mkState (updatePhotoPosition t x' y' (photos s)) (randomCalls s) (fired s)
  | UpdateProgress t progress =>
      mkState (updatePhotoProgress t progress (photos s)) (randomCalls s)
              (fired s)
  | Delete t => mkState (deletePhoto t (photos s)) (randomCalls s) (fired s)
  | EditBegin t => mkState (edit_begin t (photos s)) (randomCalls s) (fired s)
  | EditSettled t r =>
      mkState (edit_settled t r (photos s)) (randomCalls s) (fired s)
  | ToggleShare t =>
      let '(photos', fired', n') :=
        handleToggleShare rnd t (randomCalls s) (photos s) in
      mkState photos' n' (fired s ++ fired')
  end.

Definition run (rnd : nat -> Q) (evs : list Event) (s : State) : State :=
  fold_left (fun acc ev => step rnd ev acc) evs s.

(** *** Start-up, persistence and the upload effect *)

(** What [res.json()] of the IP lookup carries, as far as [initLocation]
    reads it. *)
Record IpData : Type := mkIpData {
  latitude : option Q;
  longitude : option Q;
  ip_city : option string
}.

(** [initLocation]: the [userLocation] it sets, if any.  [lookup] is the
    awaited [fetch] and [res.json()]; [geolocation] is [None] when
    [navigator.geolocation] is missing, [Some None] when it never calls
    back, and the coordinates it reports otherwise. *)
Definition initLocation (lookup : outcome IpData)
  (geolocation : option (option (Q * Q))) : option Location :=
  match lookup with
  | Returned data =>
      match latitude data, longitude data with
      | Some la, Some lo =>
          if truthy_number la && truthy_number lo
          then Some (mkLocation la lo (ip_city data) None)
          else None
      | _, _ => None
      end
  | Thrown _ =>
      match geolocation with
      | Some (Some (la, lo)) =>
          Some (mkLocation la lo (Some "Unknown Location"%string) None)
      | _ => None
      end
  end.

Section Persistence.

Variable decodeImage : string -> option StorageService.Image.
Variable getContext2d : StorageService.Canvas -> bool.
Variable toDataURL : StorageService.Canvas -> string -> Q -> string.
Variable JSON_parse : string -> outcome (list Photo).
Variable JSON_stringify : list Photo -> string.
Variable within_quota : gmap string string -> bool.

(** Effect 1, loading on start-up: [const stored = getUserPhotos();
    if (stored) setPhotos(stored)] over the initial [[]]; a list is always
    truthy. *)
Definition load_photos (localStorage : gmap string string) : list Photo :=
  match StorageService.getUserPhotos JSON_parse localStorage with
  | Returned stored => stored
  | Thrown _ => []
  end.

(** Effect 2, auto-save: [if (isLoaded) saveUserPhotos(photos)]. *)
Definition autosave (isLoaded : bool) (db : option StorageService.Firestore)
  (photos : list Photo) (localStorage : gmap string string)
  : gmap string string :=
  if isLoaded
  then StorageService.saveUserPhotos decodeImage getContext2d toDataURL
         JSON_parse JSON_stringify within_quota db photos localStorage
  else localStorage.



End Persistence.

End App.

(** ** components/DraggablePolaroid.tsx: the development progress *)
Module DraggablePolaroid.
Import JS Types.

(** The part of the component's state that drives development.
    [developmentProgress] is the state as of the last render, the value the
    closures of that render see; [queued] is that state with the functional
    updates issued since then applied, which the next render shows. *)
Record Component : Type := mkComponent {
  developmentProgress : Q;
  queued : Q;
  progressRef : Q;
  isDragging : bool;
  lastPos : Q * Q
}.

(** [photo.developmentProgress || 0] *)
Definition initial_progress (p : Photo) : Q :=
  match Types.developmentProgress p with
  | Some v => if truthy_number v then v else 0%Q
  | None => 0%Q
  end.

(** First render: [useState(photo.developmentProgress || 0)],
    [useRef(developmentProgress)], [useRef({ x: 0, y: 0 })]. *)
Definition mount (p : Photo) : Component :=
  mkComponent (initial_progress p) (initial_progress p) (initial_progress p)
              false (0%Q, 0%Q).

(** The timer callback: [setDevelopmentProgress(prev => Math.min(prev + 0.5, 100))]. *)
Definition tick (c : Component) : Component :=
  mkComponent (developmentProgress c) (Qmin (queued c + 0.5) 100)
              (progressRef c) (isDragging c) (lastPos c).

(** A render commits the queued state; the effect keyed on
    [developmentProgress] then copies it into [progressRef]. *)
Definition render (c : Component) : Component :=
  mkComponent (queued c) (queued c) (queued c) (isDragging c) (lastPos c).

(** [handleStart] when the element and its container are there and the
    photo is not being edited. *)
Definition handleStart (clientX clientY : Q) (c : Component) : Component :=
  mkComponent (developmentProgress c) (queued c) (progressRef c) true
              (clientX, clientY).

(** [handleMove]; the call of [onMove] concerns the position only. *)
Definition handleMove (clientX clientY : Q) (c : Component) : Component :=
  if negb (isDragging c) then c
  else
    let dx := Qabs (clientX - fst (lastPos c)) in
    let dy := Qabs (clientY - snd (lastPos c)) in
    let speed := (dx + dy)%Q in
    mkComponent (developmentProgress c)
                (if gt speed 15 && lt (developmentProgress c) 100
                 then Qmin (queued c + 2) 100 else queued c)
                (progressRef c) (isDragging c) (clientX, clientY).

Definition handleEnd (c : Component) : Component :=
  mkComponent (developmentProgress c) (queued c) (progressRef c) false
              (lastPos c).

(** One photo of the wall: its entry in the active collection and, while
    the wall shows it, its component. *)
Record Session : Type := mkSession {
  photo : Photo;
  component : option Component
}.

Inductive Event : Type :=
| Mount
| Unmount
| Tick
| Render
| DragStart (clientX clientY : Q)
| Move (clientX clientY : Q)
| DragEnd.

Definition on_component (f : Component -> Component) (s : Session)
  : Session :=
  match component s with
  | Some c => mkSession (photo s) (Some (f c))
  | None => s
  end.

(** [Unmount] runs the cleanup of the timer effect:
    [onUpdateProgress(photo.id, progressRef.current)], which the controller
    applies to this photo as [{ ...p, developmentProgress: progress }]. *)
Definition step (ev : Event) (s : Session) : Session :=
  match ev with
  | Mount =>
      match component s with
      | Some _ => s
      | None => mkSession (photo s) (Some (mount (photo s)))
      end
  | Unmount =>
      match component s with
      | Some c => mkSession (App.with_progress (progressRef c) (photo s)) None
      | None => s
      end
  | Tick => on_component tick s
  | Render => on_component render s
  | DragStart cx cy => on_component (handleStart cx cy) s
  | Move cx cy => on_component (handleMove cx cy) s
  | DragEnd => on_component handleEnd s
  end.

Definition run (evs : list Event) (s : Session) : Session :=
  fold_left (fun acc ev => step ev acc) evs s.

(** The progress a session shows: the component's while mounted, the
    photo's own otherwise. *)
Definition shown_progress (s : Session) : Q :=
  match component s with
  | Some c => developmentProgress c
  | None => initial_progress (photo s)
  end.

(** *** What the print looks like *)

(** The CSS filters computed from the progress. *)
Definition brightness (progress : Q) : Q := (0.1 + progress / 100 * 0.9)%Q.
Definition contrast (progress : Q) : Q := (1.2 - progress / 100 * 0.2)%Q.
Definition grayscale (progress : Q) : Q := (1 - progress / 100)%Q.

(** The caption area: a pulsing hint below 80, the caption from there on. *)
Inductive CaptionArea : Type :=
| Hint (text : string)
| Handwriting (text : string).

Definition caption_area (progress : Q) (caption : option string)
  : CaptionArea :=
  if lt progress 80
  then Hint (if lt progress 30 then "Developing..." else "Shake me!")
  else Handwriting
         match caption with
         | Some c => if truthy_string c then c else "..."%string
         | None => "..."%string
         end.

(** [n] callbacks of the timer in a row. *)
Definition ticks (n : nat) (c : Component) : Component := Nat.iter n tick c.

End DraggablePolaroid.

(** ** components/CameraSection.tsx *)
Module CameraSection.
Import JS.

Inductive FacingMode : Type := user | environment.

(** [setFacingMode(prev => prev === 'user' ? 'environment' : 'user')] *)
Definition toggleCamera (prev : FacingMode) : FacingMode :=
  match prev with
  | user => environment
  | environment => user
  end.

(** The square cut out of the video frame: the canvas side and the source
    corner passed to [drawImage]; the canvas is mirrored for the front
    camera. *)
Record Crop : Type := mkCrop {
  size : Q;
  sx : Q;
  sy : Q;
  mirrored : bool
}.

Definition crop (videoWidth videoHeight : N) (facingMode : FacingMode)
  : Crop :=
  let vw := inject_Z (Z.of_N videoWidth) in
  let vh := inject_Z (Z.of_N videoHeight) in
  let size := Qmin vw vh in
  mkCrop size ((vw - size) / 2)%Q ((vh - size) / 2)%Q
         match facingMode with user => true | environment => false end.

(** A pending [setTimeout]. *)
Inductive Timer : Type :=
| FlashOff                      (* after 150 ms: [setIsFlashing(false)] *)
| HandOff (dataUrl : string).   (* after 1400 ms: [onCapture(dataUrl)] *)

Record Camera : Type := mkCamera {
  facingMode : FacingMode;
  printingPhoto : option string;
  isFlashing : bool;
  timers : list Timer;
  handed : list string          (* the calls of [onCapture] so far *)
}.

Definition initial : Camera := mkCamera user None false [] [].

(** [printingPhoto] read as a condition. *)
Definition printing (c : Camera) : bool :=
  match printingPhoto c with
  | Some d => truthy_string d
  | None => false
  end.

(** [handleCapture].  [ready] tells whether the video and canvas elements
    are there, [context] whether the canvas hands out a 2D context,
    [dataUrl] is what [canvas.toDataURL('image/jpeg', 0.9)] returns.  A
    press is handled after the render that follows the event before it, so
    the handler sees the current [printingPhoto]. *)
Definition handleCapture (ready context : bool) (dataUrl : string)
  (c : Camera) : Camera :=
  if negb ready || printing c then c
  else if context
       then mkCamera (facingMode c) (Some dataUrl) true
                     (timers c ++ [FlashOff; HandOff dataUrl]) (handed c)
       else mkCamera (facingMode c) (printingPhoto c) true
                     (timers c ++ [FlashOff]) (handed c).

Fixpoint remove_nth {A : Type} (i : nat) (l : list A) : list A :=
  match l, i with
  | [], _ => []
  | _ :: rest, O => rest
  | a :: rest, S j => a :: remove_nth j rest
  end.

(** The [i]-th pending timer fires. *)
Definition fire (i : nat) (c : Camera) : Camera :=
  match nth_error (timers c) i with
  | Some FlashOff =>
      mkCamera (facingMode c) (printingPhoto c) false
               (remove_nth i (timers c)) (handed c)
  | Some (HandOff d) =>
      mkCamera (facingMode c) None (isFlashing c)
               (remove_nth i (timers c)) (handed c ++ [d])
  | None => c
  end.

Inductive Event : Type :=
| Shutter (ready context : bool) (dataUrl : string)
| Fire (i : nat)
| SwitchCamera.

Definition step (ev : Event) (c : Camera) : Camera :=
  match ev with
  | Shutter ready context d => handleCapture ready context d c
  | Fire i => fire i c
  | SwitchCamera =>
      mkCamera (toggleCamera (facingMode c)) (printingPhoto c) (isFlashing c)
               (timers c) (handed c)
  end.

Definition run (evs : list Event) (c : Camera) : Camera :=
  fold_left (fun acc ev => step ev acc) evs c.

(** The prints still to be handed to the wall. *)
Definition pending_prints (c : Camera) : list string :=
  flat_map (fun t => match t with HandOff d => [d] | FlashOff => [] end)
           (timers c).

End CameraSection.

(** ** components/WorldMap.tsx *)
Module WorldMap.
Import JS Types.

Record Transform : Type := mkTransform {
  tx : Q;
  ty : Q;
  scale : Q
}.

(** [rendered] is the [transform] of the last render, which the wheel
    handler reads; [transform] has the updates issued since applied.
    [isDragging] changes in mouse-button handlers only, after which React
    renders before the next event is handled, so that [handleMouseMove]
    sees its current value; [lastMousePos] is a ref. *)
Record View : Type := mkView {
  rendered : Transform;
  transform : Transform;
  isDragging : bool;
  lastMousePos : Q * Q
}.

Definition initial : View :=
  mkView (mkTransform 0 0 1) (mkTransform 0 0 1) false (0%Q, 0%Q).

Definition handleWheel (deltaY : Q) (v : View) : View :=
  let zoomSensitivity := 0.001%Q in
  let delta := (- deltaY * zoomSensitivity)%Q in
  let newScale := Qmin (Qmax 1 (scale (rendered v) + delta)) 12 in
  mkView (rendered v)
         (mkTransform (tx (transform v)) (ty (transform v)) newScale)
         (isDragging v) (lastMousePos v).

Definition handleMouseDown (clientX clientY : Q) (v : View) : View :=
  mkView (rendered v) (transform v) true (clientX, clientY).

Definition handleMouseMove (clientX clientY : Q) (v : View) : View :=
  if negb (isDragging v) then v
  else
    let dx := (clientX - fst (lastMousePos v))%Q in
    let dy := (clientY - snd (lastMousePos v))%Q in
    mkView (rendered v)
           (mkTransform (tx (transform v) + dx) (ty (transform v) + dy)
                        (scale (transform v)))
           (isDragging v) (clientX, clientY).

Definition handleMouseUp (v : View) : View :=
  mkView (rendered v) (transform v) false (lastMousePos v).

(** [Math.min(p.scale + 1, 12)] and [Math.max(p.scale - 1, 1)]: the sum
    and the difference are rounded. *)
Definition zoomIn (v : View) : View :=
  mkView (rendered v)
         (mkTransform (tx (transform v)) (ty (transform v))
                      (Qmin (num_add (scale (transform v)) 1) 12))
         (isDragging v) (lastMousePos v).

Definition zoomOut (v : View) : View :=
  mkView (rendered v)
         (mkTransform (tx (transform v)) (ty (transform v))
                      (Qmax (num_sub (scale (transform v)) 1) 1))
         (isDragging v) (lastMousePos v).

Definition resetMap (v : View) : View :=
  mkView (rendered v) (mkTransform 0 0 1) (isDragging v) (lastMousePos v).

Definition render (v : View) : View :=
  mkView (transform v) (transform v) (isDragging v) (lastMousePos v).

Inductive Event : Type :=
| Wheel (deltaY : Q)
| MouseDown (clientX clientY : Q)
| MouseMove (clientX clientY : Q)
| MouseUp
| ZoomIn
| ZoomOut
| Reset
| Render.

Definition step (ev : Event) (v : View) : View :=
  match ev with
  | Wheel d => handleWheel d v
  | MouseDown cx cy => handleMouseDown cx cy v
  | MouseMove cx cy => handleMouseMove cx cy v
  | MouseUp => handleMouseUp v
  | ZoomIn => zoomIn v
  | ZoomOut => zoomOut v
  | Reset => resetMap v
  | Render => render v
  end.

Definition run (evs : list Event) (v : View) : View :=
  fold_left (fun acc ev => step ev acc) evs v.

(** Equirectangular projection, in percent of the map plane. *)
Definition getPos (lat lng : Q) : Q * Q :=
  ((lng + 180) * (100 / 360), (90 - lat) * (100 / 180))%Q.

(** Where the marker of a photo is drawn; [None] for [return null]. *)
Definition marker (photo : Photo) : option (Q * Q) :=
  match location photo with
  | Some l =>
      if truthy_number (Types.lat l) then Some (getPos (Types.lat l) (lng l))
      else None
  | None => None
  end.

(** The markers of the map, in the order of [photos]. *)
Definition markers (photos : list Photo) : list (string * (Q * Q)) :=
  flat_map (fun photo =>
              match marker photo with
              | Some pos => [(id photo, pos)]
              | None => []
              end)
           photos.

(** The travel line that ends at [curr], the photo after [prev]; [None] for
    [return null]. *)
Definition travel_line (prev curr : Photo) : option ((Q * Q) * (Q * Q)) :=
  match location curr, location prev with
  | Some c, Some p =>
      Some (getPos (Types.lat p) (lng p), getPos (Types.lat c) (lng c))
  | _, _ => None
  end.

(** The travel lines of the map, in the order of [photos]; the first photo
    ends no line. *)
Fixpoint travel_lines (photos : list Photo) : list ((Q * Q) * (Q * Q)) :=
  match photos with
  | [] => []
  | prev :: rest =>
      match rest with
      | [] => []
      | curr :: _ =>
          match travel_line prev curr with
          | Some line => [line]
          | None => []
          end ++ travel_lines rest
      end
  end.

End WorldMap.

(** ** Predicates used in the statements *)
Module Spec.
Import JS Types.

(** A location that [handleToggleShare] made up: within half a degree of
    (35.6762, 139.6503), labelled "Unknown". *)
Definition placeholder (l : Location) : Prop :=
  (35.1762 <= lat l /\ lat l < 36.1762)%Q /\
  (139.1503 <= lng l /\ lng l < 140.1503)%Q /\
  city l = Some "Unknown"%string /\
  country l = None.


(** An event that is neither the capture of a photo with id [id0] nor the
    settling of the caption call of such a photo. *)
Definition foreign (id0 : string) (ev : App.Event) : Prop :=
  match ev with
  | App.Capture p => id p <> id0
  | App.CaptionSettled t _ => t <> id0
  | _ => True
  end.

(** An event that does not delete the photo with id [id0]. *)
Definition keeps (id0 : string) (ev : App.Event) : Prop :=
  match ev with
  | App.Delete t => t <> id0
  | _ => True
  end.

(** What holds of a session of the wall all along: the photo's progress is
    at most 100 and, while mounted, the component's progress lies between
    the photo's and 100, with [progressRef] holding the rendered value. *)
Definition progress_ok (s : DraggablePolaroid.Session) : Prop :=
  (DraggablePolaroid.initial_progress (DraggablePolaroid.photo s) <= 100)%Q /\
  match DraggablePolaroid.component s with
  | Some c =>
      (DraggablePolaroid.initial_progress (DraggablePolaroid.photo s)
       <= DraggablePolaroid.developmentProgress c)%Q /\
      DraggablePolaroid.progressRef c = DraggablePolaroid.developmentProgress c /\
      (DraggablePolaroid.developmentProgress c <= DraggablePolaroid.queued c)%Q /\
      (DraggablePolaroid.queued c <= 100)%Q
  | None => True
  end.

(** The state the next render of a session shows. *)
Definition queued_progress (s : DraggablePolaroid.Session) : Q :=
  match DraggablePolaroid.component s with
  | Some c => DraggablePolaroid.queued c
  | None => DraggablePolaroid.initial_progress (DraggablePolaroid.photo s)
  end.

(** [JSON.stringify] and [JSON.parse] agree on a list: the text is not
    empty and parses back to the list. *)
Definition codec_ok (JSON_parse : string -> outcome (list Photo))
  (JSON_stringify : list Photo -> string) (l : list Photo) : Prop :=
  JSON_stringify l <> ""%string /\ JSON_parse (JSON_stringify l) = Returned l.

(** The shared pool and the user's photos as the storage service reads
    them. *)
Definition pool_of (JSON_parse : string -> outcome (list Photo))
  (localStorage : gmap string string) : list Photo :=
  match StorageService.getSharedPoolLocal JSON_parse localStorage with
  | Returned pool => pool
  | Thrown _ => []
  end.


(** The white space and line terminators of the language, in UTF-8. *)
Definition utf8 (bytes : list nat) : string :=
  string_of_list_ascii (map ascii_of_nat bytes).

Definition white_space : list string :=
  map utf8
    [ [9]; [10]; [11]; [12]; [13]; [32]; [194; 160]; [225; 154; 128];
      [226; 128; 128]; [226; 128; 129]; [226; 128; 130]; [226; 128; 131];
      [226; 128; 132]; [226; 128; 133]; [226; 128; 134]; [226; 128; 135];
      [226; 128; 136]; [226; 128; 137]; [226; 128; 138]; [226; 128; 168];
      [226; 128; 169]; [226; 128; 175]; [226; 129; 159]; [227; 128; 128];
      [239; 187; 191] ]%nat.

(** A text made of white space only. *)
Definition blank (t : string) : Prop :=
  exists ws, Forall (fun w => In w white_space) ws /\ t = String.concat "" ws.

(** A text without a comma. *)
Fixpoint comma_free (s : string) : bool :=
  match s with
  | EmptyString => true
  | String a s' => negb (Ascii.eqb a ","%char) && comma_free s'
  end.

(** Coordinates on the globe. *)
Definition on_globe (l : Location) : Prop :=
  (-90 <= lat l /\ lat l <= 90)%Q /\ (-180 <= lng l /\ lng l <= 180)%Q.

(** A position within the map plane, in percent. *)
Definition on_plane (pos : Q * Q) : Prop :=
  (0 <= fst pos /\ fst pos <= 100)%Q /\ (0 <= snd pos /\ snd pos <= 100)%Q.

(** A shutter event whose data URL is not empty, as [toDataURL] gives. *)
Definition real_shutter (ev : CameraSection.Event) : Prop :=
  match ev with
  | CameraSection.Shutter _ _ d => d <> ""%string
  | _ => True
  end.

(** An event that captures under an id the collection does not have yet is
    told by [fresh_run]: every [Capture] of the list brings a new id. *)
Fixpoint fresh_run (rnd : nat -> Q) (evs : list App.Event) (s : App.State)
  : Prop :=
  match evs with
  | [] => True
  | ev :: rest =>
      match ev with
      | App.Capture p => ~ In (id p) (map id (App.photos s))
      | _ => True
      end /\
      fresh_run rnd rest (App.step rnd ev s)
  end.

End Spec.

(** ** Sample data used to exercise the definitions *)
Module Samples.
Import JS Types.

Definition tokyo : Location :=
  mkLocation 35.6938 139.7035 (Some "Tokyo"%string) None.

Definition equator : Location :=
  mkLocation 0 (-78.4678) (Some "Quito"%string) None.

Definition private_photo : Photo :=
  mkPhoto "p1" "data:image/png;base64,AAAA" 1000 40 200 (-3)
          (Some ""%string) (Some true) (Some false) (Some 0%Q) None.

Definition located_photo : Photo :=
  mkPhoto "p2" "data:image/jpeg;base64,BBBB" 2000 10 20 1
          (Some "Hello"%string) (Some false) (Some false) (Some 40%Q)
          (Some tokyo).

Definition equator_photo : Photo :=
  mkPhoto "p3" "data:image/jpeg;base64,CCCC" 3000 5 6 2
          (Some "Middle of the world"%string) (Some false) (Some false)
          (Some 100%Q) (Some equator).

Definition wall : list Photo := [private_photo; located_photo; equator_photo].

(** A [Math.random] that always answers a quarter. *)
Definition quarter : nat -> Q := fun _ => 0.25%Q.

Definition desktop : App.CaptureEnv :=
  App.mkCaptureEnv "p9" 0.25 1280 800 5000.

(** A model that is down. *)
Definition model_down : GeminiService.Request -> outcome GeminiService.Response :=
  fun _ => Thrown "503".

(** A model that answers with a no-break space and an ideographic space. *)
Definition model_blank : GeminiService.Request -> outcome GeminiService.Response :=
  fun _ =>
    Returned
      (GeminiService.mkResponse
         (Some (Spec.utf8 [194; 160; 227; 128; 128]%nat)) None).

(** A browser that decodes every text to a 4 x 3 image, always hands out a
    drawing context and encodes a canvas to a data URL of the requested
    type. *)
Definition tiny_decode : string -> option StorageService.Image :=
  fun _ => Some (StorageService.mkImage 4 3).

Definition any_context : StorageService.Canvas -> bool := fun _ => true.

(** Two images: a PNG of 1078 x 1078 black pixels and a GIF of one pixel;
    and a browser that decodes these two. *)
Definition square_png : string :=
  "data:image/png;base64,iVBORw0KGgoAAAANSUhEUgAABDYAAAQ2AQAAAADgqADhAAAApUlEQVR42u3BMQEAAADCoPVPbQhfoAAAAAAAAAAAAAAAAAAAAAAAAAAAAAAAAAAAAAAAAAAAAAAAAAAAAAAAAAAAAAAAAAAAAAAAAAAAAAAAAAAAAAAAAAAAAAAAAAAAAAAAAAAAAAAAAAAAAAAAAAAAAAAAAAAAAAAAAAAAAAAAAAAAAAAAAAAAAAAAAAAAAAAAAAAAAAAAAAAAAAAAAAAAAAA+AzzOAAGUrD2uAAAAAElFTkSuQmCC".

Definition pixel_gif : string :=
  "data:image/gif;base64,R0lGODlhAQABAIAAAAAAAP///yH5BAEAAAAALAAAAAABAAEAAAIBRAA7".

Definition decode_known : string -> option StorageService.Image :=
  fun s =>
    if String.eqb s square_png then Some (StorageService.mkImage 1078 1078)
    else if String.eqb s pixel_gif then Some (StorageService.mkImage 1 1)
    else None.

Definition encode : StorageService.Canvas -> string -> Q -> string :=
  fun _ type _ => ("data:" ++ type ++ ";base64,/9j/4AAQ")%string.

(** A storage that never fills up. *)
Definition roomy : gmap string string -> bool := fun _ => true.

(** A stand-in for [JSON.stringify] and [JSON.parse] that agree on the
    list [l]. *)
Definition write_as (text : string) : list Photo -> string := fun _ => text.
Definition read_as (l : list Photo) : string -> outcome (list Photo) :=
  fun _ => Returned l.

Definition shared_photo : Photo :=
  mkPhoto "p4" "data:image/jpeg;base64,DDDD" 4000 7 8 (-1)
          (Some "Out there"%string) (Some false) (Some true) (Some 100%Q)
          (Some tokyo).




(** A model that answers with a text part and then an image. *)
Definition model_image : GeminiService.Request -> outcome GeminiService.Response :=
  fun _ =>
    Returned
      (GeminiService.mkResponse None
         (Some [GeminiService.mkCandidate
                  (Some (GeminiService.mkContent
                           (Some [GeminiService.mkPart None (Some "done"%string);
                                  GeminiService.mkPart (Some "iVBORw0KGgo="%string)
                                                       None])))])).



(** [JSON.parse] on a few texts: four JSON texts that are not arrays, the
    empty array, and two stand-ins for the texts of photo arrays; any other
    text is refused. *)
Definition parse_json : string -> outcome StorageService.Untyped.Parsed :=
  fun text =>
    if String.eqb text "null"
    then Returned (StorageService.Untyped.NotIterable
                     StorageService.Untyped.JNull)
    else if String.eqb text "42"
    then Returned (StorageService.Untyped.NotIterable
                     (StorageService.Untyped.JNumber 42))
    else if String.eqb text "{}"
    then Returned (StorageService.Untyped.NotIterable
                     StorageService.Untyped.JObject)
    else if String.eqb text "true"
    then Returned (StorageService.Untyped.NotIterable
                     (StorageService.Untyped.JBoolean true))
    else if String.eqb text "[]"
    then Returned (StorageService.Untyped.PhotoArray [])
    else if String.eqb text "[p2]"
    then Returned (StorageService.Untyped.PhotoArray [located_photo])
    else if String.eqb text "[p1,p4]"
    then Returned (StorageService.Untyped.PhotoArray
                     [private_photo; shared_photo])
    else Thrown "SyntaxError".

End Samples.

(** * Verification *)

Import JS Types.

(** ** Lists patched by id *)

Lemma patch_length (t : string) (f : Photo -> Photo) (l : list Photo) :
  List.length (App.patch t f l) = List.length l.
Proof. unfold App.patch. apply length_map. Qed.

Lemma patch_unknown (t : string) (f : Photo -> Photo) (l : list Photo) :
  ~ In t (map id l) -> App.patch t f l = l.
Proof.
  unfold App.patch. induction l as [|p l IH]; simpl; intros Hn.
  - reflexivity.
  - destruct (String.eqb (id p) t) eqn:E.
    + apply String.eqb_eq in E. exfalso. apply Hn. left. exact E.
    + f_equal. apply IH. intros Hin. apply Hn. right. exact Hin.
Qed.

Lemma patch_nth (t : string) (f : Photo -> Photo) (l : list Photo) (i : nat) :
  nth_error (App.patch t f l) i =
  option_map (fun p => if String.eqb (id p) t then f p else p) (nth_error l i).
Proof. unfold App.patch. apply nth_error_map. Qed.

Lemma patch_In (t : string) (f : Photo -> Photo) (l : list Photo) (q : Photo) :
  In q (App.patch t f l) <->
  exists p, In p l /\ q = if String.eqb (id p) t then f p else p.
Proof.
  unfold App.patch. rewrite in_map_iff. split.
  - intros (p & E & Hin). exists p. split; [exact Hin | symmetry; exact E].
  - intros (p & Hin & E). exists p. split; [symmetry; exact E | exact Hin].
Qed.

Lemma delete_unknown (t : string) (l : list Photo) :
  ~ In t (map id l) -> App.deletePhoto t l = l.
Proof.
  unfold App.deletePhoto. induction l as [|p l IH]; simpl; intros Hn.
  - reflexivity.
  - destruct (String.eqb (id p) t) eqn:E; simpl.
    + apply String.eqb_eq in E. exfalso. apply Hn. left. exact E.
    + f_equal. apply IH. intros Hin. apply Hn. right. exact Hin.
Qed.

Lemma toggle_unknown (rnd : nat -> Q) (t : string) (n : nat) (l : list Photo) :
  ~ In t (map id l) -> App.handleToggleShare rnd t n l = (l, [], n).
Proof.
  induction l as [|p l IH]; simpl; intros Hn.
  - reflexivity.
  - destruct (String.eqb (id p) t) eqn:E.
    + apply String.eqb_eq in E. exfalso. apply Hn. left. exact E.
    + rewrite IH; [reflexivity|]. intros Hin. apply Hn. right. exact Hin.
Qed.

(** C9.  An operation of the controller on an id that no photo of the
    active collection carries is a no-op: [updatePhotoPosition],
    [updatePhotoProgress], [deletePhoto], both updates of [handleEditPhoto]
    (whatever collection the callback closed over and whatever the style
    edit answers) and [handleToggleShare] return the collection as it was;
    the toggle fires no effect and draws no random number.  None of these
    operations has a throwing step, which the embedding shows by their being
    total functions. *)
Theorem unknown_id_is_noop
  (API_KEY : string)
  (generateContent : GeminiService.Request -> outcome GeminiService.Response)
  (rnd : nat -> Q) (target : string) (prev : list Photo) :
  ~ In target (map id prev) ->
  (forall x' y', App.updatePhotoPosition target x' y' prev = prev) /\
  (forall progress, App.updatePhotoProgress target progress prev = prev) /\
  App.deletePhoto target prev = prev /\
  (forall closed prompt,
      fst (App.handleEditPhoto API_KEY generateContent closed target prompt)
          prev = prev /\
      forall settle,
        snd (App.handleEditPhoto API_KEY generateContent closed target prompt)
          = Some settle ->
        settle prev = prev) /\
  (forall n, App.handleToggleShare rnd target n prev = (prev, [], n)).
Proof.
  intros Hn. repeat split.
  - intros. apply patch_unknown, Hn.
  - intros. apply patch_unknown, Hn.
  - apply delete_unknown, Hn.
  - simpl. apply patch_unknown, Hn.
  - intros settle. unfold App.handleEditPhoto. simpl.
    destruct (App.find_photo target closed) as [photo|]; [|discriminate].
    intros [= <-]. unfold App.edit_settled.
    destruct (GeminiService.editPhotoStyle _ _ _ _); [|reflexivity].
    apply patch_unknown, Hn.
  - intros. apply toggle_unknown, Hn.
Qed.

Lemma unknown_id_is_noop_witness :
  ~ In "nope"%string (map id Samples.wall) /\
  App.deletePhoto "nope" Samples.wall = Samples.wall /\
  App.handleToggleShare Samples.quarter "nope" 0 Samples.wall
    = (Samples.wall, [], 0%nat).
Proof.
  assert (H : ~ In "nope"%string (map id Samples.wall)).
  { simpl. intros [H|[H|[H|[]]]]; discriminate H. }
  pose proof (unknown_id_is_noop "key" Samples.model_down Samples.quarter
                "nope" Samples.wall H) as (_ & _ & Hd & _ & Ht).
  split; [exact H|]. split; [exact Hd | exact (Ht 0%nat)].
Defined.

(** ** The style-edit collaborator *)

Lemma editPhotoStyle_settles
  (API_KEY : string)
  (generateContent : GeminiService.Request -> outcome GeminiService.Response)
  (image prompt : string) :
  exists r,
    GeminiService.editPhotoStyle API_KEY generateContent image prompt
    = Returned r.
Proof.
  unfold GeminiService.editPhotoStyle.
  destruct (truthy_string API_KEY); simpl; [|eexists; reflexivity].
  destruct (generateContent _); simpl; eexists; reflexivity.
Qed.

Lemma editPhotoStyle_failure
  (API_KEY : string)
  (generateContent : GeminiService.Request -> outcome GeminiService.Response)
  (image prompt : string) :
  truthy_string API_KEY = false \/
  (exists e,
      generateContent
        (GeminiService.mkRequest "gemini-2.5-flash-image" "image/jpeg"
           (GeminiService.cleanBase64 image)
           (GeminiService.edit_prompt prompt)) = Thrown e) ->
  GeminiService.editPhotoStyle API_KEY generateContent image prompt
  = Returned None.
Proof.
  unfold GeminiService.editPhotoStyle. intros [Hk|(e & He)].
  - rewrite Hk. reflexivity.
  - destruct (truthy_string API_KEY); simpl; [|reflexivity].
    rewrite He. reflexivity.
Qed.

Lemma apply_edit_frame (r : option string) (p : Photo) :
  id (App.apply_edit r p) = id p /\
  timestamp (App.apply_edit r p) = timestamp p /\
  isGeneratingCaption (App.apply_edit r p) = Some false /\
  (r = None -> dataUrl (App.apply_edit r p) = dataUrl p).
Proof.
  unfold App.apply_edit.
  destruct r as [d|]; [destruct (truthy_string d)|]; simpl;
    repeat split; try reflexivity; intros H; discriminate H.
Qed.

(** C8.  Take the update that [handleEditPhoto] makes when the style edit
    settles, and any photo [p] of the collection it is applied to.  The
    photo at the same place afterwards has the id and the capture timestamp
    of [p] whatever the edit answered; a photo with another id is the very
    same photo; the target has its pending flag cleared; and when the edit
    answered null, which it does when no API key is set or the model call
    throws, the target keeps its [dataUrl]. *)
Theorem style_edit_frame
  (API_KEY : string)
  (generateContent : GeminiService.Request -> outcome GeminiService.Response)
  (closed : list Photo) (target prompt : string)
  (settle : list Photo -> list Photo) (prev : list Photo)
  (i : nat) (p : Photo) :
  snd (App.handleEditPhoto API_KEY generateContent closed target prompt)
    = Some settle ->
  nth_error prev i = Some p ->
  exists photo p',
    App.find_photo target closed = Some photo /\
    List.length (settle prev) = List.length prev /\
    nth_error (settle prev) i = Some p' /\
    id p' = id p /\
    timestamp p' = timestamp p /\
    (id p <> target -> p' = p) /\
    (id p = target -> isGeneratingCaption p' = Some false) /\
    (GeminiService.editPhotoStyle API_KEY generateContent (dataUrl photo)
       prompt = Returned None ->
     dataUrl p' = dataUrl p) /\
    (truthy_string API_KEY = false \/
     (exists e,
         generateContent
           (GeminiService.mkRequest "gemini-2.5-flash-image" "image/jpeg"
              (GeminiService.cleanBase64 (dataUrl photo))
              (GeminiService.edit_prompt prompt)) = Thrown e) ->
     dataUrl p' = dataUrl p).
Proof.
  unfold App.handleEditPhoto. simpl.
  destruct (App.find_photo target closed) as [photo|] eqn:Hfind;
    [|discriminate].
  intros [= <-] Hp.
  destruct (editPhotoStyle_settles API_KEY generateContent (dataUrl photo)
              prompt) as (r & Hr).
  assert (Hnone :
    GeminiService.editPhotoStyle API_KEY generateContent (dataUrl photo)
      prompt = Returned None ->
    dataUrl (if String.eqb (id p) target then App.apply_edit r p else p)
    = dataUrl p).
  { intros Hn. rewrite Hr in Hn. injection Hn as ->.
    destruct (String.eqb (id p) target); [|reflexivity].
    apply (apply_edit_frame None p). reflexivity. }
  exists photo, (if String.eqb (id p) target then App.apply_edit r p else p).
  rewrite Hr. unfold App.edit_settled.
  rewrite patch_length, patch_nth, Hp. simpl.
  destruct (apply_edit_frame r p) as (Hid & Hts & Hflag & _).
  repeat split; try reflexivity.
  - destruct (String.eqb (id p) target); [exact Hid | reflexivity].
  - destruct (String.eqb (id p) target); [exact Hts | reflexivity].
  - intros Hne. destruct (String.eqb (id p) target) eqn:E; [|reflexivity].
    apply String.eqb_eq in E. contradiction.
  - intros He. apply String.eqb_eq in He. rewrite He. exact Hflag.
  - rewrite <- Hr. exact Hnone.
  - intros Hfail. apply Hnone.
    apply editPhotoStyle_failure. exact Hfail.
Qed.

Lemma style_edit_frame_witness :
  exists settle p',
    snd (App.handleEditPhoto "key" Samples.model_down Samples.wall "p2"
           "sketch") = Some settle /\
    nth_error (settle Samples.wall) 1 = Some p' /\
    id p' = "p2"%string /\
    dataUrl p' = "data:image/jpeg;base64,BBBB"%string /\
    isGeneratingCaption p' = Some false.
Proof.
  eexists.
  destruct (style_edit_frame "key" Samples.model_down Samples.wall "p2"
              "sketch" _ Samples.wall 1 Samples.located_photo
              eq_refl eq_refl)
    as (photo & p' & _ & _ & Hnth & Hid & _ & _ & Hflag & _ & Hdata).
  exists p'. split; [reflexivity|]. split; [exact Hnth|].
  split; [exact Hid|]. split.
  - apply Hdata. right. exists "503"%string. reflexivity.
  - apply Hflag. reflexivity.
Defined.

(** ** Sharing *)

Lemma toggle_nth (rnd : nat -> Q) (t : string) (l : list Photo) :
  forall (n i : nat) (p : Photo),
    nth_error l i = Some p ->
    exists m,
      nth_error (fst (fst (App.handleToggleShare rnd t n l))) i =
      Some (if String.eqb (id p) t
            then fst (fst (App.toggle_photo rnd m p)) else p).
Proof.
  induction l as [|q l IH]; intros n i p Hp.
  - destruct i; discriminate Hp.
  - simpl.
    destruct (if String.eqb (id q) t then App.toggle_photo rnd n q
              else (q, [], n)) as [[q' fq] n1] eqn:Hq.
    destruct (App.handleToggleShare rnd t n1 l) as [[rest' fr] n2] eqn:Hr.
    destruct i as [|i]; cbn [nth_error fst] in *.
    + injection Hp as <-. exists n. revert Hq.
      destruct (String.eqb (id q) t); intros Hq;
        [unfold App.toggle_photo in Hq|]; injection Hq as <- _ _;
        reflexivity.
    + destruct (IH n1 i p Hp) as (m & Hm). exists m.
      rewrite Hr in Hm. exact Hm.
Qed.

Lemma toggle_length (rnd : nat -> Q) (t : string) (l : list Photo) :
  forall n,
    List.length (fst (fst (App.handleToggleShare rnd t n l))) = List.length l.
Proof.
  induction l as [|q l IH]; intros n; simpl; [reflexivity|].
  destruct (if String.eqb (id q) t then App.toggle_photo rnd n q
            else (q, [], n)) as [[q' fq] n1].
  specialize (IH n1).
  destruct (App.handleToggleShare rnd t n1 l) as [[rest' fr] n2].
  simpl in *. f_equal. exact IH.
Qed.

Lemma truthy_number_spec (q : Q) :
  truthy_number q = true <-> ~ (q == 0)%Q.
Proof.
  unfold truthy_number. rewrite negb_true_iff.
  destruct (Qeq_bool q 0) eqn:E.
  - apply Qeq_bool_eq in E. split; [discriminate | contradiction].
  - split; [|reflexivity]. intros _. apply Qeq_bool_neq. exact E.
Qed.

Lemma toggle_photo_public (rnd : nat -> Q) (m : nat) (p : Photo) :
  (forall k, (0 <= rnd k /\ rnd k < 1)%Q) ->
  truthy_flag (isPublic p) = false ->
  let p' := fst (fst (App.toggle_photo rnd m p)) in
  isPublic p' = Some true /\
  id p' = id p /\
  exists l,
    location p' = Some l /\
    ~ (lat l == 0)%Q /\
    ((location p = Some l /\ truthy_number (lat l) = true) \/
     (Spec.placeholder l /\
      (location p = None \/
       exists l0, location p = Some l0 /\ (lat l0 == 0)%Q))).
Proof.
  intros Hrnd Hpriv. unfold App.toggle_photo. rewrite Hpriv. simpl.
  split; [reflexivity|]. split; [reflexivity|].
  pose proof (Hrnd m) as [Hm0 Hm1]. pose proof (Hrnd (S m)) as [Hs0 Hs1].
  assert (Hplace :
    Spec.placeholder (mkLocation (35.6762 + (rnd m - 0.5)) (139.6503 + (rnd (S m) - 0.5))
                            (Some "Unknown"%string) None)).
  { unfold Spec.placeholder; simpl. repeat split; try reflexivity; lra. }
  destruct (location p) as [l0|] eqn:Hloc.
  - destruct (truthy_number (lat l0)) eqn:Hlat; simpl.
    + exists l0. split; [reflexivity|]. split.
      * apply truthy_number_spec. exact Hlat.
      * left. split; [reflexivity | exact Hlat].
    + eexists. split; [reflexivity|]. split.
      * simpl. lra.
      * right. split; [exact Hplace|]. right. exists l0.
        split; [reflexivity|].
        destruct (Qeq_dec (lat l0) 0) as [E|E]; [exact E|].
        apply truthy_number_spec in E. congruence.
  - eexists. split; [reflexivity|]. split.
    + simpl. lra.
    + right. split; [exact Hplace|]. left. reflexivity.
Qed.

(** C1.  Let [p] be a photo of the active collection that is not public,
    and let [handleToggleShare] be called on its id, [Math.random] answering
    in [0, 1).  The photo at the same place afterwards is public, and its
    location is present with a latitude that is not zero (and, a location
    being a record of two numbers, with a longitude): it is either the
    location [p] had, when that had a latitude the presence check accepts,
    or a placeholder within half a degree of (35.6762, 139.6503) labelled
    "Unknown", when [p] had no location or a latitude of zero. *)
Theorem share_sets_location
  (rnd : nat -> Q) (target : string) (n : nat) (prev : list Photo)
  (i : nat) (p : Photo) :
  (forall k, (0 <= rnd k /\ rnd k < 1)%Q) ->
  nth_error prev i = Some p ->
  id p = target ->
  truthy_flag (isPublic p) = false ->
  exists p' l,
    nth_error (fst (fst (App.handleToggleShare rnd target n prev))) i
      = Some p' /\
    id p' = id p /\
    isPublic p' = Some true /\
    location p' = Some l /\
    ~ (lat l == 0)%Q /\
    ((location p = Some l /\ truthy_number (lat l) = true) \/
     (Spec.placeholder l /\
      (location p = None \/
       exists l0, location p = Some l0 /\ (lat l0 == 0)%Q))).
Proof.
  intros Hrnd Hp Hid Hpriv.
  destruct (toggle_nth rnd target prev n i p Hp) as (m & Hm).
  apply String.eqb_eq in Hid. rewrite Hid in Hm.
  destruct (toggle_photo_public rnd m p Hrnd Hpriv)
    as (Hpub & Hsame & l & Hloc & Hlat & Hcase).
  exists (fst (fst (App.toggle_photo rnd m p))), l.
  repeat split; assumption.
Qed.

Lemma share_sets_location_witness :
  exists p' l,
    nth_error
      (fst (fst (App.handleToggleShare Samples.quarter "p1" 0 Samples.wall))) 0
      = Some p' /\
    isPublic p' = Some true /\
    location p' = Some l /\
    ~ (lat l == 0)%Q.
Proof.
  assert (Hrnd : forall k : nat,
             (0 <= Samples.quarter k /\ Samples.quarter k < 1)%Q).
  { intros k. unfold Samples.quarter. split; [discriminate | reflexivity]. }
  destruct (share_sets_location Samples.quarter "p1" 0 Samples.wall 0
              Samples.private_photo Hrnd eq_refl eq_refl eq_refl)
    as (p' & l & Hnth & _ & Hpub & Hloc & Hlat & _).
  exists p', l. repeat split; assumption.
Defined.

(** C10.  A photo that is not public and whose location has a latitude of
    exactly zero loses that location when it is shared: the presence check
    [!p.location.lat] reads the zero as missing, and the photo gets the
    placeholder near (35.68, 139.65) instead. *)
Theorem share_discards_equator_location
  (rnd : nat -> Q) (target : string) (n : nat) (prev : list Photo)
  (i : nat) (p : Photo) (l0 : Location) :
  (forall k, (0 <= rnd k /\ rnd k < 1)%Q) ->
  nth_error prev i = Some p ->
  id p = target ->
  truthy_flag (isPublic p) = false ->
  location p = Some l0 ->
  (lat l0 == 0)%Q ->
  exists p' l,
    nth_error (fst (fst (App.handleToggleShare rnd target n prev))) i
      = Some p' /\
    isPublic p' = Some true /\
    location p' = Some l /\
    Spec.placeholder l /\
    l <> l0.
Proof.
  intros Hrnd Hp Hid Hpriv Hloc0 Hzero.
  destruct (toggle_nth rnd target prev n i p Hp) as (m & Hm).
  apply String.eqb_eq in Hid. rewrite Hid in Hm.
  destruct (toggle_photo_public rnd m p Hrnd Hpriv)
    as (Hpub & _ & l & Hloc & Hlat & Hcase).
  assert (Hplace : Spec.placeholder l).
  { destruct Hcase as [[Hsame _]|[Hplace _]]; [|exact Hplace].
    rewrite Hloc0 in Hsame. injection Hsame as <-. contradiction. }
  exists (fst (fst (App.toggle_photo rnd m p))), l.
  split; [exact Hm|]. split; [exact Hpub|]. split; [exact Hloc|].
  split; [exact Hplace|].
  intros ->. contradiction.
Qed.

Lemma share_discards_equator_location_witness :
  exists p' l,
    nth_error
      (fst (fst (App.handleToggleShare Samples.quarter "p3" 0 Samples.wall))) 2
      = Some p' /\
    location p' = Some l /\
    Spec.placeholder l /\
    l <> Samples.equator.
Proof.
  assert (Hrnd : forall k : nat,
             (0 <= Samples.quarter k /\ Samples.quarter k < 1)%Q).
  { intros k. unfold Samples.quarter. split; [discriminate | reflexivity]. }
  destruct (share_discards_equator_location Samples.quarter "p3" 0
              Samples.wall 2 Samples.equator_photo Samples.equator
              Hrnd eq_refl eq_refl eq_refl eq_refl eq_refl)
    as (p' & l & Hnth & _ & Hloc & Hplace & Hne).
  exists p', l. repeat split; try assumption; apply Hplace.
Defined.

(** ** Capture and captioning *)

Lemma patch_kept (t : string) (f : Photo -> Photo) (l : list Photo) (q : Photo) :
  (forall p, id (f p) = id p /\ caption (f p) = caption p) ->
  In q (App.patch t f l) ->
  exists p, In p l /\ id p = id q /\ caption p = caption q.
Proof.
  intros Hf Hq. apply patch_In in Hq as (p & Hin & ->).
  exists p. split; [exact Hin|].
  destruct (String.eqb (id p) t); [|split; reflexivity].
  destruct (Hf p) as [H1 H2]. split; symmetry; assumption.
Qed.

Lemma patch_ids (t : string) (f : Photo -> Photo) (l : list Photo) :
  (forall p, id (f p) = id p) ->
  map id (App.patch t f l) = map id l.
Proof.
  intros Hf. unfold App.patch. rewrite map_map. apply map_ext.
  intros p. destruct (String.eqb (id p) t); [apply Hf | reflexivity].
Qed.

Lemma toggle_photo_kept (rnd : nat -> Q) (m : nat) (p : Photo) :
  id (fst (fst (App.toggle_photo rnd m p))) = id p /\
  caption (fst (fst (App.toggle_photo rnd m p))) = caption p.
Proof. split; reflexivity. Qed.

Lemma toggle_In (rnd : nat -> Q) (t : string) (n : nat) (l : list Photo)
  (q : Photo) :
  In q (fst (fst (App.handleToggleShare rnd t n l))) ->
  exists p, In p l /\ id p = id q /\ caption p = caption q.
Proof.
  intros Hq. apply In_nth_error in Hq as (i & Hi).
  assert (Hlt : (i < List.length l)%nat).
  { rewrite <- (toggle_length rnd t l n). apply nth_error_Some.
    rewrite Hi. discriminate. }
  destruct (nth_error l i) as [p|] eqn:Hp;
    [|apply nth_error_None in Hp; lia].
  destruct (toggle_nth rnd t l n i p Hp) as (m & Hm).
  rewrite Hi in Hm. injection Hm as ->.
  exists p. split; [eapply nth_error_In; exact Hp|].
  destruct (String.eqb (id p) t); [|split; reflexivity].
  destruct (toggle_photo_kept rnd m p) as [H1 H2].
  split; symmetry; assumption.
Qed.

Lemma toggle_ids (rnd : nat -> Q) (t : string) (l : list Photo) :
  forall n,
    map id (fst (fst (App.handleToggleShare rnd t n l))) = map id l.
Proof.
  induction l as [|q l IH]; intros n; simpl; [reflexivity|].
  destruct (if String.eqb (id q) t then App.toggle_photo rnd n q
            else (q, [], n)) as [[q' fq] n1] eqn:Hq.
  specialize (IH n1).
  destruct (App.handleToggleShare rnd t n1 l) as [[rest' fr] n2].
  simpl in *. f_equal; [|exact IH].
  destruct (String.eqb (id q) t);
    [unfold App.toggle_photo in Hq|]; injection Hq as <- _ _; reflexivity.
Qed.

Lemma step_caption_kept (rnd : nat -> Q) (id0 : string) (ev : App.Event)
  (s : App.State) (q : Photo) :
  Spec.foreign id0 ev ->
  In q (App.photos (App.step rnd ev s)) ->
  id q = id0 ->
  exists p, In p (App.photos s) /\ id p = id0 /\ caption p = caption q.
Proof.
  intros Hev Hq Hid.
  assert (Hgen : (exists p, In p (App.photos s) /\ id p = id q
                            /\ caption p = caption q) ->
                 exists p, In p (App.photos s) /\ id p = id0
                           /\ caption p = caption q).
  { intros (p & H1 & H2 & H3). exists p. repeat split; congruence. }
  destruct ev as [p|t r|t x' y'|t v|t|t|t r|t]; simpl in Hq, Hev.
  - unfold App.insert_photo in Hq. apply in_app_or in Hq as [Hq|[<-|[]]].
    + exists q. repeat split; assumption.
    + contradiction.
  - unfold App.caption_settled in Hq.
    assert (Hq' : In q (App.photos s)).
    { destruct r as [c|e]; apply patch_In in Hq as (p & Hin & ->);
        (destruct (String.eqb (id p) t) eqn:E;
         [apply String.eqb_eq in E; simpl in Hid; congruence | exact Hin]). }
    exists q. repeat split; assumption.
  - apply Hgen. eapply patch_kept; [|exact Hq]. intros; split; reflexivity.
  - apply Hgen. eapply patch_kept; [|exact Hq]. intros; split; reflexivity.
  - unfold App.deletePhoto in Hq. apply filter_In in Hq as [Hq _].
    exists q. repeat split; assumption.
  - apply Hgen. eapply patch_kept; [|exact Hq]. intros; split; reflexivity.
  - destruct r as [r|e]; simpl in Hq.
    + apply Hgen. eapply patch_kept; [|exact Hq].
      intros p. unfold App.apply_edit.
      destruct r as [d|]; [destruct (truthy_string d)|]; split; reflexivity.
    + exists q. repeat split; assumption.
  - apply Hgen.
    pose proof (toggle_In rnd t (App.randomCalls s) (App.photos s) q) as HT.
    destruct (App.handleToggleShare rnd t (App.randomCalls s) (App.photos s))
      as [[l' f'] n']. simpl in *. apply HT. exact Hq.
Qed.

Lemma step_present (rnd : nat -> Q) (id0 : string) (ev : App.Event)
  (s : App.State) :
  Spec.keeps id0 ev ->
  In id0 (map id (App.photos s)) ->
  In id0 (map id (App.photos (App.step rnd ev s))).
Proof.
  intros Hev Hin.
  destruct ev as [p|t r|t x' y'|t v|t|t|t r|t]; simpl in *.
  - unfold App.insert_photo. rewrite map_app. apply in_or_app. left. exact Hin.
  - unfold App.caption_settled.
    destruct r; rewrite patch_ids; try exact Hin; reflexivity.
  - unfold App.updatePhotoPosition. rewrite patch_ids; [exact Hin|reflexivity].
  - unfold App.updatePhotoProgress. rewrite patch_ids; [exact Hin|reflexivity].
  - apply in_map_iff in Hin as (p & Hp & Hin). apply in_map_iff.
    exists p. split; [exact Hp|]. unfold App.deletePhoto.
    apply filter_In. split; [exact Hin|].
    apply negb_true_iff. apply String.eqb_neq. congruence.
  - unfold App.edit_begin. rewrite patch_ids; [exact Hin|reflexivity].
  - destruct r as [r|e]; simpl; [|exact Hin].
    rewrite patch_ids; [exact Hin|].
    intros p. unfold App.apply_edit.
    destruct r as [d|]; [destruct (truthy_string d)|]; reflexivity.
  - pose proof (toggle_ids rnd t (App.photos s) (App.randomCalls s)) as HT.
    destruct (App.handleToggleShare rnd t (App.randomCalls s) (App.photos s))
      as [[l' f'] n']. simpl in *. rewrite HT. exact Hin.
Qed.

Lemma run_caption_kept (rnd : nat -> Q) (id0 : string) (c : option string)
  (evs : list App.Event) :
  forall s,
    Forall (Spec.foreign id0) evs ->
    (forall p, In p (App.photos s) -> id p = id0 -> caption p = c) ->
    forall q, In q (App.photos (App.run rnd evs s)) -> id q = id0 ->
              caption q = c.
Proof.
  induction evs as [|ev evs IH]; intros s Hevs Hs q Hq Hid.
  - apply Hs; assumption.
  - apply Forall_cons_iff in Hevs as [Hev Hevs'].
    unfold App.run in Hq. simpl in Hq.
    apply (IH (App.step rnd ev s) Hevs'); [|exact Hq|exact Hid].
    intros p Hp Hpid.
    destruct (step_caption_kept rnd id0 ev s p Hev Hp Hpid)
      as (p0 & Hin & Hid0 & Hcap).
    rewrite <- Hcap. apply Hs; assumption.
Qed.

Lemma run_present (rnd : nat -> Q) (id0 : string) (evs : list App.Event) :
  forall s,
    Forall (Spec.keeps id0) evs ->
    In id0 (map id (App.photos s)) ->
    In id0 (map id (App.photos (App.run rnd evs s))).
Proof.
  induction evs as [|ev evs IH]; intros s Hevs Hs.
  - exact Hs.
  - apply Forall_cons_iff in Hevs as [Hev Hevs'].
    unfold App.run. simpl. apply (IH (App.step rnd ev s) Hevs').
    apply step_present; assumption.
Qed.

Lemma trim_truthy_nonempty (t : string) :
  truthy_string t = true -> t <> ""%string.
Proof.
  unfold truthy_string. rewrite negb_true_iff. apply String.eqb_neq.
Qed.

(** The captioning service never rejects and never resolves with an empty
    text. *)
Lemma generatePhotoCaption_cases
  (API_KEY : string)
  (generateContent : GeminiService.Request -> outcome GeminiService.Response)
  (image : string) :
  exists c,
    GeminiService.generatePhotoCaption API_KEY generateContent image
    = Returned c /\
    c <> ""%string /\
    (truthy_string API_KEY = false -> c = "Memories captured..."%string) /\
    (truthy_string API_KEY = true ->
     match
       generateContent
         (GeminiService.mkRequest "gemini-2.5-flash" "image/jpeg"
            (GeminiService.cleanBase64 image) GeminiService.CAPTION_PROMPT)
     with
     | Thrown _ => c = "Snap!"%string
     | Returned response =>
         c = match GeminiService.response_text response with
             | Some t => if truthy_string (trim t) then trim t
                         else "A beautiful moment"%string
             | None => "A beautiful moment"%string
             end
     end).
Proof.
  unfold GeminiService.generatePhotoCaption.
  destruct (truthy_string API_KEY); simpl.
  - destruct (generateContent _) as [resp|e]; simpl.
    + eexists. split; [reflexivity|].
      split; [|split; [discriminate | reflexivity]].
      destruct (GeminiService.response_text resp) as [t|]; [|discriminate].
      destruct (truthy_string (trim t)) eqn:E; [|discriminate].
      apply trim_truthy_nonempty, E.
    + eexists. split; [reflexivity|].
      split; [discriminate|]. split; [discriminate | reflexivity].
  - eexists. split; [reflexivity|].
    split; [discriminate|]. split; [reflexivity | discriminate].
Qed.

(** C4, as the code has it.  Capture puts the new photo into the active
    collection at once, with the pending flag set, an empty caption and a
    development progress of 0.  Whatever the controller does before the
    caption call settles (anything but capturing under the same id or
    settling that same call), the caption of that photo stays empty.  The
    call always settles by resolving with a text that is not empty, and the
    second update of [handleCapture] then gives every photo carrying the
    new id that text as its caption and clears its pending flag: on a
    failure the text is the fallback of the service, "Memories
    captured..." without a key and "Snap!" when the model call throws.  The
    photo is still there unless it was deleted in between. *)
Theorem capture_caption_lifecycle
  (API_KEY : string)
  (generateContent : GeminiService.Request -> outcome GeminiService.Response)
  (rnd : nat -> Q) (env : App.CaptureEnv) (userLocation : option Location)
  (data : string) (s0 : App.State) (evs : list App.Event) :
  let p0 := App.newPhoto env userLocation data in
  let id0 := App.randomUUID env in
  let handler := App.handleCapture API_KEY generateContent env userLocation
                   data in
  let s1 := App.mkState (fst handler (App.photos s0)) (App.randomCalls s0)
              (App.fired s0) in
  let s2 := App.run rnd evs s1 in
  let settled := snd handler (App.photos s2) in
  ~ In id0 (map id (App.photos s0)) ->
  Forall (Spec.foreign id0) evs ->
  (In p0 (App.photos s1) /\
   id p0 = id0 /\
   caption p0 = Some ""%string /\
   isGeneratingCaption p0 = Some true /\
   developmentProgress p0 = Some 0%Q) /\
  (forall q, In q (App.photos s2) -> id q = id0 ->
             caption q = Some ""%string) /\
  (exists c,
      GeminiService.generatePhotoCaption API_KEY generateContent data
      = Returned c /\
      c <> ""%string /\
      (forall q, In q settled -> id q = id0 ->
                 isGeneratingCaption q = Some false /\ caption q = Some c) /\
      (truthy_string API_KEY = false -> c = "Memories captured..."%string) /\
      (truthy_string API_KEY = true ->
       (exists e,
           generateContent
             (GeminiService.mkRequest "gemini-2.5-flash" "image/jpeg"
                (GeminiService.cleanBase64 data) GeminiService.CAPTION_PROMPT)
           = Thrown e) ->
       c = "Snap!"%string)) /\
  (Forall (Spec.keeps id0) evs -> In id0 (map id settled)).
Proof.
  intros p0 id0 handler s1 s2 settled Hfresh Hevs.
  assert (Hin0 : In p0 (App.photos s1)).
  { subst s1 handler. cbn [App.handleCapture fst App.photos].
    unfold App.insert_photo. apply in_or_app. right. left. reflexivity. }
  assert (Hempty : forall q, In q (App.photos s2) -> id q = id0 ->
                             caption q = Some ""%string).
  { apply run_caption_kept; [exact Hevs|].
    intros p Hp Hid. subst s1 handler.
    cbn [App.handleCapture fst App.photos] in Hp.
    unfold App.insert_photo in Hp.
    apply in_app_or in Hp as [Hp|[<-|[]]]; [|reflexivity].
    exfalso. apply Hfresh. apply in_map_iff. exists p. split; assumption. }
  split; [repeat split; exact Hin0|]. split; [exact Hempty|].
  destruct (generatePhotoCaption_cases API_KEY generateContent data)
    as (c & Hc & Hne & Hnokey & Hkey).
  assert (Hsettled : settled = App.patch id0 (App.with_caption c false)
                                 (App.photos s2)).
  { subst settled handler. cbn [App.handleCapture snd]. rewrite Hc.
    reflexivity. }
  split.
  - exists c. split; [exact Hc|]. split; [exact Hne|]. split; [|split].
    + intros q Hq Hid. rewrite Hsettled in Hq.
      apply patch_In in Hq as (p & _ & ->).
      destruct (String.eqb (id p) id0) eqn:E; [split; reflexivity|].
      apply String.eqb_neq in E. contradiction.
    + exact Hnokey.
    + intros Hk (e & He). specialize (Hkey Hk). rewrite He in Hkey.
      exact Hkey.
  - intros Hkeep. rewrite Hsettled. rewrite patch_ids by reflexivity.
    apply run_present; [exact Hkeep|].
    apply in_map_iff. exists p0. split; [reflexivity | exact Hin0].
Qed.

Lemma capture_caption_lifecycle_witness :
  let handler := App.handleCapture "key" Samples.model_down Samples.desktop
                   (Some Samples.tokyo) "data:image/jpeg;base64,/9j/4AAQ" in
  let evs := [App.UpdatePosition "p9" 50 60; App.ToggleShare "p1";
              App.EditBegin "p9"] in
  let s1 := App.mkState (fst handler Samples.wall) 0 [] in
  let settled := snd handler (App.photos (App.run Samples.quarter evs s1)) in
  In "p9"%string (map id settled) /\
  forall q, In q settled -> id q = "p9"%string ->
            isGeneratingCaption q = Some false /\
            caption q = Some "Snap!"%string.
Proof.
  intros handler evs s1 settled.
  assert (Hfresh : ~ In (App.randomUUID Samples.desktop)
                        (map id Samples.wall)).
  { simpl. intros [H|[H|[H|[]]]]; discriminate H. }
  assert (Hevs : Forall (Spec.foreign (App.randomUUID Samples.desktop)) evs).
  { repeat constructor. }
  assert (Hkeep : Forall (Spec.keeps (App.randomUUID Samples.desktop)) evs).
  { repeat constructor. }
  destruct (capture_caption_lifecycle "key" Samples.model_down
              Samples.quarter Samples.desktop (Some Samples.tokyo)
              "data:image/jpeg;base64,/9j/4AAQ"
              (App.mkState Samples.wall 0 []) evs Hfresh Hevs)
    as (_ & _ & (c & _ & _ & Hsettled & _ & Hsnap) & Hpresent).
  split; [exact (Hpresent Hkeep)|].
  rewrite <- Hsnap; [exact Hsettled | reflexivity |].
  exists "503"%string. reflexivity.
Defined.

(** C4, as the claim has it, fails: when the model call fails (here with a
    key set and a model that throws) the caption is not left empty, the
    service answers "Snap!" and that becomes the caption. *)
Lemma capture_failure_is_captioned :
  let handler := App.handleCapture "key" Samples.model_down Samples.desktop
                   None "data:image/jpeg;base64,/9j/4AAQ" in
  exists q,
    In q (snd handler (fst handler Samples.wall)) /\
    id q = "p9"%string /\
    isGeneratingCaption q = Some false /\
    caption q = Some "Snap!"%string /\
    caption q <> Some ""%string.
Proof.
  intros handler.
  exists (App.with_caption "Snap!" false
            (App.newPhoto Samples.desktop None
               "data:image/jpeg;base64,/9j/4AAQ")).
  split; [|repeat split; discriminate].
  vm_compute. right. right. right. left. reflexivity.
Qed.

(** ** The insertion-ordered map *)

Lemma find_over_app {A : Type} (f : A -> bool) (l1 l2 : list A) :
  List.find f (l1 ++ l2) =
  match List.find f l1 with
  | Some a => Some a
  | None => List.find f l2
  end.
Proof.
  induction l1 as [|a l1 IH]; simpl; [reflexivity|].
  destruct (f a); [reflexivity | exact IH].
Qed.

Section MapFacts.
Context {V : Type}.
Implicit Types (m : Map.t V) (k : string) (v : V).

Lemma map_keys_set k v m :
  Map.keys (Map.set k v m) =
  if existsb (String.eqb k) (Map.keys m) then Map.keys m
  else Map.keys m ++ [k].
Proof.
  unfold Map.keys.
  induction m as [|[k' v'] m IH]; simpl; [reflexivity|].
  rewrite (String.eqb_sym k k').
  destruct (String.eqb k' k) eqn:E; simpl.
  - apply String.eqb_eq in E. rewrite E. reflexivity.
  - rewrite IH.
    destruct (existsb (String.eqb k) (map fst m)); reflexivity.
Qed.

Lemma map_keys_set_In k v m k' :
  In k' (Map.keys (Map.set k v m)) <-> k' = k \/ In k' (Map.keys m).
Proof.
  rewrite map_keys_set.
  destruct (existsb (String.eqb k) (Map.keys m)) eqn:E.
  - split; [intros H; right; exact H|]. intros [->|H]; [|exact H].
    apply existsb_exists in E as (k0 & Hin & Hk).
    apply String.eqb_eq in Hk. rewrite Hk. exact Hin.
  - rewrite in_app_iff. simpl. split.
    + intros [H|[H|[]]]; [right; exact H | left; symmetry; exact H].
    + intros [->|H]; [right; left; reflexivity | left; exact H].
Qed.

Lemma map_keys_set_NoDup k v m :
  List.NoDup (Map.keys m) -> List.NoDup (Map.keys (Map.set k v m)).
Proof.
  intros Hnd. rewrite map_keys_set.
  destruct (existsb (String.eqb k) (Map.keys m)) eqn:E; [exact Hnd|].
  apply List.NoDup_app; [exact Hnd | repeat constructor; intros [] |].
  intros k0 Hin [Hk|[]].
  assert (Hex : existsb (String.eqb k) (Map.keys m) = true).
  { apply existsb_exists. exists k0. split; [exact Hin|].
    apply String.eqb_eq. exact Hk. }
  congruence.
Qed.

Lemma map_get_set k v m k' :
  Map.get k' (Map.set k v m) =
  if String.eqb k k' then Some v else Map.get k' m.
Proof.
  induction m as [|[k0 v0] m IH]; simpl.
  - reflexivity.
  - destruct (String.eqb k0 k) eqn:E; simpl.
    + apply String.eqb_eq in E. subst k0.
      destruct (String.eqb k k'); reflexivity.
    + rewrite IH. destruct (String.eqb k k') eqn:E'; [|reflexivity].
      apply String.eqb_eq in E'. subst k'. rewrite E. reflexivity.
Qed.


Lemma map_set_all_keys (es : list (string * V)) :
  forall m k',
    In k' (Map.keys (Map.set_all es m)) <->
    In k' (map fst es) \/ In k' (Map.keys m).
Proof.
  unfold Map.set_all.
  induction es as [|[k v] es IH]; intros m k'; simpl.
  - split; [intros H; right; exact H | intros [[]|H]; exact H].
  - rewrite IH, map_keys_set_In. split.
    + intros [H|[H|H]]; [left; right; exact H | left; left; symmetry; exact H
                        | right; exact H].
    + intros [[H|H]|H]; [right; left; symmetry; exact H | left; exact H
                        | right; right; exact H].
Qed.

Lemma map_set_all_NoDup (es : list (string * V)) :
  forall m,
    List.NoDup (Map.keys m) -> List.NoDup (Map.keys (Map.set_all es m)).
Proof.
  unfold Map.set_all.
  induction es as [|[k v] es IH]; intros m Hnd; simpl; [exact Hnd|].
  apply IH. apply map_keys_set_NoDup. exact Hnd.
Qed.

Lemma map_set_all_get (es : list (string * V)) :
  forall m k',
    Map.get k' (Map.set_all es m) =
    match List.find (fun e => String.eqb (fst e) k') (rev es) with
    | Some e => Some (snd e)
    | None => Map.get k' m
    end.
Proof.
  unfold Map.set_all.
  induction es as [|[k v] es IH]; intros m k'; simpl; [reflexivity|].
  rewrite IH, find_over_app.
  destruct (List.find (fun e => String.eqb (fst e) k') (rev es));
    [reflexivity|].
  simpl. rewrite map_get_set. destruct (String.eqb k k'); reflexivity.
Qed.

Lemma map_set_all_pairs (P : string * V -> Prop) (es : list (string * V)) :
  forall m,
    Forall P es -> Forall P m -> Forall P (Map.set_all es m).
Proof.
  unfold Map.set_all.
  induction es as [|[k v] es IH]; intros m Hes Hm; simpl; [exact Hm|].
  apply Forall_cons_iff in Hes as [He Hes].
  apply IH; [exact Hes|].
  clear IH Hes. induction m as [|[k0 v0] m IHm]; simpl.
  - constructor; [exact He | constructor].
  - apply Forall_cons_iff in Hm as [H0 Hm].
    destruct (String.eqb k0 k); constructor; auto.
Qed.

End MapFacts.

(** ** The global gallery *)


Lemma entries_keyed (l : list Photo) :
  Forall (fun e : string * Photo => fst e = id (snd e))
         (map StorageService.entry l).
Proof. apply Forall_map. apply List.Forall_forall. intros; reflexivity. Qed.








Section StoreFacts.
Variable JSON_parse : string -> outcome (list Photo).
Variable loadTime : nat -> Q.

Lemma read_photos_cases (key : string) (localStorage : gmap string string) :
  StorageService.read_photos JSON_parse key localStorage =
  Returned
    match localStorage !! key with
    | None => []
    | Some stored =>
        if String.eqb stored "" then []
        else match JSON_parse stored with
             | Returned photos => photos
             | Thrown _ => []
             end
    end.
Proof.
  unfold StorageService.read_photos, truthy_string.
  destruct (localStorage !! key) as [stored|]; [|reflexivity].
  destruct (String.eqb stored ""); simpl; [reflexivity|].
  destruct (JSON_parse stored); reflexivity.
Qed.


End StoreFacts.



(** *** The readers without the typing of [JSON.parse] *)

Section UntypedFacts.
Variable JSON_parse : string -> outcome StorageService.Untyped.Parsed.
Variable loadTime : nat -> Q.

Lemma read_stored_cases (key : string) (localStorage : gmap string string) :
  StorageService.Untyped.read_stored JSON_parse key localStorage =
  Returned
    match localStorage !! key with
    | None => StorageService.Untyped.PhotoArray []
    | Some stored =>
        if String.eqb stored "" then StorageService.Untyped.PhotoArray []
        else match JSON_parse stored with
             | Returned v => v
             | Thrown _ => StorageService.Untyped.PhotoArray []
             end
    end.
Proof.
  unfold StorageService.Untyped.read_stored, truthy_string.
  destruct (localStorage !! key) as [stored|]; [|reflexivity].
  destruct (String.eqb stored ""); simpl; [reflexivity|].
  destruct (JSON_parse stored); reflexivity.
Qed.


End UntypedFacts.

Lemma untyped_set_photo (k : string) (v : Photo) (m : Map.t Photo) :
  StorageService.Untyped.map_set (Some k) (StorageService.Untyped.IsPhoto v)
    (map (fun e => (Some (fst e), StorageService.Untyped.IsPhoto (snd e))) m)
  = map (fun e => (Some (fst e), StorageService.Untyped.IsPhoto (snd e)))
        (Map.set k v m).
Proof.
  induction m as [|[k' v'] m IH]; [reflexivity|].
  cbn [map Map.set StorageService.Untyped.map_set
       StorageService.Untyped.key_eqb fst snd].
  destruct (String.eqb k' k); [reflexivity|].
  cbn [map fst snd]. rewrite IH. reflexivity.
Qed.

Lemma untyped_set_all_photos (l : list Photo) :
  forall m : Map.t Photo,
    StorageService.Untyped.map_set_all
      (map StorageService.Untyped.item_entry
         (map StorageService.Untyped.IsPhoto l))
      (map (fun e => (Some (fst e), StorageService.Untyped.IsPhoto (snd e)))
           m)
    = map (fun e => (Some (fst e), StorageService.Untyped.IsPhoto (snd e)))
          (Map.set_all (map StorageService.entry l) m).
Proof.
  induction l as [|p l IH]; intros m; [reflexivity|].
  unfold StorageService.Untyped.map_set_all, Map.set_all in *.
  cbn [map fold_left StorageService.Untyped.item_entry
       StorageService.Untyped.item_id StorageService.entry fst snd].
  rewrite untyped_set_photo. apply IH.
Qed.

(** Merging photo records in the map with [undefined] among its keys is
    the merge of the typed reading. *)
Lemma untyped_merge (remotePhotos userPublic : list Photo) :
  map snd
    (StorageService.Untyped.map_set_all
       (map StorageService.Untyped.item_entry
          (map StorageService.Untyped.IsPhoto userPublic))
       (StorageService.Untyped.map_set_all
          (map StorageService.Untyped.item_entry
             (map StorageService.Untyped.IsPhoto remotePhotos)) []))
  = map StorageService.Untyped.IsPhoto
        (StorageService.merge_gallery remotePhotos userPublic).
Proof.
  pose proof (untyped_set_all_photos remotePhotos []) as H1.
  cbn [map] in H1. rewrite H1, untyped_set_all_photos.
  unfold StorageService.merge_gallery, Map.values, Map.of_entries.
  rewrite !map_map. reflexivity.
Qed.

(** On a storage read with the typed [JSON.parse], the untyped gallery is
    the typed one. *)
Lemma typed_reading_agrees
  (parse : string -> outcome (list Photo)) (loadTime : nat -> Q)
  (db : StorageService.Database) (localStorage : gmap string string) :
  StorageService.Untyped.getGlobalGallery
    (StorageService.Untyped.of_typed parse) loadTime db localStorage
  = match StorageService.getGlobalGallery parse loadTime db localStorage with
    | Returned gallery =>
        Returned (map StorageService.Untyped.IsPhoto gallery)
    | Thrown e => Thrown e
    end.
Proof.
  assert (Hread : forall key,
    StorageService.Untyped.read_stored
      (StorageService.Untyped.of_typed parse) key localStorage
    = match StorageService.read_photos parse key localStorage with
      | Returned l => Returned (StorageService.Untyped.PhotoArray l)
      | Thrown e => Thrown e
      end).
  { intros key. rewrite read_stored_cases, read_photos_cases.
    unfold StorageService.Untyped.of_typed.
    destruct (localStorage !! key) as [text|]; [|reflexivity].
    destruct (String.eqb text ""); [reflexivity|].
    destruct (parse text); reflexivity. }
  unfold StorageService.Untyped.getGlobalGallery,
    StorageService.getGlobalGallery,
    StorageService.Untyped.remote_or_fallback,
    StorageService.remote_or_fallback,
    StorageService.Untyped.getSharedPoolLocal,
    StorageService.Untyped.getUserPhotos,
    StorageService.getSharedPoolLocal, StorageService.getUserPhotos.
  rewrite !Hread, !read_photos_cases.
  destruct (Nat.eqb (List.length (StorageService.fetch_remote db)) 0);
    cbn [bind StorageService.Untyped.spread
         StorageService.Untyped.filter_public];
    [rewrite <- map_app|]; rewrite untyped_merge; reflexivity.
Qed.




(** C7, as the code has it.  [getUserPhotos] never throws: it returns the
    empty list when the key is absent, when the stored text is empty and
    when [JSON.parse] throws on it, and otherwise the value [JSON.parse]
    yields, which is the stored list when the text is that of a list. *)
Theorem getUserPhotos_never_throws
  (JSON_parse : string -> outcome StorageService.Untyped.Parsed)
  (localStorage : gmap string string) :
  exists value,
    StorageService.Untyped.getUserPhotos JSON_parse localStorage
    = Returned value /\
    match localStorage !! StorageService.USER_STORAGE_KEY with
    | None => value = StorageService.Untyped.PhotoArray []
    | Some stored =>
        (stored = ""%string -> value = StorageService.Untyped.PhotoArray [])
        /\
        (forall e, JSON_parse stored = Thrown e ->
                   value = StorageService.Untyped.PhotoArray []) /\
        (forall parsed,
            stored <> ""%string ->
            JSON_parse stored = Returned parsed ->
            value = parsed) /\
        (forall photos,
            stored <> ""%string ->
            JSON_parse stored
            = Returned (StorageService.Untyped.PhotoArray photos) ->
            value = StorageService.Untyped.PhotoArray photos)
    end.
Proof.
  unfold StorageService.Untyped.getUserPhotos. rewrite read_stored_cases.
  eexists. split; [reflexivity|].
  destruct (localStorage !! StorageService.USER_STORAGE_KEY) as [stored|];
    [|reflexivity].
  destruct (String.eqb stored "") eqn:E.
  - apply String.eqb_eq in E. repeat split; try reflexivity;
      intros; contradiction.
  - apply String.eqb_neq in E. split; [intros; contradiction|].
    split; [intros e He; rewrite He; reflexivity|].
    split; intros v _ Hv; rewrite Hv; reflexivity.
Qed.

(** C7, as the claim has it, fails: with the text [null] stored, which is
    JSON but not a photo list, [getUserPhotos] returns [null], neither the
    stored list nor an empty list. *)
Lemma getUserPhotos_returns_null :
  let localStorage : gmap string string :=
    <[StorageService.USER_STORAGE_KEY := "null"%string]> ∅ in
  StorageService.Untyped.getUserPhotos Samples.parse_json localStorage
  = Returned (StorageService.Untyped.NotIterable StorageService.Untyped.JNull)
  /\
  ~ exists photos,
      StorageService.Untyped.getUserPhotos Samples.parse_json localStorage
      = Returned (StorageService.Untyped.PhotoArray photos).
Proof.
  intros localStorage. split; [reflexivity|].
  intros (photos & H). vm_compute in H. discriminate H.
Qed.

(** ** Rounding to binary64 *)

Lemma pow2_pos (k : Z) : (0 < 2 ^ k)%Q.
Proof. apply Qpower_0_lt. reflexivity. Qed.

Lemma pow2_whole (k : Z) : (0 <= k)%Z -> (2 ^ k == inject_Z (2 ^ k))%Q.
Proof. intros H. rewrite Zpower_Qpower by exact H. reflexivity. Qed.

Lemma pow2_minus (a b : Z) :
  (0 <= a)%Z -> (0 <= b)%Z ->
  (2 ^ (a - b) == inject_Z (2 ^ a) / inject_Z (2 ^ b))%Q.
Proof.
  intros Ha Hb. rewrite Qpower_minus by discriminate.
  rewrite !pow2_whole by assumption. reflexivity.
Qed.

Lemma frac_lt (n A B : Z) (d : positive) :
  (0 < B)%Z -> (n * B < A * Zpos d)%Z ->
  (n # d < inject_Z A / inject_Z B)%Q.
Proof.
  intros HB H. apply Qlt_shift_div_l.
  - unfold Qlt. simpl. lia.
  - unfold Qlt. simpl. lia.
Qed.

Lemma frac_le (n A B : Z) (d : positive) :
  (0 < B)%Z -> (A * Zpos d <= n * B)%Z ->
  (inject_Z A / inject_Z B <= n # d)%Q.
Proof.
  intros HB H. apply Qle_shift_div_r.
  - unfold Qlt. simpl. lia.
  - unfold Qle. simpl. lia.
Qed.

Lemma ilog2_spec (x : Q) :
  (0 < x)%Q -> (2 ^ ilog2 x <= x /\ x < 2 ^ (ilog2 x + 1))%Q.
Proof.
  intros Hx. destruct x as [n d].
  assert (Hn : (0 < n)%Z) by (unfold Qlt in Hx; simpl in Hx; lia).
  unfold ilog2. cbn [Qnum Qden].
  pose proof (Z.log2_spec n Hn) as [Ha1 Ha2].
  pose proof (Z.log2_spec (Zpos d) (Pos2Z.is_pos d)) as [Hb1 Hb2].
  pose proof (Z.log2_nonneg n) as Ha0.
  pose proof (Z.log2_nonneg (Zpos d)) as Hb0.
  set (a := Z.log2 n) in *. set (b := Z.log2 (Zpos d)) in *.
  assert (HA : (0 < 2 ^ a)%Z) by (apply Z.pow_pos_nonneg; lia).
  assert (HB : (0 < 2 ^ b)%Z) by (apply Z.pow_pos_nonneg; lia).
  assert (HB' : (0 < 2 ^ Z.succ b)%Z) by (apply Z.pow_pos_nonneg; lia).
  destruct (Qle_bool (2 ^ (a - b)) (n # d)) eqn:E.
  - apply Qle_bool_iff in E. split; [exact E|].
    replace (a - b + 1)%Z with (Z.succ a - b)%Z by lia.
    rewrite pow2_minus by lia. apply frac_lt; [exact HB|]. nia.
  - assert (E' : (n # d < 2 ^ (a - b))%Q).
    { apply Qnot_le_lt. intros H. apply Qle_bool_iff in H. congruence. }
    split.
    + replace (a - b - 1)%Z with (a - Z.succ b)%Z by lia.
      rewrite pow2_minus by lia. apply frac_le; [exact HB'|]. nia.
    + replace (a - b - 1 + 1)%Z with (a - b)%Z by lia. exact E'.
Qed.

Lemma round_half_even_spec (t : Q) :
  (t - (1 # 2) <= inject_Z (round_half_even t) /\
   inject_Z (round_half_even t) <= t + (1 # 2))%Q.
Proof.
  unfold round_half_even.
  pose proof (Qfloor_le t) as Hl. pose proof (Qlt_floor t) as Hu.
  set (f := Qfloor t) in *.
  assert (Hf1 : (inject_Z (f + 1) == inject_Z f + 1)%Q)
    by (rewrite inject_Z_plus; reflexivity).
  rewrite Hf1 in Hu.
  destruct (Qcompare (t - inject_Z f) (1 # 2)) eqn:E.
  - apply Qeq_alt in E. destruct (Z.even f); [|rewrite Hf1]; split; lra.
  - apply Qlt_alt in E. split; lra.
  - apply Qgt_alt in E. rewrite Hf1. split; lra.
Qed.

Lemma round_half_even_whole (t : Q) (k : Z) :
  (t == inject_Z k)%Q -> round_half_even t = k.
Proof.
  intros H. unfold round_half_even.
  assert (Hf : Qfloor t = k) by (rewrite H; apply Qfloor_Z).
  rewrite Hf.
  assert (E : Qcompare (t - inject_Z k) (1 # 2) = Lt).
  { assert (Hlt : (t - inject_Z k < 1 # 2)%Q) by lra.
    apply Qlt_alt in Hlt. exact Hlt. }
  rewrite E. reflexivity.
Qed.

(** Rounding a positive number moves it by at most 2^-53 of itself. *)
Lemma round_pos_error (x : Q) :
  (0 < x)%Q ->
  (x - x * (1 # 9007199254740992) <= round_pos x /\
   round_pos x <= x + x * (1 # 9007199254740992))%Q.
Proof.
  intros Hx. unfold round_pos.
  destruct (ilog2_spec x Hx) as [Hlo _].
  set (e := (ilog2 x - 52)%Z) in *.
  pose proof (pow2_pos e) as HP.
  assert (Hsplit : (2 ^ ilog2 x == 4503599627370496 * 2 ^ e)%Q).
  { replace (ilog2 x) with (52 + e)%Z by (unfold e; lia).
    rewrite Qpower_plus by discriminate. reflexivity. }
  rewrite Hsplit in Hlo.
  destruct (round_half_even_spec (x / 2 ^ e)) as [H1 H2].
  set (n := inject_Z (round_half_even (x / 2 ^ e))) in *.
  set (P := (2 ^ e)%Q) in *.
  assert (Ht : (x / P * P == x)%Q) by (field; lra).
  set (t := (x / P)%Q) in *.
  assert (H1' : (t * P - (1 # 2) * P <= n * P)%Q) by nra.
  assert (H2' : (n * P <= t * P + (1 # 2) * P)%Q) by nra.
  split; lra.
Qed.

Lemma round64_error (x : Q) :
  (0 <= x)%Q ->
  (x - x * (1 # 9007199254740992) <= round64 x /\
   round64 x <= x + x * (1 # 9007199254740992))%Q.
Proof.
  intros Hx. unfold round64. destruct x as [n d]. cbn [Qnum].
  destruct n as [|p|p].
  - assert (H0 : (0 # d == 0)%Q) by reflexivity. rewrite H0. split; lra.
  - apply round_pos_error. reflexivity.
  - exfalso. unfold Qle in Hx. simpl in Hx. lia.
Qed.

(** Whole numbers below 2^53 are binary64 values. *)
Lemma round64_whole (x : Q) (k : Z) :
  (x == inject_Z k)%Q -> (0 <= k < 2 ^ 53)%Z -> (round64 x == inject_Z k)%Q.
Proof.
  intros Hxk Hk. unfold round64. destruct x as [n d]. cbn [Qnum].
  destruct n as [|p|p].
  - rewrite <- Hxk. reflexivity.
  - assert (Hx : (0 < Z.pos p # d)%Q) by reflexivity.
    unfold round_pos.
    destruct (ilog2_spec _ Hx) as [Hlo _].
    set (x := (Z.pos p # d)%Q) in *.
    assert (He : (ilog2 x - 52 <= 0)%Z).
    { destruct (Z_le_gt_dec (ilog2 x) 52) as [H|H]; [lia|]. exfalso.
      assert (H53 : (2 ^ 53 <= 2 ^ ilog2 x)%Q).
      { apply Qpower_le_compat_l; [lia | discriminate]. }
      assert (Hk' : (inject_Z k < 2 ^ 53)%Q).
      { rewrite pow2_whole by lia. rewrite <- Zlt_Qlt. lia. }
      lra. }
    set (e := (ilog2 x - 52)%Z) in *.
    assert (HP : (2 ^ e == / inject_Z (2 ^ (- e)))%Q).
    { replace e with (- - e)%Z at 1 by lia. rewrite Qpower_opp.
      rewrite pow2_whole by lia. reflexivity. }
    assert (Hpos : (0 < inject_Z (2 ^ (- e)))%Q).
    { rewrite <- pow2_whole by lia. apply pow2_pos. }
    assert (Ht : (x / 2 ^ e == inject_Z (k * 2 ^ (- e)))%Q).
    { rewrite HP, Hxk, inject_Z_mult. field. lra. }
    rewrite (round_half_even_whole _ _ Ht).
    rewrite HP, inject_Z_mult. field. lra.
  - exfalso. assert (H : (Z.neg p # d < 0)%Q) by reflexivity.
    assert (H' : (0 <= inject_Z k)%Q) by (unfold Qle; simpl; lia). lra.
Qed.

(** ** Image compression *)

Lemma to_unsigned_long_of (n : N) :
  (n < 2 ^ 32)%N ->
  StorageService.to_unsigned_long (StorageService.of_unsigned_long n) = n.
Proof.
  intros Hn. unfold StorageService.to_unsigned_long,
    StorageService.of_unsigned_long. simpl.
  rewrite Z.quot_1_r, Z.mod_small; [apply N2Z.id|].
  split; [apply N2Z.is_nonneg|].
  change (2 ^ 32)%Z with (Z.of_N (2 ^ 32)). apply N2Z.inj_lt. exact Hn.
Qed.

Lemma to_unsigned_long_trunc (q : Q) :
  (0 <= q)%Q -> (q < 4294967296)%Q ->
  Z.of_N (StorageService.to_unsigned_long q) = Qfloor q.
Proof.
  intros H0 Hlt.
  assert (Hnum : (0 <= Qnum q)%Z).
  { destruct q as [a d]. unfold Qle in H0. simpl in *. lia. }
  assert (Hfl : Z.quot (Qnum q) (Z.pos (Qden q)) = Qfloor q).
  { destruct q as [a d]. simpl in *. apply Z.quot_div_nonneg; lia. }
  assert (Hlo : (0 <= Qfloor q)%Z).
  { rewrite <- Hfl. apply Z.quot_pos; lia. }
  assert (Hhi : (Qfloor q < 2 ^ 32)%Z).
  { pose proof (Qfloor_le q) as Hle.
    assert (H : (inject_Z (Qfloor q) < inject_Z (2 ^ 32))%Q).
    { change (inject_Z (2 ^ 32)) with 4294967296%Q. lra. }
    rewrite <- Zlt_Qlt in H. exact H. }
  unfold StorageService.to_unsigned_long. rewrite Hfl.
  rewrite Z.mod_small by lia. apply Z2N.id. exact Hlo.
Qed.

Lemma to_unsigned_long_whole (m : Z) :
  (0 <= m < 2 ^ 32)%Z ->
  StorageService.to_unsigned_long (inject_Z m) = Z.to_N m.
Proof.
  intros Hm. unfold StorageService.to_unsigned_long. simpl.
  rewrite Z.quot_1_r, Z.mod_small by lia. reflexivity.
Qed.

Lemma of_unsigned_long_nonneg (n : N) :
  (0 <= StorageService.of_unsigned_long n)%Q.
Proof.
  unfold StorageService.of_unsigned_long, Qle. simpl. lia.
Qed.

Lemma gt_spec (a b : Q) : gt a b = true <-> (b < a)%Q.
Proof.
  unfold gt. rewrite negb_true_iff. split.
  - intros H. apply Qnot_le_lt. intros Hle.
    apply Qle_bool_iff in Hle. congruence.
  - intros H. destruct (Qle_bool a b) eqn:E; [|reflexivity].
    apply Qle_bool_iff in E. lra.
Qed.

Lemma gt_false (a b : Q) : gt a b = false <-> (a <= b)%Q.
Proof.
  unfold gt. rewrite negb_false_iff. apply Qle_bool_iff.
Qed.

(** The side that is scaled down: [s] is the shorter side of the image, [L]
    the longer one, [m] the maximum.  The length computed is the exact
    proportional length up to the two roundings. *)
Lemma scaled_side (s L m : Q) :
  (0 <= s)%Q -> (s <= L)%Q -> (0 < L)%Q -> (0 < m)%Q ->
  (m <= 4294967295)%Q ->
  (0 <= num_mul s (num_div m L) /\
   s * m / L - (1 # 1000000) <= num_mul s (num_div m L) /\
   num_mul s (num_div m L) <= s * m / L + (1 # 1000000) /\
   s * m / L <= m)%Q.
Proof.
  intros Hs HsL HL Hm Hm32. unfold num_mul, num_div.
  assert (Hq : (0 < m / L)%Q).
  { apply Qlt_shift_div_l; lra. }
  set (q := (m / L)%Q) in *.
  assert (HqL : (q * L == m)%Q) by (unfold q; field; lra).
  destruct (round64_error q) as [Hr1 Hr2]; [lra|].
  set (r := round64 q) in *.
  assert (Hr0 : (0 <= r)%Q) by lra.
  assert (Hp0 : (0 <= s * r)%Q) by nra.
  destruct (round64_error (s * r) Hp0) as [Hc1 Hc2].
  set (c := round64 (s * r)) in *.
  assert (HE : (s * m / L == s * q)%Q) by (unfold q; field; lra).
  rewrite HE.
  assert (HEm : (s * q <= m)%Q) by nra.
  assert (HE0 : (0 <= s * q)%Q) by nra.
  assert (Hp1 : (s * q - s * q * (1 # 9007199254740992) <= s * r)%Q) by nra.
  assert (Hp2 : (s * r <= s * q + s * q * (1 # 9007199254740992))%Q) by nra.
  set (E := (s * q)%Q) in *. set (p := (s * r)%Q) in *.
  repeat split; lra.
Qed.

Lemma compress_undecodable
  (decodeImage : string -> option StorageService.Image)
  (getContext2d : StorageService.Canvas -> bool)
  (toDataURL : StorageService.Canvas -> string -> Q -> string)
  (base64Str : string) (maxWidth quality : Q) :
  decodeImage base64Str = None ->
  StorageService.compressImage decodeImage getContext2d toDataURL
    base64Str maxWidth quality = base64Str.
Proof.
  intros H. unfold StorageService.compressImage,
    StorageService.compress_canvas. rewrite H. reflexivity.
Qed.

(** Where a small image does pass unchanged: [saveUserPhotos] sends only
    payloads above its length threshold to the compression helper. *)
Lemma compress_large_skips_small
  (decodeImage : string -> option StorageService.Image)
  (getContext2d : StorageService.Canvas -> bool)
  (toDataURL : StorageService.Canvas -> string -> Q -> string)
  (photos : list Photo) :
  Forall (fun p => (N.of_nat (String.length (dataUrl p)) <= 500000)%N)
         photos ->
  StorageService.compress_large decodeImage getContext2d toDataURL photos
  = photos.
Proof.
  unfold StorageService.compress_large.
  induction photos as [|p l IH]; intros Hall; [reflexivity|].
  apply Forall_cons_iff in Hall as [Hp Hl]. cbn [map].
  apply N.ltb_ge in Hp. rewrite Hp. f_equal. apply IH, Hl.
Qed.

(** The canvas side that takes a scaled length: the whole part of it, at
    most the maximum and less than a pixel (and a millionth) away from the
    exact proportional length. *)
Lemma scaled_canvas_side (s L : N) (m : Z) :
  (s <= L)%N -> (0 < L)%N -> (0 < m < 2 ^ 32)%Z ->
  let exact :=
    (StorageService.of_unsigned_long s * inject_Z m
     / StorageService.of_unsigned_long L)%Q in
  let c :=
    StorageService.to_unsigned_long
      (num_mul (StorageService.of_unsigned_long s)
               (num_div (inject_Z m) (StorageService.of_unsigned_long L))) in
  (c <= Z.to_N m)%N /\
  (exact - 1 - (1 # 1000000) < inject_Z (Z.of_N c))%Q /\
  (inject_Z (Z.of_N c) <= exact + (1 # 1000000))%Q.
Proof.
  intros HsL HL Hm exact c.
  assert (Hs0 : (0 <= StorageService.of_unsigned_long s)%Q)
    by apply of_unsigned_long_nonneg.
  assert (HsLq : (StorageService.of_unsigned_long s
                  <= StorageService.of_unsigned_long L)%Q).
  { unfold StorageService.of_unsigned_long. rewrite <- Zle_Qle. lia. }
  assert (HL0 : (0 < StorageService.of_unsigned_long L)%Q).
  { unfold StorageService.of_unsigned_long, Qlt. simpl. lia. }
  assert (Hm0 : (0 < inject_Z m)%Q) by (unfold Qlt; simpl; lia).
  assert (Hm32 : (inject_Z m <= 4294967295)%Q).
  { change 4294967295%Q with (inject_Z 4294967295). rewrite <- Zle_Qle. lia. }
  destruct (scaled_side _ _ _ Hs0 HsLq HL0 Hm0 Hm32)
    as (Hc0 & Hlo & Hhi & Hexact).
  fold exact in Hlo, Hhi, Hexact.
  set (v := num_mul (StorageService.of_unsigned_long s)
              (num_div (inject_Z m) (StorageService.of_unsigned_long L)))
    in *.
  assert (Hfloor : Z.of_N c = Qfloor v).
  { apply to_unsigned_long_trunc; [exact Hc0 | lra]. }
  pose proof (Qfloor_le v) as Hf1. pose proof (Qlt_floor v) as Hf2.
  rewrite inject_Z_plus in Hf2. rewrite <- Hfloor in Hf1, Hf2.
  change (inject_Z 1) with 1%Q in Hf2.
  split; [|split; lra].
  assert (Hlt : (inject_Z (Z.of_N c) < inject_Z (m + 1))%Q).
  { rewrite inject_Z_plus. change (inject_Z 1) with 1%Q. lra. }
  rewrite <- Zlt_Qlt in Hlt. lia.
Qed.

(** The branches of the resizing arithmetic, on whole sides. *)
Lemma scaled_size_cases (iw ih : N) (m : Z) :
  (0 < m)%Z ->
  let w := StorageService.of_unsigned_long iw in
  let h := StorageService.of_unsigned_long ih in
  StorageService.scaled_size w h (inject_Z m) =
  if (ih <? iw)%N
  then if (Z.to_N m <? iw)%N
       then (inject_Z m, num_mul h (num_div (inject_Z m) w))
       else (w, h)
  else if (Z.to_N m <? ih)%N
       then (num_mul w (num_div (inject_Z m) h), inject_Z m)
       else (w, h).
Proof.
  intros Hm w h.
  assert (Hgt : gt w h = (ih <? iw)%N).
  { unfold w, h, StorageService.of_unsigned_long.
    destruct (ih <? iw)%N eqn:E.
    - apply gt_spec. rewrite <- Zlt_Qlt. apply N.ltb_lt in E. lia.
    - apply gt_false. rewrite <- Zle_Qle. apply N.ltb_ge in E. lia. }
  assert (Hgtm : forall a : N,
             gt (StorageService.of_unsigned_long a) (inject_Z m)
             = (Z.to_N m <? a)%N).
  { intros a. unfold StorageService.of_unsigned_long.
    destruct (Z.to_N m <? a)%N eqn:E.
    - apply gt_spec. rewrite <- Zlt_Qlt. apply N.ltb_lt in E. lia.
    - apply gt_false. rewrite <- Zle_Qle. apply N.ltb_ge in E. lia. }
  unfold StorageService.scaled_size. rewrite Hgt.
  rewrite (Hgtm iw : gt w (inject_Z m) = _).
  rewrite (Hgtm ih : gt h (inject_Z m) = _). reflexivity.
Qed.

(** C5, as the code has it.  An image the browser cannot decode comes back
    as it is.  For an image it decodes (sides below 2^32), with a whole
    maximum below 2^32, the promise resolves with the canvas re-encoded as
    JPEG at the given quality, or with the input when no drawing context is
    available.  The canvas has the image's own size when the longer side of
    the image is within the maximum.  Otherwise its longer side is exactly
    the maximum, and the other side is the whole part of the proportional
    length as binary64 arithmetic computes it: at most the maximum, and less
    than a pixel and a millionth away from shorter x maximum / longer. *)
Theorem compress_clamps_longer_side
  (decodeImage : string -> option StorageService.Image)
  (getContext2d : StorageService.Canvas -> bool)
  (toDataURL : StorageService.Canvas -> string -> Q -> string)
  (base64Str : string) (m : Z) (quality : Q) :
  (0 < m < 2 ^ 32)%Z ->
  (decodeImage base64Str = None ->
   StorageService.compressImage decodeImage getContext2d toDataURL
     base64Str (inject_Z m) quality = base64Str) /\
  (forall img,
      decodeImage base64Str = Some img ->
      (StorageService.img_width img < 2 ^ 32)%N ->
      (StorageService.img_height img < 2 ^ 32)%N ->
      let iw := StorageService.img_width img in
      let ih := StorageService.img_height img in
      let w := StorageService.of_unsigned_long iw in
      let h := StorageService.of_unsigned_long ih in
      exists width height,
        StorageService.scaled_size w h (inject_Z m) = (width, height) /\
        let cw := StorageService.to_unsigned_long width in
        let ch := StorageService.to_unsigned_long height in
        StorageService.compressImage decodeImage getContext2d toDataURL
          base64Str (inject_Z m) quality =
        (if getContext2d (StorageService.mkCanvas cw ch None)
         then toDataURL
                (StorageService.mkCanvas cw ch
                   (Some (base64Str, width, height)))
                "image/jpeg" quality
         else base64Str) /\
        ((N.max iw ih <= Z.to_N m)%N ->
         width = w /\ height = h /\ cw = iw /\ ch = ih) /\
        ((Z.to_N m < N.max iw ih)%N ->
         N.max cw ch = Z.to_N m /\
         ((ih < iw)%N ->
          cw = Z.to_N m /\
          (h * inject_Z m / w - 1 - (1 # 1000000) < inject_Z (Z.of_N ch)
           /\ inject_Z (Z.of_N ch) <= h * inject_Z m / w + (1 # 1000000))%Q)
         /\
         ((iw <= ih)%N ->
          ch = Z.to_N m /\
          (w * inject_Z m / h - 1 - (1 # 1000000) < inject_Z (Z.of_N cw)
           /\ inject_Z (Z.of_N cw) <= w * inject_Z m / h + (1 # 1000000))%Q))).
Proof.
  intros Hm. split; [apply compress_undecodable|].
  intros img Hdec Hiw Hih iw ih w h.
  assert (Hself : StorageService.to_unsigned_long (inject_Z m) = Z.to_N m)
    by (apply to_unsigned_long_whole; lia).
  assert (Hout : forall width height,
             StorageService.scaled_size w h (inject_Z m) = (width, height) ->
             StorageService.compressImage decodeImage getContext2d toDataURL
               base64Str (inject_Z m) quality =
             (if getContext2d
                   (StorageService.mkCanvas
                      (StorageService.to_unsigned_long width)
                      (StorageService.to_unsigned_long height) None)
              then toDataURL
                     (StorageService.mkCanvas
                        (StorageService.to_unsigned_long width)
                        (StorageService.to_unsigned_long height)
                        (Some (base64Str, width, height)))
                     "image/jpeg" quality
              else base64Str)).
  { intros width height Hsize.
    unfold StorageService.compressImage, StorageService.compress_canvas.
    rewrite Hdec. fold iw ih w h. rewrite Hsize. simpl.
    destruct (getContext2d _); reflexivity. }
  assert (Hm0 : (0 < m)%Z) by lia.
  pose proof (scaled_size_cases iw ih m Hm0) as Hsize. cbv zeta in Hsize. fold w h in Hsize.
  destruct (ih <? iw)%N eqn:Ewh.
  - apply N.ltb_lt in Ewh.
    destruct (Z.to_N m <? iw)%N eqn:Ewm.
    + apply N.ltb_lt in Ewm. eexists _, _. split; [exact Hsize|].
      split; [apply Hout; exact Hsize|].
      split; [intros Hle; lia|]. intros _.
      destruct (scaled_canvas_side ih iw m) as (Hc & Hlo & Hhi); [lia..|].
      fold w h in Hc, Hlo, Hhi. rewrite Hself.
      split; [apply N.max_l; exact Hc|].
      split; [intros _; split; [reflexivity | split; assumption]|].
      intros Hle. lia.
    + apply N.ltb_ge in Ewm. eexists _, _. split; [exact Hsize|].
      split; [apply Hout; exact Hsize|].
      split; [|intros Hlt; lia]. intros _.
      repeat split; try reflexivity; apply to_unsigned_long_of; assumption.
  - apply N.ltb_ge in Ewh.
    destruct (Z.to_N m <? ih)%N eqn:Ehm.
    + apply N.ltb_lt in Ehm. eexists _, _. split; [exact Hsize|].
      split; [apply Hout; exact Hsize|].
      split; [intros Hle; lia|]. intros _.
      destruct (scaled_canvas_side iw ih m) as (Hc & Hlo & Hhi); [lia..|].
      fold w h in Hc, Hlo, Hhi. rewrite Hself.
      split; [apply N.max_r; exact Hc|].
      split; [intros Hlt; lia|].
      intros _. split; [reflexivity | split; assumption].
    + apply N.ltb_ge in Ehm. eexists _, _. split; [exact Hsize|].
      split; [apply Hout; exact Hsize|].
      split; [|intros Hlt; lia]. intros _.
      repeat split; try reflexivity; apply to_unsigned_long_of; assumption.
Qed.

Lemma compress_clamps_longer_side_witness :
  exists width height,
    StorageService.scaled_size 1078 1078 800 = (width, height) /\
    StorageService.to_unsigned_long width = 799%N /\
    StorageService.to_unsigned_long height = 800%N /\
    StorageService.compressImage Samples.decode_known Samples.any_context
      Samples.encode Samples.square_png 800 0.6
    = "data:image/jpeg;base64,/9j/4AAQ"%string.
Proof.
  destruct (compress_clamps_longer_side Samples.decode_known
              Samples.any_context Samples.encode Samples.square_png 800 0.6)
    as [_ H]; [lia|].
  destruct (H (StorageService.mkImage 1078 1078) eq_refl)
    as (width & height & Hsize & Hres & _ & Hbig);
    [reflexivity | reflexivity |].
  destruct Hbig as (_ & _ & Hsquare); [reflexivity|].
  destruct Hsquare as (Hch & _); [discriminate|].
  exists width, height. split; [exact Hsize|].
  split; [|split; [exact Hch | exact Hres]].
  vm_compute in Hsize. injection Hsize as <- _. reflexivity.
Defined.

(** C5, as the claim has it, fails: an image already within the maximum is
    not handed back unchanged.  The GIF of one pixel is drawn on a canvas of
    one pixel and comes back as what the canvas encodes, a JPEG data URL. *)
Lemma compress_small_image_is_reencoded :
  ~ (forall (decodeImage : string -> option StorageService.Image)
            (getContext2d : StorageService.Canvas -> bool)
            (toDataURL : StorageService.Canvas -> string -> Q -> string)
            (base64Str : string) (maxWidth quality : Q)
            (img : StorageService.Image),
        decodeImage base64Str = Some img ->
        (Qmax (StorageService.of_unsigned_long (StorageService.img_width img))
              (StorageService.of_unsigned_long (StorageService.img_height img))
         <= maxWidth)%Q ->
        StorageService.compressImage decodeImage getContext2d toDataURL
          base64Str maxWidth quality = base64Str).
Proof.
  intros H.
  specialize (H Samples.decode_known Samples.any_context Samples.encode
                Samples.pixel_gif 800%Q 0.6%Q
                (StorageService.mkImage 1 1) eq_refl).
  assert (Hle : (Qmax (StorageService.of_unsigned_long 1)
                      (StorageService.of_unsigned_long 1) <= 800)%Q).
  { vm_compute. discriminate. }
  specialize (H Hle). vm_compute in H. discriminate H.
Qed.

(** ** Development progress *)

Lemma initial_progress_value (p : Photo) (v : Q) :
  Types.developmentProgress p = Some v ->
  (DraggablePolaroid.initial_progress p == v)%Q.
Proof.
  unfold DraggablePolaroid.initial_progress. intros ->.
  destruct (truthy_number v) eqn:E; [reflexivity|].
  unfold truthy_number in E. apply negb_false_iff in E.
  apply Qeq_bool_eq in E. symmetry. exact E.
Qed.

Lemma min_step (q k : Q) :
  (0 < k)%Q -> (q <= 100)%Q ->
  (q <= Qmin (q + k) 100 /\ Qmin (q + k) 100 <= 100)%Q.
Proof.
  intros Hk Hq. split; [|apply Q.le_min_r].
  apply Q.min_glb; lra.
Qed.

Lemma step_progress (ev : DraggablePolaroid.Event)
  (s : DraggablePolaroid.Session) :
  Spec.progress_ok s ->
  Spec.progress_ok (DraggablePolaroid.step ev s) /\
  (DraggablePolaroid.initial_progress (DraggablePolaroid.photo s) <=
   DraggablePolaroid.initial_progress
     (DraggablePolaroid.photo (DraggablePolaroid.step ev s)))%Q /\
  (DraggablePolaroid.shown_progress s <=
   DraggablePolaroid.shown_progress (DraggablePolaroid.step ev s))%Q /\
  (DraggablePolaroid.component s <> None ->
   DraggablePolaroid.component (DraggablePolaroid.step ev s) <> None ->
   Spec.queued_progress s <=
   Spec.queued_progress (DraggablePolaroid.step ev s))%Q.
Proof.
  unfold Spec.progress_ok, DraggablePolaroid.shown_progress,
    Spec.queued_progress.
  destruct s as [p [c|]]; simpl; intros [Hp Hc].
  - destruct Hc as (Hlo & Href & Hq & Hhi).
    destruct ev; simpl.
    + repeat split; try assumption; lra.
    + pose proof (initial_progress_value
                    (App.with_progress (DraggablePolaroid.progressRef c) p)
                    (DraggablePolaroid.progressRef c) eq_refl) as Hv.
      rewrite Href in *.
      repeat split; try lra. intros _ H. contradiction.
    + destruct (min_step (DraggablePolaroid.queued c) 0.5) as [H1 H2];
        [reflexivity | exact Hhi |].
      repeat split; try assumption; lra.
    + repeat split; try assumption; lra.
    + repeat split; try assumption; lra.
    + unfold DraggablePolaroid.handleMove.
      destruct (negb (DraggablePolaroid.isDragging c)); simpl;
        [repeat split; try assumption; lra|].
      destruct (min_step (DraggablePolaroid.queued c) 2) as [H1 H2];
        [reflexivity | exact Hhi |].
      destruct (gt _ 15 && lt (DraggablePolaroid.developmentProgress c) 100);
        repeat split; try assumption; lra.
    + repeat split; try assumption; lra.
  - destruct ev; simpl; repeat split; try assumption; try lra;
      try (intros H; contradiction).
Qed.

Lemma run_progress (evs : list DraggablePolaroid.Event) :
  forall s,
    Spec.progress_ok s ->
    Spec.progress_ok (DraggablePolaroid.run evs s) /\
    (DraggablePolaroid.initial_progress (DraggablePolaroid.photo s) <=
     DraggablePolaroid.initial_progress
       (DraggablePolaroid.photo (DraggablePolaroid.run evs s)))%Q /\
    (DraggablePolaroid.shown_progress s <=
     DraggablePolaroid.shown_progress (DraggablePolaroid.run evs s))%Q.
Proof.
  induction evs as [|ev evs IH]; intros s Hs.
  - split; [exact Hs|]. split; apply Qle_refl.
  - destruct (step_progress ev s Hs) as (Hs' & Hp & Hsh & _).
    destruct (IH _ Hs') as (Hok & Hp' & Hsh').
    unfold DraggablePolaroid.run in *. simpl.
    split; [exact Hok|]. split; eapply Qle_trans; eassumption.
Qed.

Lemma progress_ok_shown (s : DraggablePolaroid.Session) :
  Spec.progress_ok s -> (DraggablePolaroid.shown_progress s <= 100)%Q.
Proof.
  unfold Spec.progress_ok, DraggablePolaroid.shown_progress.
  destruct (DraggablePolaroid.component s) as [c|]; [|tauto].
  intros (_ & _ & _ & H1 & H2). lra.
Qed.

(** C3.  Start from a photo whose progress is at most 100 (0 for every
    captured photo) and let the wall mount and unmount it, the timer tick,
    renders happen and drags move it, in any order.  Between any two moments
    the photo's [developmentProgress] (read as the component reads it) does
    not decrease, nor does the progress shown, and neither exceeds 100.  At
    any moment a tick turns the component's state [q] into
    [min (q + 0.5) 100] and a move leaves it or turns it into
    [min (q + 2) 100], neither lowering it; and unmounting writes the
    component's rendered value back into the photo. *)
Theorem progress_never_decreases
  (p : Photo) (before after : list DraggablePolaroid.Event) :
  (DraggablePolaroid.initial_progress p <= 100)%Q ->
  let s1 := DraggablePolaroid.run before (DraggablePolaroid.mkSession p None) in
  let s2 := DraggablePolaroid.run after s1 in
  (DraggablePolaroid.initial_progress (DraggablePolaroid.photo s1) <=
   DraggablePolaroid.initial_progress (DraggablePolaroid.photo s2) /\
   DraggablePolaroid.initial_progress (DraggablePolaroid.photo s2) <= 100)%Q /\
  (DraggablePolaroid.shown_progress s1 <= DraggablePolaroid.shown_progress s2 /\
   DraggablePolaroid.shown_progress s2 <= 100)%Q /\
  (forall c,
      DraggablePolaroid.component s2 = Some c ->
      (DraggablePolaroid.queued c <= 100)%Q /\
      (DraggablePolaroid.queued (DraggablePolaroid.tick c)
       = Qmin (DraggablePolaroid.queued c + 0.5) 100 /\
       DraggablePolaroid.queued c
       <= DraggablePolaroid.queued (DraggablePolaroid.tick c))%Q /\
      (forall cx cy,
          (DraggablePolaroid.queued (DraggablePolaroid.handleMove cx cy c)
           = DraggablePolaroid.queued c \/
           DraggablePolaroid.queued (DraggablePolaroid.handleMove cx cy c)
           = Qmin (DraggablePolaroid.queued c + 2) 100) /\
          (DraggablePolaroid.queued c
           <= DraggablePolaroid.queued (DraggablePolaroid.handleMove cx cy c))%Q) /\
      Types.developmentProgress
        (DraggablePolaroid.photo
           (DraggablePolaroid.step DraggablePolaroid.Unmount s2))
      = Some (DraggablePolaroid.developmentProgress c)).
Proof.
  intros Hp s1 s2.
  assert (H0 : Spec.progress_ok (DraggablePolaroid.mkSession p None)).
  { split; [exact Hp | exact I]. }
  destruct (run_progress before _ H0) as (H1 & _ & _).
  fold s1 in H1.
  destruct (run_progress after s1 H1) as (H2 & Hphoto & Hshown).
  fold s2 in H2, Hphoto, Hshown.
  split; [split; [exact Hphoto | apply H2]|].
  split; [split; [exact Hshown | apply progress_ok_shown; exact H2]|].
  intros c Hc. destruct H2 as [_ H2]. rewrite Hc in H2.
  destruct H2 as (_ & Href & _ & Hhi).
  split; [exact Hhi|]. split; [|split].
  - split; [reflexivity|]. apply min_step; [reflexivity | exact Hhi].
  - intros cx cy. unfold DraggablePolaroid.handleMove.
    destruct (negb (DraggablePolaroid.isDragging c)); simpl;
      [split; [left; reflexivity | apply Qle_refl]|].
    destruct (gt _ 15 && lt (DraggablePolaroid.developmentProgress c) 100).
    + split; [right; reflexivity|].
      apply min_step; [reflexivity | exact Hhi].
    + split; [left; reflexivity | apply Qle_refl].
  - simpl. rewrite Hc. simpl. rewrite Href. reflexivity.
Qed.

Lemma progress_never_decreases_witness :
  let s1 := DraggablePolaroid.run
              [DraggablePolaroid.Mount; DraggablePolaroid.Tick;
               DraggablePolaroid.DragStart 0 0; DraggablePolaroid.Move 20 0;
               DraggablePolaroid.Render]
              (DraggablePolaroid.mkSession Samples.private_photo None) in
  let s2 := DraggablePolaroid.run
              [DraggablePolaroid.Tick; DraggablePolaroid.Render;
               DraggablePolaroid.Unmount] s1 in
  (DraggablePolaroid.shown_progress s1 <= DraggablePolaroid.shown_progress s2 /\
   DraggablePolaroid.shown_progress s2 <= 100)%Q /\
  (DraggablePolaroid.initial_progress (DraggablePolaroid.photo s1) <=
   DraggablePolaroid.initial_progress (DraggablePolaroid.photo s2))%Q /\
  (DraggablePolaroid.shown_progress s2 == 3)%Q.
Proof.
  intros s1 s2.
  assert (Hp : (DraggablePolaroid.initial_progress Samples.private_photo
                <= 100)%Q) by (vm_compute; discriminate).
  destruct (progress_never_decreases Samples.private_photo
              [DraggablePolaroid.Mount; DraggablePolaroid.Tick;
               DraggablePolaroid.DragStart 0 0; DraggablePolaroid.Move 20 0;
               DraggablePolaroid.Render]
              [DraggablePolaroid.Tick; DraggablePolaroid.Render;
               DraggablePolaroid.Unmount] Hp)
    as ((Hphoto & _) & Hshown & _).
  split; [exact Hshown|]. split; [exact Hphoto|]. reflexivity.
Defined.

(** * Further properties of the sources *)

(** ** Writing to local storage *)

Lemma keys_differ :
  StorageService.USER_STORAGE_KEY <> StorageService.SHARED_POOL_KEY.
Proof. discriminate. Qed.

Section PersistFacts.
Variable decodeImage : string -> option StorageService.Image.
Variable getContext2d : StorageService.Canvas -> bool.
Variable toDataURL : StorageService.Canvas -> string -> Q -> string.
Variable JSON_parse : string -> outcome (list Photo).
Variable JSON_stringify : list Photo -> string.
Variable within_quota : gmap string string -> bool.

Lemma read_written (key : string) (l : list Photo)
  (localStorage : gmap string string) :
  Spec.codec_ok JSON_parse JSON_stringify l ->
  StorageService.read_photos JSON_parse key
    (<[key := JSON_stringify l]> localStorage) = Returned l.
Proof.
  intros [Hne Hrt]. rewrite read_photos_cases, lookup_insert_eq.
  apply String.eqb_neq in Hne. rewrite Hne, Hrt. reflexivity.
Qed.

Lemma read_other (key key' value : string)
  (localStorage : gmap string string) :
  key' <> key ->
  StorageService.read_photos JSON_parse key'
    (<[key := value]> localStorage)
  = StorageService.read_photos JSON_parse key' localStorage.
Proof.
  intros Hne. rewrite !read_photos_cases, lookup_insert_ne by congruence.
  reflexivity.
Qed.

Lemma pool_add_cases (photos : list Photo)
  (localStorage : gmap string string) :
  let merged :=
    StorageService.updated_pool (Spec.pool_of JSON_parse localStorage) photos in
  StorageService.addToSharedPoolLocal JSON_parse JSON_stringify within_quota
    photos localStorage
  = if within_quota
         (<[StorageService.SHARED_POOL_KEY := JSON_stringify merged]>
            localStorage)
    then <[StorageService.SHARED_POOL_KEY := JSON_stringify merged]>
           localStorage
    else localStorage.
Proof.
  unfold StorageService.addToSharedPoolLocal, Spec.pool_of,
    StorageService.getSharedPoolLocal, StorageService.setItem.
  rewrite read_photos_cases. simpl.
  destruct (within_quota _); reflexivity.
Qed.

Lemma pool_add_keeps_user (photos : list Photo)
  (localStorage : gmap string string) :
  StorageService.getUserPhotos JSON_parse
    (StorageService.addToSharedPoolLocal JSON_parse JSON_stringify
       within_quota photos localStorage)
  = StorageService.getUserPhotos JSON_parse localStorage.
Proof.
  rewrite pool_add_cases. simpl. destruct (within_quota _); [|reflexivity].
  apply read_other. apply keys_differ.
Qed.


End PersistFacts.



(** ** More on the insertion-ordered map *)
Section MapMore.
Context {V : Type}.
Implicit Types (m : Map.t V) (k : string) (v : V).

Lemma map_set_fresh k v m :
  ~ In k (Map.keys m) -> Map.set k v m = m ++ [(k, v)].
Proof.
  induction m as [|[k0 v0] m IH]; simpl; intros Hn; [reflexivity|].
  destruct (String.eqb k0 k) eqn:E.
  - apply String.eqb_eq in E. exfalso. apply Hn. left. exact E.
  - f_equal. apply IH. intros Hin. apply Hn. right. exact Hin.
Qed.

Lemma map_set_all_fresh (es : list (string * V)) :
  forall m,
    List.NoDup (map fst es) ->
    (forall k, In k (map fst es) -> ~ In k (Map.keys m)) ->
    Map.set_all es m = m ++ es.
Proof.
  unfold Map.set_all.
  induction es as [|[k v] es IH]; intros m Hnd Hdis; simpl.
  - symmetry. apply app_nil_r.
  - simpl in Hnd. apply NoDup_cons_iff in Hnd as [Hk Hnd].
    rewrite map_set_fresh by (apply Hdis; left; reflexivity).
    rewrite IH; [rewrite <- app_assoc; reflexivity | exact Hnd |].
    intros k0 Hin. unfold Map.keys. rewrite map_app, in_app_iff. simpl.
    intros [H|[H|[]]].
    + apply (Hdis k0); [right; exact Hin | exact H].
    + subst k0. contradiction.
Qed.

Lemma map_of_entries_id m :
  List.NoDup (Map.keys m) -> Map.of_entries m = m.
Proof.
  intros Hnd. unfold Map.of_entries.
  rewrite map_set_all_fresh; [reflexivity | exact Hnd |].
  intros k _ [].
Qed.

Lemma map_set_all_known_keys (es : list (string * V)) :
  forall m,
    (forall k, In k (map fst es) -> In k (Map.keys m)) ->
    Map.keys (Map.set_all es m) = Map.keys m.
Proof.
  unfold Map.set_all.
  induction es as [|[k v] es IH]; intros m Hin; simpl; [reflexivity|].
  assert (Hk : Map.keys (Map.set k v m) = Map.keys m).
  { rewrite map_keys_set.
    destruct (existsb (String.eqb k) (Map.keys m)) eqn:E; [reflexivity|].
    exfalso. assert (Hex : existsb (String.eqb k) (Map.keys m) = true).
    { apply existsb_exists. exists k. split; [|apply String.eqb_refl].
      apply Hin. left. reflexivity. }
    congruence. }
  rewrite IH; [exact Hk|].
  intros k0 H0. rewrite Hk. apply Hin. right. exact H0.
Qed.

Lemma map_same (m1 m2 : Map.t V) :
  Map.keys m1 = Map.keys m2 ->
  List.NoDup (Map.keys m1) ->
  (forall k, Map.get k m1 = Map.get k m2) ->
  m1 = m2.
Proof.
  revert m2. induction m1 as [|[k1 v1] m1 IH]; intros [|[k2 v2] m2];
    simpl; intros Hkeys Hnd Hget; try discriminate; [reflexivity|].
  injection Hkeys as <- Hkeys.
  apply NoDup_cons_iff in Hnd as [Hnot Hnd].
  pose proof (Hget k1) as Hk. rewrite String.eqb_refl in Hk.
  injection Hk as <-. f_equal. apply IH; [exact Hkeys | exact Hnd|].
  intros k. specialize (Hget k).
  destruct (String.eqb k1 k) eqn:E; [|exact Hget].
  apply String.eqb_eq in E. subst k.
  assert (H1 : Map.get k1 m1 = None).
  { clear - Hnot. induction m1 as [|[k v] m IH]; simpl; [reflexivity|].
    destruct (String.eqb k k1) eqn:E.
    - apply String.eqb_eq in E. exfalso. apply Hnot. left. exact E.
    - apply IH. intros H. apply Hnot. right. exact H. }
  assert (H2 : Map.get k1 m2 = None).
  { rewrite Hkeys in Hnot. clear - Hnot.
    induction m2 as [|[k v] m IH]; simpl; [reflexivity|].
    destruct (String.eqb k k1) eqn:E.
    - apply String.eqb_eq in E. exfalso. apply Hnot. left. exact E.
    - apply IH. intros H. apply Hnot. right. exact H. }
  rewrite H1, H2. reflexivity.
Qed.

Lemma map_set_all_twice (es : list (string * V)) m :
  List.NoDup (Map.keys m) ->
  Map.set_all es (Map.set_all es m) = Map.set_all es m.
Proof.
  intros Hnd. apply map_same.
  - apply map_set_all_known_keys. intros k Hk.
    apply map_set_all_keys. left. exact Hk.
  - apply map_set_all_NoDup, map_set_all_NoDup, Hnd.
  - intros k. rewrite (map_set_all_get es (Map.set_all es m)).
    rewrite (map_set_all_get es m).
    destruct (List.find _ (rev es)); reflexivity.
Qed.

End MapMore.

Lemma entries_of_values (m : Map.t Photo) :
  Forall (fun e : string * Photo => fst e = id (snd e)) m ->
  map StorageService.entry (Map.values m) = m.
Proof.
  induction m as [|[k v] m IH]; simpl; intros H; [reflexivity|].
  apply Forall_cons_iff in H as [Hk H]. simpl in Hk.
  unfold StorageService.entry at 1. rewrite <- Hk. f_equal. apply IH, H.
Qed.

(** Adding to a pool what was just added to it changes nothing. *)
Lemma updated_pool_twice (pool photos : list Photo) :
  StorageService.updated_pool
    (StorageService.updated_pool pool photos) photos
  = StorageService.updated_pool pool photos.
Proof.
  unfold StorageService.updated_pool.
  set (M := Map.set_all (map StorageService.entry photos)
              (Map.of_entries (map StorageService.entry pool))).
  assert (Hkeyed : Forall (fun e : string * Photo => fst e = id (snd e)) M).
  { apply map_set_all_pairs; [apply entries_keyed|].
    apply map_set_all_pairs; [apply entries_keyed | constructor]. }
  assert (Hnd : List.NoDup (Map.keys M)).
  { apply map_set_all_NoDup, map_set_all_NoDup. constructor. }
  rewrite (entries_of_values M Hkeyed), (map_of_entries_id M Hnd).
  unfold M at 1. rewrite map_set_all_twice; [reflexivity|].
  apply map_set_all_NoDup. constructor.
Qed.

(** ** Saving, loading and uploading *)

Section SaveFacts.
Variable decodeImage : string -> option StorageService.Image.
Variable getContext2d : StorageService.Canvas -> bool.
Variable toDataURL : StorageService.Canvas -> string -> Q -> string.
Variable JSON_parse : string -> outcome (list Photo).
Variable JSON_stringify : list Photo -> string.
Variable within_quota : gmap string string -> bool.


Lemma save_cases (db : option StorageService.Firestore)
  (photos : list Photo) (ls : gmap string string) :
  StorageService.saveUserPhotos decodeImage getContext2d toDataURL
    JSON_parse JSON_stringify within_quota db photos ls
  = if within_quota (<[StorageService.USER_STORAGE_KEY :=
        JSON_stringify
          (StorageService.compress_large decodeImage getContext2d toDataURL
             photos)]> ls)
    then match db with
         | Some _ => (<[StorageService.USER_STORAGE_KEY :=
        JSON_stringify
          (StorageService.compress_large decodeImage getContext2d toDataURL
             photos)]> ls)
         | None =>
             StorageService.addToSharedPoolLocal JSON_parse JSON_stringify
               within_quota
               (List.filter StorageService.is_public (StorageService.compress_large decodeImage getContext2d toDataURL
       photos))
               (<[StorageService.USER_STORAGE_KEY :=
        JSON_stringify
          (StorageService.compress_large decodeImage getContext2d toDataURL
             photos)]> ls)
         end
    else ls.
Proof.
  unfold StorageService.saveUserPhotos, StorageService.setItem.
  destruct (within_quota _); reflexivity.
Qed.

Lemma pool_of_user_written (photos : list Photo) (ls : gmap string string) :
  Spec.pool_of JSON_parse (<[StorageService.USER_STORAGE_KEY :=
        JSON_stringify
          (StorageService.compress_large decodeImage getContext2d toDataURL
             photos)]> ls)
  = Spec.pool_of JSON_parse ls.
Proof.
  unfold Spec.pool_of, StorageService.getSharedPoolLocal.
  rewrite read_other; [reflexivity|].
  intros H. symmetry in H. exact (keys_differ H).
Qed.


End SaveFacts.

(** X2.  Saving and then loading, the text written parsing back: when the
    storage takes the user record, start-up finds the photos that were
    saved, large payloads in their compressed form and the others as they
    were; when it does not, start-up finds what was stored before. *)
Theorem saved_photos_come_back
  (decodeImage : string -> option StorageService.Image)
  (getContext2d : StorageService.Canvas -> bool)
  (toDataURL : StorageService.Canvas -> string -> Q -> string)
  (JSON_parse : string -> outcome (list Photo))
  (JSON_stringify : list Photo -> string)
  (within_quota : gmap string string -> bool)
  (db : option StorageService.Firestore)
  (photos : list Photo) (localStorage : gmap string string) :
  let compressed :=
    StorageService.compress_large decodeImage getContext2d toDataURL photos in
  let stored :=
    App.autosave decodeImage getContext2d toDataURL JSON_parse JSON_stringify
      within_quota true db photos localStorage in
  Spec.codec_ok JSON_parse JSON_stringify compressed ->
  App.load_photos JSON_parse stored =
    (if within_quota
          (<[StorageService.USER_STORAGE_KEY := JSON_stringify compressed]>
             localStorage)
     then compressed
     else App.load_photos JSON_parse localStorage) /\
  (Forall (fun p => (N.of_nat (String.length (dataUrl p)) <= 500000)%N)
          photos ->
   compressed = photos).
Proof.
  intros compressed stored Hcodec. split.
  - subst stored. unfold App.autosave. rewrite save_cases.
    fold compressed.
    destruct (within_quota _) eqn:Hroom; [|reflexivity].
    unfold App.load_photos.
    assert (Hread :
      StorageService.getUserPhotos JSON_parse
        (<[StorageService.USER_STORAGE_KEY := JSON_stringify compressed]>
           localStorage) = Returned compressed).
    { apply read_written. exact Hcodec. }
    destruct db as [store|].
    + rewrite Hread. reflexivity.
    + rewrite pool_add_keeps_user, Hread. reflexivity.
  - apply compress_large_skips_small.
Qed.

Lemma saved_photos_come_back_witness :
  App.load_photos (Samples.read_as Samples.wall)
    (App.autosave Samples.tiny_decode Samples.any_context Samples.encode
       (Samples.read_as Samples.wall) (Samples.write_as "[p1,p2,p3]")
       Samples.roomy true None Samples.wall ∅)
  = Samples.wall.
Proof.
  destruct (saved_photos_come_back Samples.tiny_decode Samples.any_context
              Samples.encode (Samples.read_as Samples.wall)
              (Samples.write_as "[p1,p2,p3]") Samples.roomy None
              Samples.wall ∅) as (Hload & _).
  - split; [discriminate | reflexivity].
  - exact Hload.
Defined.

(** X3.  Saving the same collection a second time leaves the storage as the
    first save left it, in cloud mode and in local mode (where the pool
    written must parse back), whether or not the storage took the writes. *)
Theorem saving_twice_is_saving_once
  (decodeImage : string -> option StorageService.Image)
  (getContext2d : StorageService.Canvas -> bool)
  (toDataURL : StorageService.Canvas -> string -> Q -> string)
  (JSON_parse : string -> outcome (list Photo))
  (JSON_stringify : list Photo -> string)
  (within_quota : gmap string string -> bool)
  (db : option StorageService.Firestore)
  (photos : list Photo) (localStorage : gmap string string) :
  let save :=
    StorageService.saveUserPhotos decodeImage getContext2d toDataURL
      JSON_parse JSON_stringify within_quota db photos in
  let userPublic :=
    List.filter StorageService.is_public
      (StorageService.compress_large decodeImage getContext2d toDataURL
         photos) in
  Spec.codec_ok JSON_parse JSON_stringify
    (StorageService.updated_pool (Spec.pool_of JSON_parse localStorage)
       userPublic) ->
  save (save localStorage) = save localStorage.
Proof.
  intros save userPublic Hcodec. subst save.
  rewrite (save_cases _ _ _ _ _ _ db photos localStorage).
  set (u := JSON_stringify
              (StorageService.compress_large decodeImage getContext2d
                 toDataURL photos)).
  set (ls_u := <[StorageService.USER_STORAGE_KEY := u]> localStorage).
  destruct (within_quota ls_u) eqn:Hroom.
  2:{ rewrite save_cases. fold u ls_u. rewrite Hroom. reflexivity. }
  assert (Hu : <[StorageService.USER_STORAGE_KEY := u]> ls_u = ls_u).
  { apply insert_id. unfold ls_u. apply lookup_insert_eq. }
  destruct db as [store|].
  - rewrite save_cases. fold u. rewrite Hu, Hroom. reflexivity.
  - fold userPublic.
    pose proof (pool_of_user_written decodeImage getContext2d toDataURL
                  JSON_parse JSON_stringify photos localStorage) as Hpool.
    fold u ls_u in Hpool.
    rewrite (pool_add_cases JSON_parse JSON_stringify within_quota
               userPublic ls_u).
    rewrite Hpool.
    set (m1 := StorageService.updated_pool
                 (Spec.pool_of JSON_parse localStorage) userPublic) in *.
    set (ls_p := <[StorageService.SHARED_POOL_KEY := JSON_stringify m1]> ls_u).
    destruct (within_quota ls_p) eqn:Hroom2.
    + rewrite save_cases. fold u userPublic.
      assert (Hup : <[StorageService.USER_STORAGE_KEY := u]> ls_p = ls_p).
      { apply insert_id. unfold ls_p. rewrite lookup_insert_ne.
        - unfold ls_u. apply lookup_insert_eq.
        - intros H. symmetry in H. exact (keys_differ H). }
      rewrite Hup, Hroom2.
      rewrite (pool_add_cases JSON_parse JSON_stringify within_quota
                 userPublic ls_p).
      assert (Hread : Spec.pool_of JSON_parse ls_p = m1).
      { unfold Spec.pool_of, StorageService.getSharedPoolLocal, ls_p.
        rewrite (read_written _ _ _ _ _ Hcodec). reflexivity. }
      rewrite Hread.
      replace (StorageService.updated_pool m1 userPublic) with m1
        by (symmetry; apply updated_pool_twice).
      assert (Hpp : <[StorageService.SHARED_POOL_KEY := JSON_stringify m1]>
                      ls_p = ls_p).
      { apply insert_id. unfold ls_p. apply lookup_insert_eq. }
      rewrite Hpp, Hroom2. reflexivity.
    + rewrite save_cases. fold u userPublic. rewrite Hu, Hroom.
      rewrite (pool_add_cases JSON_parse JSON_stringify within_quota
                 userPublic ls_u).
      rewrite Hpool. fold m1 ls_p. rewrite Hroom2. reflexivity.
Qed.

Lemma saving_twice_is_saving_once_witness :
  let save :=
    StorageService.saveUserPhotos Samples.tiny_decode Samples.any_context
      Samples.encode (Samples.read_as [Samples.shared_photo])
      (Samples.write_as "[p4]") Samples.roomy None
      [Samples.private_photo; Samples.shared_photo] in
  save (save ∅) = save ∅.
Proof.
  intros save.
  apply (saving_twice_is_saving_once Samples.tiny_decode Samples.any_context
           Samples.encode (Samples.read_as [Samples.shared_photo])
           (Samples.write_as "[p4]") Samples.roomy None
           [Samples.private_photo; Samples.shared_photo] ∅).
  split; [discriminate | reflexivity].
Defined.







(** ** Sharing, from the toggle to the map *)

Lemma toggle_unique (rnd : nat -> Q) (t : string) (prev : list Photo) :
  forall (n i : nat) (p : Photo),
    List.NoDup (map id prev) ->
    nth_error prev i = Some p ->
    id p = t ->
    App.handleToggleShare rnd t n prev =
    (<[i := fst (fst (App.toggle_photo rnd n p))]> prev,
     snd (fst (App.toggle_photo rnd n p)),
     snd (App.toggle_photo rnd n p)).
Proof.
  induction prev as [|q l IH]; intros n i p Hnd Hp Hid.
  - destruct i; discriminate Hp.
  - simpl in Hnd. apply NoDup_cons_iff in Hnd as [Hnot Hnd].
    destruct i as [|i]; simpl in Hp.
    + injection Hp as ->. cbn [App.handleToggleShare].
      apply String.eqb_eq in Hid. rewrite Hid.
      apply String.eqb_eq in Hid. rewrite <- Hid in *.
      destruct (App.toggle_photo rnd n p) as [[p' fp] n1] eqn:Hq.
      rewrite toggle_unknown by exact Hnot.
      cbn [fst snd]. rewrite app_nil_r. reflexivity.
    + assert (Hq : String.eqb (id q) t = false).
      { apply String.eqb_neq. intros E. apply Hnot. rewrite E, <- Hid.
        apply in_map. eapply nth_error_In. exact Hp. }
      cbn [App.handleToggleShare]. rewrite Hq.
      rewrite (IH n i p Hnd Hp Hid). reflexivity.
Qed.

(** X6.  Sharing a photo that is not public, ids being unique in the
    collection: the toggle replaces that photo by its public version and
    leaves the others alone, and it fires one toast, one timer and exactly
    one upload, whose photo is the one now in the collection. *)
Theorem share_uploads_the_stored_photo
  (rnd : nat -> Q) (target : string) (n : nat) (prev : list Photo)
  (i : nat) (p : Photo) :
  List.NoDup (map id prev) ->
  nth_error prev i = Some p ->
  id p = target ->
  truthy_flag (isPublic p) = false ->
  exists p' n',
    App.handleToggleShare rnd target n prev =
    (<[i := p']> prev,
     [App.ShowToast "📍 Pinned to Global Gallery"; App.ClearToastAfter 4000;
      App.UploadToCloud p'],
     n') /\
    id p' = target /\
    isPublic p' = Some true /\
    dataUrl p' = dataUrl p /\
    caption p' = caption p /\
    (n' = n \/ n' = S (S n)).
Proof.
  intros Hnd Hp Hid Hpriv.
  rewrite (toggle_unique rnd target prev n i p Hnd Hp Hid).
  unfold App.toggle_photo. rewrite Hpriv. cbn [negb fst snd andb].
  eexists _, _. split; [reflexivity|].
  repeat split; try assumption.
  destruct (location p) as [l|]; [destruct (negb (truthy_number (lat l)))|];
    [right | left | right]; reflexivity.
Qed.

Lemma share_uploads_the_stored_photo_witness :
  exists p' n',
    App.handleToggleShare Samples.quarter "p1" 0 Samples.wall =
    ([p'; Samples.located_photo; Samples.equator_photo],
     [App.ShowToast "📍 Pinned to Global Gallery"; App.ClearToastAfter 4000;
      App.UploadToCloud p'],
     n').
Proof.
  assert (Hnd : List.NoDup (map id Samples.wall)).
  { repeat constructor; simpl; intuition discriminate. }
  destruct (share_uploads_the_stored_photo Samples.quarter "p1" 0
              Samples.wall 0 Samples.private_photo Hnd eq_refl eq_refl
              eq_refl) as (p' & n' & H & _).
  exists p', n'. exact H.
Defined.

(** X7.  Unsharing, ids being unique: toggling a public photo makes it
    private and keeps its location, other photos are left alone, no effect
    is fired (no upload, nothing is retracted) and no random number is
    drawn. *)
Theorem unshare_is_silent
  (rnd : nat -> Q) (target : string) (n : nat) (prev : list Photo)
  (i : nat) (p : Photo) :
  List.NoDup (map id prev) ->
  nth_error prev i = Some p ->
  id p = target ->
  truthy_flag (isPublic p) = true ->
  App.handleToggleShare rnd target n prev =
  (<[i := App.with_share false (location p) p]> prev, [], n).
Proof.
  intros Hnd Hp Hid Hpub.
  rewrite (toggle_unique rnd target prev n i p Hnd Hp Hid).
  unfold App.toggle_photo. rewrite Hpub. reflexivity.
Qed.

Lemma unshare_is_silent_witness :
  App.handleToggleShare Samples.quarter "p4" 0
    [Samples.private_photo; Samples.shared_photo] =
  ([Samples.private_photo;
    App.with_share false (Some Samples.tokyo) Samples.shared_photo], [],
   0%nat).
Proof.
  assert (Hnd : List.NoDup
                  (map id [Samples.private_photo; Samples.shared_photo])).
  { repeat constructor; simpl; intuition discriminate. }
  exact (unshare_is_silent Samples.quarter "p4" 0
           [Samples.private_photo; Samples.shared_photo] 1
           Samples.shared_photo Hnd eq_refl eq_refl eq_refl).
Defined.





Section ShareFlow.
Variable decodeImage : string -> option StorageService.Image.
Variable getContext2d : StorageService.Canvas -> bool.
Variable toDataURL : StorageService.Canvas -> string -> Q -> string.
Variable JSON_parse : string -> outcome (list Photo).
Variable JSON_stringify : list Photo -> string.
Variable within_quota : gmap string string -> bool.
Hypothesis roomy : forall st, within_quota st = true.



End ShareFlow.





(** ** The Gemini service *)

Lemma trim_start_space (w s : string) :
  In w Spec.white_space -> trim_start (w ++ s) = trim_start s.
Proof.
  unfold Spec.white_space. cbn [map]. intros H.
  repeat (destruct H as [<-|H]; [reflexivity|]). destruct H.
Qed.

Lemma trim_blank (t : string) : Spec.blank t -> trim t = ""%string.
Proof.
  intros (ws & Hws & ->). unfold trim.
  assert (H : trim_start (String.concat "" ws) = ""%string).
  { induction ws as [|w ws IH]; [reflexivity|].
    apply Forall_cons_iff in Hws as [Hw Hws].
    assert (E : String.concat "" (w :: ws)
                = (w ++ String.concat "" ws)%string).
    { destruct ws as [|w' ws']; [|reflexivity].
      change (w = (w ++ "")%string).
      clear. induction w as [|a w IH]; [reflexivity|].
      change (String a w = String a (w ++ "")). f_equal. exact IH. }
    rewrite E, trim_start_space by exact Hw. exact (IH Hws). }
  rewrite H. reflexivity.
Qed.

(** X10.  With the service of the repository behind it, the second update
    of [handleCapture] always gives the captured photo a caption that is not
    empty and clears its pending flag.  The caption is "Memories
    captured..." without a key, "Snap!" when the model call throws, the
    trimmed answer of the model when that is not empty, and "A beautiful
    moment" when the answer is missing or trims to nothing, as every answer
    made of white space only does (no-break spaces included). *)
Theorem captured_photo_gets_a_caption
  (API_KEY : string)
  (generateContent : GeminiService.Request -> outcome GeminiService.Response)
  (env : App.CaptureEnv) (userLocation : option Location) (data : string)
  (prev : list Photo) (q : Photo) :
  In q (snd (App.handleCapture API_KEY generateContent env userLocation data)
          (fst (App.handleCapture API_KEY generateContent env userLocation
                  data) prev)) ->
  id q = App.randomUUID env ->
  exists c,
    GeminiService.generatePhotoCaption API_KEY generateContent data
    = Returned c /\
    c <> ""%string /\
    caption q = Some c /\
    isGeneratingCaption q = Some false /\
    (truthy_string API_KEY = false -> c = "Memories captured..."%string) /\
    (truthy_string API_KEY = true ->
     match
       generateContent
         (GeminiService.mkRequest "gemini-2.5-flash" "image/jpeg"
            (GeminiService.cleanBase64 data) GeminiService.CAPTION_PROMPT)
     with
     | Thrown _ => c = "Snap!"%string
     | Returned response =>
         match GeminiService.response_text response with
         | Some t =>
             (trim t <> ""%string -> c = trim t) /\
             (trim t = ""%string -> c = "A beautiful moment"%string) /\
             (Spec.blank t -> c = "A beautiful moment"%string)
         | None => c = "A beautiful moment"%string
         end
     end).
Proof.
  cbn [App.handleCapture fst snd]. intros Hq Hid.
  destruct (generatePhotoCaption_cases API_KEY generateContent data)
    as (c & Hc & Hne & Hnokey & Hkey).
  exists c. rewrite Hc in *. split; [reflexivity|]. split; [exact Hne|].
  unfold App.caption_settled in Hq. apply patch_In in Hq as (p & _ & ->).
  destruct (String.eqb (id p) (App.randomUUID env)) eqn:E;
    [|apply String.eqb_neq in E; contradiction].
  split; [reflexivity|]. split; [reflexivity|]. split; [exact Hnokey|].
  intros Hk. specialize (Hkey Hk).
  destruct (generateContent _) as [response|e]; [|exact Hkey].
  destruct (GeminiService.response_text response) as [t|]; [|exact Hkey].
  unfold truthy_string in Hkey.
  destruct (String.eqb (trim t) "") eqn:Et; cbn [negb] in Hkey.
  - apply String.eqb_eq in Et.
    split; [intros H; contradiction|]. split; intros _; exact Hkey.
  - apply String.eqb_neq in Et.
    split; [intros _; exact Hkey|].
    split; [intros H; contradiction|].
    intros Hb. apply trim_blank in Hb. contradiction.
Qed.

Lemma captured_photo_gets_a_caption_witness :
  exists q,
    In q (snd (App.handleCapture "key" Samples.model_blank Samples.desktop
                 None "data:image/jpeg;base64,/9j/4AAQ")
            (fst (App.handleCapture "key" Samples.model_blank
                    Samples.desktop None "data:image/jpeg;base64,/9j/4AAQ")
               Samples.wall)) /\
    caption q = Some "A beautiful moment"%string.
Proof.
  set (q := App.with_caption "A beautiful moment" false
              (App.newPhoto Samples.desktop None
                 "data:image/jpeg;base64,/9j/4AAQ")).
  assert (Hin : In q (snd (App.handleCapture "key" Samples.model_blank
                             Samples.desktop None
                             "data:image/jpeg;base64,/9j/4AAQ")
                        (fst (App.handleCapture "key" Samples.model_blank
                                Samples.desktop None
                                "data:image/jpeg;base64,/9j/4AAQ")
                             Samples.wall))).
  { vm_compute. right. right. right. left. reflexivity. }
  destruct (captured_photo_gets_a_caption "key" Samples.model_blank
              Samples.desktop None "data:image/jpeg;base64,/9j/4AAQ"
              Samples.wall q Hin eq_refl)
    as (c & _ & _ & Hcap & _ & _ & Hkey).
  exists q. split; [exact Hin|].
  destruct (Hkey eq_refl) as (_ & _ & Hblank).
  rewrite Hcap. f_equal. apply Hblank.
  exists [Spec.utf8 [194; 160]%nat; Spec.utf8 [227; 128; 128]%nat].
  split; [|reflexivity].
  repeat constructor; unfold Spec.white_space; cbn [map]; tauto.
Defined.

Lemma split_comma_free (s : string) :
  Spec.comma_free s = true -> split "," s = [s].
Proof.
  induction s as [|a s IH]; simpl; intros H; [reflexivity|].
  apply andb_true_iff in H as [Ha Hs]. apply negb_true_iff in Ha.
  rewrite Ha, (IH Hs). reflexivity.
Qed.

Lemma split_after_header (header rest : string) :
  Spec.comma_free header = true ->
  split "," (header ++ String "," rest) = header :: split "," rest.
Proof.
  induction header as [|a h IH]; simpl; intros H; [reflexivity|].
  apply andb_true_iff in H as [Ha Hh]. apply negb_true_iff in Ha.
  rewrite Ha, (IH Hh). reflexivity.
Qed.

Lemma cleanBase64_header (header payload : string) :
  Spec.comma_free header = true ->
  Spec.comma_free payload = true ->
  payload <> ""%string ->
  GeminiService.cleanBase64 (header ++ String "," payload) = payload.
Proof.
  intros Hh Hp Hne. unfold GeminiService.cleanBase64.
  rewrite (split_after_header _ _ Hh), (split_comma_free _ Hp). simpl.
  unfold truthy_string. apply String.eqb_neq in Hne. rewrite Hne.
  reflexivity.
Qed.

(** X11.  [cleanBase64] takes the header off a data URL: for a header and a
    payload without commas it yields the payload of [header,payload] when
    the payload is not empty; a text without a comma and a text that ends
    in its only comma are sent as they are. *)
Theorem cleanBase64_strips_header (header payload : string) :
  Spec.comma_free header = true ->
  Spec.comma_free payload = true ->
  (payload <> ""%string ->
   GeminiService.cleanBase64 (header ++ "," ++ payload) = payload) /\
  GeminiService.cleanBase64 (header ++ ",") = (header ++ ",")%string /\
  GeminiService.cleanBase64 header = header.
Proof.
  intros Hh Hp. split; [|split].
  - intros Hne. apply cleanBase64_header; assumption.
  - unfold GeminiService.cleanBase64.
    change (header ++ ",")%string with (header ++ String "," "")%string.
    rewrite (split_after_header _ _ Hh). reflexivity.
  - unfold GeminiService.cleanBase64. rewrite (split_comma_free _ Hh).
    reflexivity.
Qed.

Lemma cleanBase64_strips_header_witness :
  GeminiService.cleanBase64 "data:image/jpeg;base64,/9j/4AAQ"
  = "/9j/4AAQ"%string.
Proof.
  apply (cleanBase64_strips_header "data:image/jpeg;base64" "/9j/4AAQ"
           eq_refl eq_refl).
  discriminate.
Defined.

Lemma first_inline_image_found (before after : list GeminiService.Part)
  (d : string) (t : option string) :
  Forall (fun part => GeminiService.inlineData part = None) before ->
  GeminiService.first_inline_image
    (before ++ GeminiService.mkPart (Some d) t :: after)
  = Some ("data:image/png;base64," ++ d)%string.
Proof.
  induction before as [|b before IH]; simpl; intros H; [reflexivity|].
  apply Forall_cons_iff in H as [Hb H]. rewrite Hb. apply IH, H.
Qed.

(** X12.  A style edit that succeeds.  When a key is set and the model
    answers with parts of which the first one with image data carries [d],
    the update made when the edit settles gives the target the image
    [data:image/png;base64,d] and clears its pending flag, id and caption
    staying; and when [d] is not empty and has no comma, that image sent to
    the model again is reduced to [d]. *)
Theorem style_edit_replaces_image
  (API_KEY : string)
  (generateContent : GeminiService.Request -> outcome GeminiService.Response)
  (closed : list Photo) (target prompt : string) (photo : Photo)
  (response : GeminiService.Response)
  (before after : list GeminiService.Part) (d : string) (t : option string)
  (prev : list Photo) (i : nat) (p : Photo) :
  truthy_string API_KEY = true ->
  App.find_photo target closed = Some photo ->
  generateContent
    (GeminiService.mkRequest "gemini-2.5-flash-image" "image/jpeg"
       (GeminiService.cleanBase64 (dataUrl photo))
       (GeminiService.edit_prompt prompt)) = Returned response ->
  GeminiService.first_candidate_parts response
  = before ++ GeminiService.mkPart (Some d) t :: after ->
  Forall (fun part => GeminiService.inlineData part = None) before ->
  nth_error prev i = Some p ->
  id p = target ->
  exists settle p',
    snd (App.handleEditPhoto API_KEY generateContent closed target prompt)
    = Some settle /\
    nth_error (settle prev) i = Some p' /\
    dataUrl p' = ("data:image/png;base64," ++ d)%string /\
    isGeneratingCaption p' = Some false /\
    id p' = id p /\
    caption p' = caption p /\
    (d <> ""%string -> Spec.comma_free d = true ->
     GeminiService.cleanBase64 (dataUrl p') = d).
Proof.
  intros Hkey Hfind Hresp Hparts Hbefore Hp Hid.
  unfold App.handleEditPhoto. rewrite Hfind. cbn [snd].
  assert (Hedit :
    GeminiService.editPhotoStyle API_KEY generateContent (dataUrl photo)
      prompt = Returned (Some ("data:image/png;base64," ++ d)%string)).
  { unfold GeminiService.editPhotoStyle. rewrite Hkey. cbn [negb].
    rewrite Hresp. cbn [bind try_catch]. rewrite Hparts.
    rewrite (first_inline_image_found before after d t Hbefore).
    reflexivity. }
  rewrite Hedit. eexists _, _. split; [reflexivity|].
  unfold App.edit_settled. rewrite patch_nth, Hp. cbn [option_map].
  apply String.eqb_eq in Hid. rewrite Hid.
  split; [reflexivity|]. cbn [App.apply_edit truthy_string String.eqb
                              String.append negb].
  repeat split.
  intros Hne Hfree. cbn [App.with_image dataUrl].
  apply (cleanBase64_header "data:image/png;base64" d eq_refl Hfree Hne).
Qed.

Lemma style_edit_replaces_image_witness :
  exists settle p',
    snd (App.handleEditPhoto "key" Samples.model_image Samples.wall "p2"
           "sketch") = Some settle /\
    nth_error (settle Samples.wall) 1 = Some p' /\
    dataUrl p' = "data:image/png;base64,iVBORw0KGgo="%string.
Proof.
  destruct (style_edit_replaces_image "key" Samples.model_image Samples.wall
              "p2" "sketch" Samples.located_photo
              (GeminiService.mkResponse None
                 (Some [GeminiService.mkCandidate
                          (Some (GeminiService.mkContent
                                   (Some [GeminiService.mkPart None
                                            (Some "done"%string);
                                          GeminiService.mkPart
                                            (Some "iVBORw0KGgo="%string)
                                            None])))]))
              [GeminiService.mkPart None (Some "done"%string)] []
              "iVBORw0KGgo=" None Samples.wall 1 Samples.located_photo
              eq_refl eq_refl eq_refl eq_refl)
    as (settle & p' & Hs & Hn & Hd & _).
  - repeat constructor.
  - reflexivity.
  - reflexivity.
  - exists settle, p'. split; [exact Hs|]. split; [exact Hn | exact Hd].
Defined.

(** ** More on the controller *)

Lemma toggle_after_unknown (rnd : nat -> Q) (t : string) (l1 l2 : list Photo) :
  forall n,
    ~ In t (map id l1) ->
    App.handleToggleShare rnd t n (l1 ++ l2) =
    (l1 ++ fst (fst (App.handleToggleShare rnd t n l2)),
     snd (fst (App.handleToggleShare rnd t n l2)),
     snd (App.handleToggleShare rnd t n l2)).
Proof.
  induction l1 as [|q l1 IH]; intros n Hn.
  - simpl. destruct (App.handleToggleShare rnd t n l2) as [[a b] c].
    reflexivity.
  - cbn [app App.handleToggleShare].
    assert (Hq : String.eqb (id q) t = false).
    { apply String.eqb_neq. intros E. apply Hn. left. exact E. }
    rewrite Hq, IH; [reflexivity|].
    intros H. apply Hn. right. exact H.
Qed.

Lemma toggle_single_located (rnd : nat -> Q) (n : nat) (p0 : Photo)
  (l : Location) :
  truthy_flag (isPublic p0) = false ->
  location p0 = Some l ->
  truthy_number (lat l) = true ->
  App.handleToggleShare rnd (id p0) n [p0] =
  ([App.with_share true (Some l) p0],
   [App.ShowToast "📍 Pinned to Global Gallery"; App.ClearToastAfter 4000;
    App.UploadToCloud (App.with_share true (Some l) p0)],
   n).
Proof.
  intros Hpriv Hloc Hla. cbn [App.handleToggleShare].
  rewrite String.eqb_refl. unfold App.toggle_photo.
  rewrite Hpriv, Hloc, Hla. reflexivity.
Qed.

(** X13.  The location the app starts with.  A location taken from the IP
    lookup has a latitude and a longitude that are not zero, and the
    browser's geolocation is not consulted when the lookup answers, even
    without coordinates.  A photo captured under a fresh id with such a
    location keeps it when it is shared: the toggle makes the photo public
    with that very location and draws no random number. *)
Theorem looked_up_location_survives_sharing
  (data : App.IpData) (geolocation : option (option (Q * Q)))
  (l : Location) (env : App.CaptureEnv) (image : string)
  (rnd : nat -> Q) (n : nat) (prev : list Photo) :
  App.initLocation (Returned data) geolocation = Some l ->
  ~ In (App.randomUUID env) (map id prev) ->
  let p0 := App.newPhoto env (Some l) image in
  (~ (lat l == 0)%Q /\ ~ (lng l == 0)%Q) /\
  App.initLocation (Returned data) geolocation
  = App.initLocation (Returned data) None /\
  App.handleToggleShare rnd (App.randomUUID env) n
    (App.insert_photo p0 prev) =
  (prev ++ [App.with_share true (Some l) p0],
   [App.ShowToast "📍 Pinned to Global Gallery"; App.ClearToastAfter 4000;
    App.UploadToCloud (App.with_share true (Some l) p0)],
   n).
Proof.
  intros Hinit Hfresh p0.
  assert (Hl : truthy_number (lat l) = true /\ truthy_number (lng l) = true).
  { unfold App.initLocation in Hinit.
    destruct (App.latitude data) as [la|]; [|discriminate].
    destruct (App.longitude data) as [lo|]; [|discriminate].
    destruct (truthy_number la) eqn:Ea; [|discriminate].
    destruct (truthy_number lo) eqn:Eo; [|discriminate].
    injection Hinit as <-. split; assumption. }
  destruct Hl as [Hla Hlo]. split; [|split].
  - split; apply truthy_number_spec; assumption.
  - reflexivity.
  - unfold App.insert_photo.
    rewrite (toggle_after_unknown rnd _ prev [p0] n Hfresh).
    change (App.randomUUID env) with (id p0).
    rewrite (toggle_single_located rnd n p0 l eq_refl eq_refl Hla).
    reflexivity.
Qed.

Lemma looked_up_location_survives_sharing_witness :
  fst (fst (App.handleToggleShare Samples.quarter "p9" 0
              (App.insert_photo
                 (App.newPhoto Samples.desktop (Some Samples.tokyo) "data:,x")
                 Samples.wall)))
  = Samples.wall ++
    [App.with_share true (Some Samples.tokyo)
       (App.newPhoto Samples.desktop (Some Samples.tokyo) "data:,x")].
Proof.
  assert (Hfresh : ~ In (App.randomUUID Samples.desktop)
                        (map id Samples.wall)).
  { simpl. intuition discriminate. }
  destruct (looked_up_location_survives_sharing
              (App.mkIpData (Some 35.6938%Q) (Some 139.7035%Q)
                 (Some "Tokyo"%string))
              (Some None) Samples.tokyo Samples.desktop "data:,x"
              Samples.quarter 0 Samples.wall eq_refl Hfresh)
    as (_ & _ & H).
  change (App.randomUUID Samples.desktop) with "p9"%string in H.
  rewrite H. reflexivity.
Defined.

Lemma step_ids (rnd : nat -> Q) (ev : App.Event) (s : App.State) :
  match ev with
  | App.Capture p =>
      map id (App.photos (App.step rnd ev s)) = map id (App.photos s) ++ [id p]
  | App.Delete t =>
      map id (App.photos (App.step rnd ev s))
      = List.filter (fun i => negb (String.eqb i t)) (map id (App.photos s))
  | _ => map id (App.photos (App.step rnd ev s)) = map id (App.photos s)
  end.
Proof.
  destruct ev as [p|t r|t x' y'|t v|t|t|t r|t]; simpl.
  - unfold App.insert_photo. rewrite map_app. reflexivity.
  - unfold App.caption_settled. destruct r; apply patch_ids; reflexivity.
  - apply patch_ids. reflexivity.
  - apply patch_ids. reflexivity.
  - unfold App.deletePhoto. induction (App.photos s) as [|q l IH];
      simpl; [reflexivity|].
    destruct (String.eqb (id q) t); simpl; [exact IH | f_equal; exact IH].
  - apply patch_ids. reflexivity.
  - destruct r as [r|e]; simpl; [|reflexivity]. apply patch_ids.
    intros p. unfold App.apply_edit.
    destruct r as [d|]; [destruct (truthy_string d)|]; reflexivity.
  - pose proof (toggle_ids rnd t (App.photos s) (App.randomCalls s)) as HT.
    destruct (App.handleToggleShare rnd t (App.randomCalls s) (App.photos s))
      as [[l' f'] n']. exact HT.
Qed.

Lemma NoDup_filter_strings (f : string -> bool) (l : list string) :
  List.NoDup l -> List.NoDup (List.filter f l).
Proof.
  induction l as [|a l IH]; simpl; intros H; [constructor|].
  apply NoDup_cons_iff in H as [Ha H].
  destruct (f a); [|apply IH, H].
  constructor; [|apply IH, H].
  intros Hin. apply filter_In in Hin as [Hin _]. contradiction.
Qed.

(** X14.  Ids stay unique.  From a collection without a repeated id, any
    sequence of controller events in which every capture brings an id the
    collection does not have leads to a collection without a repeated id;
    no event other than a capture adds an id. *)
Theorem ids_stay_unique (rnd : nat -> Q) (evs : list App.Event) :
  forall s,
    List.NoDup (map id (App.photos s)) ->
    Spec.fresh_run rnd evs s ->
    List.NoDup (map id (App.photos (App.run rnd evs s))) /\
    (forall i,
        In i (map id (App.photos (App.run rnd evs s))) ->
        In i (map id (App.photos s)) \/
        exists p, In (App.Capture p) evs /\ id p = i).
Proof.
  induction evs as [|ev evs IH]; intros s Hnd Hfresh.
  - split; [exact Hnd|]. intros i Hi. left. exact Hi.
  - destruct Hfresh as [Hev Hrest].
    pose proof (step_ids rnd ev s) as Hids.
    assert (Hnd' : List.NoDup (map id (App.photos (App.step rnd ev s)))).
    { destruct ev; try (rewrite Hids; exact Hnd).
      - rewrite Hids. apply List.NoDup_app; [exact Hnd | |].
        + repeat constructor. intros [].
        + intros a Ha [<-|[]]. contradiction.
      - rewrite Hids. apply NoDup_filter_strings. exact Hnd. }
    destruct (IH (App.step rnd ev s) Hnd' Hrest) as [Hfinal Hfrom].
    unfold App.run in *. cbn [fold_left]. split; [exact Hfinal|].
    intros i Hi. destruct (Hfrom i Hi) as [Hstep|(p & Hp & Hpi)].
    + destruct ev; try (rewrite Hids in Hstep; left; exact Hstep).
      * rewrite Hids in Hstep. apply in_app_or in Hstep as [H|[H|[]]].
        -- left. exact H.
        -- right. eexists. split; [left; reflexivity | exact H].
      * rewrite Hids in Hstep. apply filter_In in Hstep as [H _].
        left. exact H.
    + right. exists p. split; [right; exact Hp | exact Hpi].
Qed.

Lemma ids_stay_unique_witness :
  List.NoDup
    (map id
       (App.photos
          (App.run Samples.quarter
             [App.Capture (App.newPhoto Samples.desktop None "data:,x");
              App.ToggleShare "p1"; App.Delete "p2";
              App.CaptionSettled "p9" (Returned "Nice!"%string)]
             (App.mkState Samples.wall 0 [])))).
Proof.
  apply (ids_stay_unique Samples.quarter
           [App.Capture (App.newPhoto Samples.desktop None "data:,x");
            App.ToggleShare "p1"; App.Delete "p2";
            App.CaptionSettled "p9" (Returned "Nice!"%string)]
           (App.mkState Samples.wall 0 [])).
  - repeat constructor; simpl; intuition discriminate.
  - simpl. intuition discriminate.
Defined.

(** X15.  Deleting.  After [deletePhoto] no photo carries the id; the
    photos left are those with another id, in their order; deleting again
    changes nothing; and what arrives late for the deleted photo (its
    caption, its edited image, the progress its component writes back when
    it unmounts) leaves the collection as the delete left it. *)
Theorem deleted_photo_stays_deleted
  (target : string) (prev : list Photo) :
  let left := App.deletePhoto target prev in
  ~ In target (map id left) /\
  (forall p, In p left <-> In p prev /\ id p <> target) /\
  left = List.filter (fun p => negb (String.eqb (id p) target)) prev /\
  App.deletePhoto target left = left /\
  (forall r, App.caption_settled target r left = left) /\
  (forall r, App.edit_settled target r left = left) /\
  (forall progress, App.updatePhotoProgress target progress left = left).
Proof.
  intros left.
  assert (Hgone : ~ In target (map id left)).
  { intros Hin. apply in_map_iff in Hin as (p & Hp & Hin).
    apply filter_In in Hin as [_ Hne]. apply negb_true_iff in Hne.
    apply String.eqb_neq in Hne. contradiction. }
  split; [exact Hgone|]. split; [|split; [reflexivity|split; [|split; [|split]]]].
  - intros p. unfold left, App.deletePhoto. rewrite filter_In.
    rewrite negb_true_iff, String.eqb_neq. reflexivity.
  - apply delete_unknown. exact Hgone.
  - intros r. unfold App.caption_settled.
    destruct r; apply patch_unknown; exact Hgone.
  - intros r. unfold App.edit_settled.
    destruct r; [apply patch_unknown; exact Hgone | reflexivity].
  - intros progress. apply patch_unknown. exact Hgone.
Qed.

(** ** More on the polaroid *)

Lemma lt_spec (a b : Q) : lt a b = true <-> (a < b)%Q.
Proof. unfold lt. apply (gt_spec b a). Qed.

Lemma lt_false (a b : Q) : lt a b = false <-> (b <= a)%Q.
Proof. unfold lt. apply (gt_false b a). Qed.

Lemma ticks_queued (n : nat) (c : DraggablePolaroid.Component) :
  (DraggablePolaroid.queued c <= 100)%Q ->
  (DraggablePolaroid.queued (DraggablePolaroid.ticks n c) ==
   Qmin (DraggablePolaroid.queued c + inject_Z (Z.of_nat n) * 0.5) 100)%Q.
Proof.
  intros Hc. induction n as [|n IH].
  - change (DraggablePolaroid.ticks 0 c) with c. cbn [Z.of_nat].
    destruct (Q.min_spec (DraggablePolaroid.queued c + inject_Z 0 * 0.5) 100)
      as [[H1 E1]|[H1 E1]]; rewrite E1;
      change (inject_Z 0) with 0%Q in *; lra.
  - change (DraggablePolaroid.ticks (S n) c)
      with (DraggablePolaroid.tick (DraggablePolaroid.ticks n c)).
    cbn [DraggablePolaroid.tick DraggablePolaroid.queued].
    set (q' := DraggablePolaroid.queued (DraggablePolaroid.ticks n c)) in *.
    assert (Hs : (inject_Z (Z.of_nat (S n)) == inject_Z (Z.of_nat n) + 1)%Q).
    { rewrite Nat2Z.inj_succ. unfold Z.succ. rewrite inject_Z_plus.
      reflexivity. }
    set (a := inject_Z (Z.of_nat n)) in *.
    set (b := inject_Z (Z.of_nat (S n))) in *.
    destruct (Q.min_spec (DraggablePolaroid.queued c + a * 0.5) 100)
      as [[H1 E1]|[H1 E1]];
    destruct (Q.min_spec (DraggablePolaroid.queued c + b * 0.5) 100)
      as [[H2 E2]|[H2 E2]];
    destruct (Q.min_spec (q' + 0.5) 100) as [[H3 E3]|[H3 E3]];
    rewrite E2, E3; rewrite E1 in IH; lra.
Qed.

Lemma ticks_rendered (n : nat) (c : DraggablePolaroid.Component) :
  DraggablePolaroid.developmentProgress (DraggablePolaroid.ticks n c)
  = DraggablePolaroid.developmentProgress c.
Proof.
  induction n as [|n IH]; [reflexivity|]. exact IH.
Qed.

(** X16.  Development by the timer alone.  From a component whose progress
    is at most 100, [n] timer callbacks followed by a render show
    [min (q + n / 2) 100], where [q] was the progress: from 0 the print is
    fully developed after 200 callbacks and stays so, and it is not before. *)
Theorem natural_development (n : nat) (c : DraggablePolaroid.Component) :
  (DraggablePolaroid.queued c <= 100)%Q ->
  let shown :=
    DraggablePolaroid.developmentProgress
      (DraggablePolaroid.render (DraggablePolaroid.ticks n c)) in
  (shown ==
   Qmin (DraggablePolaroid.queued c + inject_Z (Z.of_nat n) * 0.5) 100)%Q /\
  ((DraggablePolaroid.queued c == 0)%Q ->
   ((200 <= n)%nat -> (shown == 100)%Q) /\
   ((n < 200)%nat -> (shown == inject_Z (Z.of_nat n) * 0.5 /\ shown < 100)%Q)).
Proof.
  intros Hc shown.
  assert (Hshown :
    (shown ==
     Qmin (DraggablePolaroid.queued c + inject_Z (Z.of_nat n) * 0.5) 100)%Q).
  { apply ticks_queued. exact Hc. }
  split; [exact Hshown|]. intros H0. split; intros Hn.
  - rewrite Hshown. apply Q.min_r.
    assert (H : (inject_Z 200 <= inject_Z (Z.of_nat n))%Q).
    { rewrite <- Zle_Qle. lia. }
    change (inject_Z 200) with 200%Q in H. lra.
  - assert (H : (inject_Z (Z.of_nat n) <= inject_Z 199)%Q).
    { rewrite <- Zle_Qle. lia. }
    change (inject_Z 199) with 199%Q in H.
    assert (E : (shown == DraggablePolaroid.queued c
                          + inject_Z (Z.of_nat n) * 0.5)%Q).
    { rewrite Hshown. apply Q.min_l. lra. }
    split; lra.
Qed.

Lemma natural_development_witness :
  (DraggablePolaroid.developmentProgress
     (DraggablePolaroid.render
        (DraggablePolaroid.ticks 200
           (DraggablePolaroid.mount Samples.private_photo))) == 100)%Q.
Proof.
  assert (Hc : (DraggablePolaroid.queued
                  (DraggablePolaroid.mount Samples.private_photo) <= 100)%Q).
  { vm_compute. discriminate. }
  destruct (natural_development 200
              (DraggablePolaroid.mount Samples.private_photo) Hc)
    as (_ & H).
  apply H; [reflexivity | lia].
Defined.

(** X17.  The filters of the print.  For a progress between 0 and 100 the
    brightness lies between 0.1 and 1, the contrast between 1 and 1.2 and
    the grey scale between 0 and 1; more progress means a brighter, less
    contrasted and less grey print; and at 100 the print is shown as it is
    (brightness 1, contrast 1, no grey). *)
Theorem filters_follow_progress (progress later : Q) :
  (0 <= progress)%Q -> (progress <= later)%Q -> (later <= 100)%Q ->
  (0.1 <= DraggablePolaroid.brightness progress /\
   DraggablePolaroid.brightness progress
   <= DraggablePolaroid.brightness later /\
   DraggablePolaroid.brightness later <= 1)%Q /\
  (1 <= DraggablePolaroid.contrast later /\
   DraggablePolaroid.contrast later <= DraggablePolaroid.contrast progress /\
   DraggablePolaroid.contrast progress <= 1.2)%Q /\
  (0 <= DraggablePolaroid.grayscale later /\
   DraggablePolaroid.grayscale later <= DraggablePolaroid.grayscale progress /\
   DraggablePolaroid.grayscale progress <= 1)%Q /\
  ((later == 100)%Q ->
   (DraggablePolaroid.brightness later == 1 /\
    DraggablePolaroid.contrast later == 1 /\
    DraggablePolaroid.grayscale later == 0)%Q).
Proof.
  intros H0 Hle H100.
  unfold DraggablePolaroid.brightness, DraggablePolaroid.contrast,
    DraggablePolaroid.grayscale, Qdiv.
  change (/ 100)%Q with (1 # 100)%Q.
  repeat split; try lra; intros; lra.
Qed.

Lemma filters_follow_progress_witness :
  (DraggablePolaroid.brightness 0 <= DraggablePolaroid.brightness 50 /\
   DraggablePolaroid.grayscale 50 <= DraggablePolaroid.grayscale 0)%Q.
Proof.
  destruct (filters_follow_progress 0 50)
    as ((_ & Hb & _) & _ & (_ & Hg & _) & _);
    [discriminate | discriminate | discriminate |].
  split; [exact Hb | exact Hg].
Defined.

(** X18.  What the caption area of a new print shows.  For a photo whose
    progress is 0, mounted, after [n] timer callbacks and a render (and no
    shaking): "Developing..." for fewer than 60 callbacks, "Shake me!" from
    60 up to 159, and from 160 on the caption, or "..." while the photo has
    no caption or an empty one. *)
Theorem caption_shows_after_160_ticks
  (p : Photo) (n : nat) :
  (DraggablePolaroid.initial_progress p == 0)%Q ->
  let shown :=
    DraggablePolaroid.developmentProgress
      (DraggablePolaroid.render
         (DraggablePolaroid.ticks n (DraggablePolaroid.mount p))) in
  ((n < 60)%nat ->
   DraggablePolaroid.caption_area shown (caption p)
   = DraggablePolaroid.Hint "Developing...") /\
  ((60 <= n < 160)%nat ->
   DraggablePolaroid.caption_area shown (caption p)
   = DraggablePolaroid.Hint "Shake me!") /\
  ((160 <= n)%nat ->
   DraggablePolaroid.caption_area shown (caption p)
   = DraggablePolaroid.Handwriting
       match caption p with
       | Some c => if truthy_string c then c else "..."%string
       | None => "..."%string
       end).
Proof.
  intros H0 shown.
  assert (Hshown :
    (shown == Qmin (0 + inject_Z (Z.of_nat n) * 0.5) 100)%Q).
  { subst shown. cbn [DraggablePolaroid.render
                        DraggablePolaroid.developmentProgress].
    rewrite ticks_queued.
    - cbn [DraggablePolaroid.mount DraggablePolaroid.queued].
      rewrite H0. reflexivity.
    - cbn [DraggablePolaroid.mount DraggablePolaroid.queued]. lra. }
  assert (Hn : forall k : Z,
             (Z.of_nat n < k)%Z <-> (inject_Z (Z.of_nat n) < inject_Z k)%Q).
  { intros k. rewrite Zlt_Qlt. reflexivity. }
  assert (Hmin : (shown == inject_Z (Z.of_nat n) * 0.5)%Q \/
                 ((200 <= inject_Z (Z.of_nat n))%Q /\ (shown == 100)%Q)).
  { destruct (Q.min_spec (0 + inject_Z (Z.of_nat n) * 0.5) 100)
      as [[H1 E1]|[H1 E1]]; rewrite E1 in Hshown.
    - left. lra.
    - right. split; lra. }
  unfold DraggablePolaroid.caption_area.
  split; [|split]; intros Hc.
  - assert (H : (inject_Z (Z.of_nat n) < inject_Z 60)%Q) by (apply Hn; lia).
    change (inject_Z 60) with 60%Q in H.
    assert (H30 : lt shown 30 = true) by (apply lt_spec; lra).
    assert (H80 : lt shown 80 = true) by (apply lt_spec; lra).
    rewrite H80, H30. reflexivity.
  - assert (H : (inject_Z (Z.of_nat n) < inject_Z 160)%Q) by (apply Hn; lia).
    assert (H' : (inject_Z 60 <= inject_Z (Z.of_nat n))%Q).
    { rewrite <- Zle_Qle. lia. }
    change (inject_Z 160) with 160%Q in H.
    change (inject_Z 60) with 60%Q in H'.
    assert (H30 : lt shown 30 = false) by (apply lt_false; lra).
    assert (H80 : lt shown 80 = true) by (apply lt_spec; lra).
    rewrite H80, H30. reflexivity.
  - assert (H' : (inject_Z 160 <= inject_Z (Z.of_nat n))%Q).
    { rewrite <- Zle_Qle. lia. }
    change (inject_Z 160) with 160%Q in H'.
    assert (H80 : lt shown 80 = false) by (apply lt_false; lra).
    rewrite H80. reflexivity.
Qed.

Lemma caption_shows_after_160_ticks_witness :
  DraggablePolaroid.caption_area
    (DraggablePolaroid.developmentProgress
       (DraggablePolaroid.render
          (DraggablePolaroid.ticks 160
             (DraggablePolaroid.mount Samples.private_photo))))
    (caption Samples.private_photo)
  = DraggablePolaroid.Handwriting "...".
Proof.
  destruct (caption_shows_after_160_ticks Samples.private_photo 160)
    as (_ & _ & H); [reflexivity|].
  apply H. lia.
Defined.

(** ** The camera *)

(** X19.  The square cut out of the video frame lies within the frame and
    in its middle: its side is the shorter side of the frame, its corner is
    not negative, it ends within the frame, the margins on both sides are
    equal, and along the shorter side there is no margin. *)
Theorem crop_is_centered_square
  (videoWidth videoHeight : N) (facingMode : CameraSection.FacingMode) :
  let vw := inject_Z (Z.of_N videoWidth) in
  let vh := inject_Z (Z.of_N videoHeight) in
  let c := CameraSection.crop videoWidth videoHeight facingMode in
  (CameraSection.size c == Qmin vw vh)%Q /\
  (0 <= CameraSection.sx c /\ CameraSection.sx c + CameraSection.size c <= vw
   /\ CameraSection.sx c + CameraSection.size c + CameraSection.sx c == vw)%Q /\
  (0 <= CameraSection.sy c /\ CameraSection.sy c + CameraSection.size c <= vh
   /\ CameraSection.sy c + CameraSection.size c + CameraSection.sy c == vh)%Q /\
  ((CameraSection.sx c == 0)%Q \/ (CameraSection.sy c == 0)%Q) /\
  (CameraSection.mirrored c = true <-> facingMode = CameraSection.user).
Proof.
  intros vw vh c. subst c. unfold CameraSection.crop. fold vw vh.
  cbn [CameraSection.size CameraSection.sx CameraSection.sy
       CameraSection.mirrored].
  assert (Hw : (0 <= vw)%Q) by (unfold vw, Qle; simpl; lia).
  assert (Hh : (0 <= vh)%Q) by (unfold vh, Qle; simpl; lia).
  unfold Qdiv. change (/ 2)%Q with (1 # 2)%Q.
  clearbody vw vh.
  assert (Hmode : match facingMode with
                  | CameraSection.user => true
                  | CameraSection.environment => false
                  end = true <-> facingMode = CameraSection.user)
    by (destruct facingMode; split; intros; congruence).
  destruct (Q.min_spec vw vh) as [[H E]|[H E]];
    set (m := Qmin vw vh) in *; clearbody m.
  - split; [reflexivity|].
    split; [repeat split; lra|]. split; [repeat split; lra|].
    split; [left; lra | exact Hmode].
  - split; [reflexivity|].
    split; [repeat split; lra|]. split; [repeat split; lra|].
    split; [right; lra | exact Hmode].
Qed.

Lemma pending_remove_flash (i : nat) (l : list CameraSection.Timer) :
  nth_error l i = Some CameraSection.FlashOff ->
  flat_map (fun t => match t with
                     | CameraSection.HandOff d => [d]
                     | CameraSection.FlashOff => []
                     end) (CameraSection.remove_nth i l)
  = flat_map (fun t => match t with
                       | CameraSection.HandOff d => [d]
                       | CameraSection.FlashOff => []
                       end) l.
Proof.
  revert i. induction l as [|t l IH]; intros i H.
  - destruct i; discriminate H.
  - destruct i as [|i]; simpl in H.
    + injection H as ->. reflexivity.
    + simpl. rewrite (IH i H). reflexivity.
Qed.

Lemma pending_remove_print (i : nat) (l : list CameraSection.Timer)
  (d : string) :
  nth_error l i = Some (CameraSection.HandOff d) ->
  exists l1 l2,
    flat_map (fun t => match t with
                       | CameraSection.HandOff d => [d]
                       | CameraSection.FlashOff => []
                       end) l = l1 ++ d :: l2 /\
    flat_map (fun t => match t with
                       | CameraSection.HandOff d => [d]
                       | CameraSection.FlashOff => []
                       end) (CameraSection.remove_nth i l) = l1 ++ l2.
Proof.
  revert i. induction l as [|t l IH]; intros i H.
  - destruct i; discriminate H.
  - destruct i as [|i]; simpl in H.
    + injection H as ->. exists []. eexists. split; reflexivity.
    + destruct (IH i H) as (l1 & l2 & E1 & E2). simpl.
      destruct t as [|d0].
      * exists l1, l2. split; assumption.
      * exists (d0 :: l1), l2. simpl. rewrite E1, E2. split; reflexivity.
Qed.

Lemma camera_step_invariant (ev : CameraSection.Event)
  (c : CameraSection.Camera) :
  Spec.real_shutter ev ->
  (CameraSection.pending_prints c =
   match CameraSection.printingPhoto c with Some d => [d] | None => [] end /\
   CameraSection.printingPhoto c <> Some ""%string) ->
  (CameraSection.pending_prints (CameraSection.step ev c) =
   match CameraSection.printingPhoto (CameraSection.step ev c) with
   | Some d => [d]
   | None => []
   end /\
   CameraSection.printingPhoto (CameraSection.step ev c) <> Some ""%string) /\
  (forall d, In d (CameraSection.handed (CameraSection.step ev c)) ->
             In d (CameraSection.handed c) \/
             In d (CameraSection.pending_prints c)).
Proof.
  intros Hev [Hpend Hreal]. unfold CameraSection.pending_prints in *.
  destruct ev as [ready context d|i|]; simpl.
  - unfold CameraSection.handleCapture, CameraSection.printing.
    destruct (negb ready); cbn [orb];
      [split; [split; assumption | intros; left; assumption]|].
    destruct (CameraSection.printingPhoto c) as [d0|] eqn:Hp.
    + assert (Ht : truthy_string d0 = true).
      { unfold truthy_string. apply negb_true_iff. apply String.eqb_neq.
        intros ->. contradiction. }
      rewrite Ht. rewrite Hp.
      split; [split; assumption | intros; left; assumption].
    + destruct context; cbn [CameraSection.timers CameraSection.printingPhoto
                               CameraSection.handed].
      * rewrite flat_map_app, Hpend. simpl in Hev.
        split; [split; [reflexivity | congruence]|].
        intros; left; assumption.
      * rewrite flat_map_app, Hpend.
        split; [split; [reflexivity | discriminate]|].
        intros; left; assumption.
  - unfold CameraSection.fire.
    destruct (nth_error (CameraSection.timers c) i) as [[|d]|] eqn:Hi;
      cbn [CameraSection.timers CameraSection.printingPhoto
           CameraSection.handed].
    + rewrite (pending_remove_flash i _ Hi).
      split; [split; assumption | intros; left; assumption].
    + destruct (pending_remove_print i _ d Hi) as (l1 & l2 & E1 & E2).
      rewrite E1 in Hpend. rewrite E2.
      assert (Hl : l1 = [] /\ l2 = []).
      { destruct (CameraSection.printingPhoto c); destruct l1 as [|a l1];
          simpl in Hpend; try discriminate; injection Hpend as _ H.
        - split; [reflexivity | exact H].
        - destruct l1; discriminate H. }
      destruct Hl as [-> ->].
      split; [split; [reflexivity | discriminate]|].
      intros d' Hd'. apply in_app_or in Hd' as [H|[<-|[]]];
        [left; exact H | right].
      rewrite E1. left. reflexivity.
    + split; [split; assumption | intros; left; assumption].
  - split; [split; assumption | intros; left; assumption].
Qed.

Lemma camera_pending_from_shutter (ev : CameraSection.Event)
  (c : CameraSection.Camera) (d : string) :
  In d (CameraSection.pending_prints (CameraSection.step ev c)) ->
  In d (CameraSection.pending_prints c) \/
  ev = CameraSection.Shutter true true d.
Proof.
  unfold CameraSection.pending_prints.
  destruct ev as [ready context d0|i|]; simpl.
  - unfold CameraSection.handleCapture.
    destruct ready; cbn [negb orb]; [|intros; left; assumption].
    destruct (CameraSection.printing c); [intros; left; assumption|].
    destruct context; cbn [CameraSection.timers]; rewrite flat_map_app;
      simpl; intros H; apply in_app_or in H as [H|H].
    + left. exact H.
    + destruct H as [<-|[]]. right. reflexivity.
    + left. exact H.
    + destruct H.
  - unfold CameraSection.fire.
    destruct (nth_error (CameraSection.timers c) i) as [[|d1]|] eqn:Hi;
      cbn [CameraSection.timers]; intros H.
    + rewrite (pending_remove_flash i _ Hi) in H. left. exact H.
    + destruct (pending_remove_print i _ d1 Hi) as (l1 & l2 & E1 & E2).
      rewrite E2 in H. rewrite E1. left.
      apply in_app_or in H as [H|H]; apply in_or_app;
        [left; exact H | right; right; exact H].
    + left. exact H.
  - intros H. left. exact H.
Qed.

(** X20.  One print at a time.  Along any sequence of shutter presses
    (whose data URLs are not empty), timers firing in any order and camera
    switches, from the initial camera: the prints waiting to be handed to
    the wall are exactly the photo being printed, if any; a press while a
    photo is printing changes nothing; and every photo handed to the wall,
    like the one printing, comes from a press that found the elements and a
    drawing context. *)
Theorem one_print_at_a_time (evs : list CameraSection.Event) :
  Forall Spec.real_shutter evs ->
  let c := CameraSection.run evs CameraSection.initial in
  CameraSection.pending_prints c =
    match CameraSection.printingPhoto c with Some d => [d] | None => [] end /\
  (forall ready context d,
      CameraSection.printingPhoto c <> None ->
      CameraSection.handleCapture ready context d c = c) /\
  (forall d,
      In d (CameraSection.handed c) \/ CameraSection.printingPhoto c = Some d ->
      In (CameraSection.Shutter true true d) evs).
Proof.
  intros Hevs c.
  assert (Hgen : forall evs c0,
    Forall Spec.real_shutter evs ->
    (CameraSection.pending_prints c0 =
     match CameraSection.printingPhoto c0 with Some d => [d] | None => [] end
     /\ CameraSection.printingPhoto c0 <> Some ""%string) ->
    (CameraSection.pending_prints (CameraSection.run evs c0) =
     match CameraSection.printingPhoto (CameraSection.run evs c0) with
     | Some d => [d]
     | None => []
     end /\
     CameraSection.printingPhoto (CameraSection.run evs c0)
     <> Some ""%string) /\
    (forall d,
        In d (CameraSection.handed (CameraSection.run evs c0)) \/
        In d (CameraSection.pending_prints (CameraSection.run evs c0)) ->
        In d (CameraSection.handed c0) \/
        In d (CameraSection.pending_prints c0) \/
        In (CameraSection.Shutter true true d) evs)).
  { clear. induction evs as [|ev evs IH]; intros c0 Hevs Hinv.
    - split; [exact Hinv|]. intros d [H|H]; [left | right; left]; exact H.
    - apply Forall_cons_iff in Hevs as [Hev Hevs].
      destruct (camera_step_invariant ev c0 Hev Hinv) as [Hinv' Hhand].
      destruct (IH (CameraSection.step ev c0) Hevs Hinv') as [Hfin Hfrom].
      unfold CameraSection.run in *. cbn [fold_left].
      split; [exact Hfin|]. intros d Hd.
      destruct (Hfrom d Hd) as [H|[H|H]].
      + destruct (Hhand d H) as [H'|H']; [left | right; left]; exact H'.
      + destruct (camera_pending_from_shutter ev c0 d H) as [H'| ->].
        * right. left. exact H'.
        * right. right. left. reflexivity.
      + right. right. right. exact H. }
  destruct (Hgen evs CameraSection.initial Hevs) as [[Hpend Hreal] Hfrom].
  { split; [reflexivity | discriminate]. }
  fold c in Hpend, Hreal, Hfrom.
  split; [exact Hpend|]. split.
  - intros ready context d Hp. unfold CameraSection.handleCapture,
      CameraSection.printing.
    destruct (CameraSection.printingPhoto c) as [d0|]; [|contradiction].
    assert (Ht : truthy_string d0 = true).
    { unfold truthy_string. apply negb_true_iff. apply String.eqb_neq.
      intros ->. contradiction. }
    rewrite Ht, orb_true_r. reflexivity.
  - intros d Hd.
    assert (Hd' : In d (CameraSection.handed c) \/
                  In d (CameraSection.pending_prints c)).
    { destruct Hd as [H|H]; [left; exact H|]. right. rewrite Hpend, H.
      left. reflexivity. }
    destruct (Hfrom d Hd') as [[]|[[]|H]]. exact H.
Qed.

Lemma one_print_at_a_time_witness :
  let c := CameraSection.run
             [CameraSection.Shutter true true "data:image/jpeg;base64,AA";
              CameraSection.Shutter true true "data:image/jpeg;base64,BB";
              CameraSection.Fire 1]
             CameraSection.initial in
  CameraSection.handed c = ["data:image/jpeg;base64,AA"%string] /\
  CameraSection.pending_prints c = [].
Proof.
  intros c.
  destruct (one_print_at_a_time
              [CameraSection.Shutter true true "data:image/jpeg;base64,AA";
               CameraSection.Shutter true true "data:image/jpeg;base64,BB";
               CameraSection.Fire 1]) as (Hpend & _).
  - repeat constructor; discriminate.
  - split; [reflexivity | exact Hpend].
Defined.

(** ** The world map *)

Lemma placeholder_on_globe (l : Location) :
  Spec.placeholder l -> Spec.on_globe l.
Proof.
  intros ((H1 & H2) & (H3 & H4) & _). unfold Spec.on_globe.
  repeat split; lra.
Qed.

Lemma getPos_on_plane (l : Location) :
  Spec.on_globe l -> Spec.on_plane (WorldMap.getPos (lat l) (lng l)).
Proof.
  intros ((H1 & H2) & (H3 & H4)).
  unfold Spec.on_plane, WorldMap.getPos. cbn [fst snd].
  unfold Qdiv. change (/ 360)%Q with (1 # 360)%Q.
  change (/ 180)%Q with (1 # 180)%Q.
  repeat split; lra.
Qed.

(** X21.  Markers stay on the map.  When every location of the photos is
    on the globe, or is one that sharing made up, every marker lies within
    the map plane (0 to 100 percent both ways); and the projection keeps
    directions: further east is further right, further north is further
    up. *)
Theorem markers_lie_on_the_map (photos : list Photo) :
  Forall (fun p => forall l, location p = Some l ->
                             Spec.on_globe l \/ Spec.placeholder l) photos ->
  Forall (fun m => Spec.on_plane (snd m)) (WorldMap.markers photos) /\
  (forall lat1 lng1 lat2 lng2 : Q,
      ((lng1 < lng2)%Q ->
       (fst (WorldMap.getPos lat1 lng1) < fst (WorldMap.getPos lat2 lng2))%Q)
      /\
      ((lat1 < lat2)%Q ->
       (snd (WorldMap.getPos lat2 lng2) < snd (WorldMap.getPos lat1 lng1))%Q)).
Proof.
  intros Hall. split.
  - induction photos as [|p photos IH]; [constructor|].
    apply Forall_cons_iff in Hall as [Hp Hall].
    unfold WorldMap.markers. cbn [flat_map].
    apply Forall_app. split; [|exact (IH Hall)].
    unfold WorldMap.marker.
    destruct (location p) as [l|] eqn:Hl; [|constructor].
    destruct (truthy_number (lat l)); [|constructor].
    constructor; [|constructor]. cbn [snd].
    apply getPos_on_plane.
    destruct (Hp l eq_refl) as [H|H];
      [exact H | exact (placeholder_on_globe l H)].
  - intros lat1 lng1 lat2 lng2. unfold WorldMap.getPos. cbn [fst snd].
    unfold Qdiv. change (/ 360)%Q with (1 # 360)%Q.
    change (/ 180)%Q with (1 # 180)%Q.
    split; intros H; lra.
Qed.

Lemma markers_lie_on_the_map_witness :
  Forall (fun m => Spec.on_plane (snd m)) (WorldMap.markers Samples.wall).
Proof.
  apply (markers_lie_on_the_map Samples.wall).
  apply List.Forall_cons; [intros l H; discriminate H|].
  apply List.Forall_cons.
  { intros l H. injection H as <-. left. unfold Spec.on_globe.
    cbn [lat lng Samples.tokyo]. repeat split; lra. }
  apply List.Forall_cons; [|apply List.Forall_nil].
  intros l H. injection H as <-. left. unfold Spec.on_globe.
  cbn [lat lng Samples.equator]. repeat split; lra.
Defined.

Lemma zoom_in_facts (s : Q) :
  (1 <= s)%Q -> (s <= 11)%Q ->
  let z := Qmin (num_add s 1) 12 in
  (s + 1 - (s + 1) * (1 # 9007199254740992) <= z /\
   z <= s + 1 + (s + 1) * (1 # 9007199254740992) /\
   z <= 12 /\ s < z)%Q /\
  (forall k : Z, (s == inject_Z k)%Q -> (z == inject_Z (k + 1))%Q).
Proof.
  intros H1 H11 z. unfold z, num_add.
  destruct (round64_error (s + 1)) as [Hlo Hhi]; [lra|].
  split.
  - destruct (Q.min_spec (round64 (s + 1)) 12) as [[Hc E]|[Hc E]];
      rewrite E; repeat split; lra.
  - intros k Hk.
    assert (Hk11 : (1 <= k <= 11)%Z).
    { rewrite Hk in H1, H11. change 1%Q with (inject_Z 1) in H1.
      change 11%Q with (inject_Z 11) in H11.
      rewrite <- Zle_Qle in H1, H11. lia. }
    assert (Hr : (round64 (s + 1) == inject_Z (k + 1))%Q).
    { apply round64_whole; [|lia]. rewrite inject_Z_plus, Hk. reflexivity. }
    rewrite Hr. apply Q.min_l.
    change 12%Q with (inject_Z 12). rewrite <- Zle_Qle. lia.
Qed.

Lemma zoom_out_facts (s : Q) :
  (2 <= s)%Q -> (s <= 12)%Q ->
  let z := Qmax (num_sub s 1) 1 in
  (s - 1 - (s - 1) * (1 # 9007199254740992) <= z /\
   z <= s - 1 + (s - 1) * (1 # 9007199254740992) /\
   1 <= z /\ z < s)%Q /\
  (forall k : Z, (s == inject_Z k)%Q -> (z == inject_Z (k - 1))%Q).
Proof.
  intros H2 H12 z. unfold z, num_sub.
  destruct (round64_error (s - 1)) as [Hlo Hhi]; [lra|].
  split.
  - destruct (Q.max_spec (round64 (s - 1)) 1) as [[Hc E]|[Hc E]];
      rewrite E; repeat split; lra.
  - intros k Hk.
    assert (Hk12 : (2 <= k <= 12)%Z).
    { rewrite Hk in H2, H12. change 2%Q with (inject_Z 2) in H2.
      change 12%Q with (inject_Z 12) in H12.
      rewrite <- Zle_Qle in H2, H12. lia. }
    assert (Hr : (round64 (s - 1) == inject_Z (k - 1))%Q).
    { apply round64_whole; [|lia].
      unfold Z.sub. rewrite inject_Z_plus, Hk. reflexivity. }
    rewrite Hr. apply Q.max_l.
    change 1%Q with (inject_Z 1). rewrite <- Zle_Qle. lia.
Qed.

Lemma zoom_step_in_range (ev : WorldMap.Event) (v : WorldMap.View) :
  (1 <= WorldMap.scale (WorldMap.transform v) <= 12)%Q /\
  (1 <= WorldMap.scale (WorldMap.rendered v) <= 12)%Q ->
  (1 <= WorldMap.scale (WorldMap.transform (WorldMap.step ev v)) <= 12)%Q /\
  (1 <= WorldMap.scale (WorldMap.rendered (WorldMap.step ev v)) <= 12)%Q.
Proof.
  intros [[Ht1 Ht2] [Hr1 Hr2]].
  destruct ev as [d|cx cy|cx cy| | | | |]; cbn [WorldMap.step].
  - unfold WorldMap.handleWheel.
    cbn [WorldMap.transform WorldMap.rendered WorldMap.scale].
    repeat split; try assumption.
    + apply Q.min_glb; [apply Q.le_max_l | lra].
    + apply Q.le_min_r.
  - cbn. repeat split; assumption.
  - unfold WorldMap.handleMouseMove.
    destruct (negb (WorldMap.isDragging v)); cbn; repeat split; assumption.
  - cbn. repeat split; assumption.
  - unfold WorldMap.zoomIn.
    cbn [WorldMap.transform WorldMap.rendered WorldMap.scale].
    repeat split; try assumption; [|apply Q.le_min_r].
    apply Q.min_glb; [|lra]. unfold num_add.
    destruct (round64_error (WorldMap.scale (WorldMap.transform v) + 1));
      lra.
  - unfold WorldMap.zoomOut.
    cbn [WorldMap.transform WorldMap.rendered WorldMap.scale].
    repeat split; try assumption; [apply Q.le_max_r|].
    apply Q.max_lub; [|lra]. unfold num_sub.
    destruct (round64_error (WorldMap.scale (WorldMap.transform v) - 1));
      lra.
  - unfold WorldMap.resetMap.
    cbn [WorldMap.transform WorldMap.rendered WorldMap.scale].
    repeat split; try assumption; lra.
  - unfold WorldMap.render.
    cbn [WorldMap.transform WorldMap.rendered WorldMap.scale].
    repeat split; assumption.
Qed.

(** X22.  The zoom of the map stays between 1 and 12.  After any sequence
    of wheel turns, button presses, drags, resets and renders from the
    initial view, the scale of the transform, and the one shown, lie in
    that range.  Within it the buttons move the scale by 1 as far as
    binary64 addition does: from a scale up to 11 zooming in gives a larger
    scale that is [scale + 1] to within 2^-53 of it, and exactly
    [scale + 1] when the scale is a whole number; from a scale of 2 or more
    zooming out does the same downwards. *)
Theorem zoom_stays_in_range (evs : list WorldMap.Event) :
  let v := WorldMap.run evs WorldMap.initial in
  let s := WorldMap.scale (WorldMap.transform v) in
  let zin := WorldMap.scale (WorldMap.transform (WorldMap.zoomIn v)) in
  let zout := WorldMap.scale (WorldMap.transform (WorldMap.zoomOut v)) in
  ((1 <= s <= 12)%Q /\
   (1 <= WorldMap.scale (WorldMap.rendered v) <= 12)%Q) /\
  ((s <= 11)%Q ->
   (s < zin /\
    s + 1 - (s + 1) * (1 # 9007199254740992) <= zin /\
    zin <= s + 1 + (s + 1) * (1 # 9007199254740992))%Q /\
   (forall k : Z, (s == inject_Z k)%Q -> (zin == inject_Z (k + 1))%Q)) /\
  ((2 <= s)%Q ->
   (zout < s /\
    s - 1 - (s - 1) * (1 # 9007199254740992) <= zout /\
    zout <= s - 1 + (s - 1) * (1 # 9007199254740992))%Q /\
   (forall k : Z, (s == inject_Z k)%Q -> (zout == inject_Z (k - 1))%Q)).
Proof.
  intros v s zin zout.
  assert (Hrange : (1 <= s <= 12)%Q /\
                   (1 <= WorldMap.scale (WorldMap.rendered v) <= 12)%Q).
  { subst s v. unfold WorldMap.run.
    assert (Hgen : forall v0,
      (1 <= WorldMap.scale (WorldMap.transform v0) <= 12)%Q /\
      (1 <= WorldMap.scale (WorldMap.rendered v0) <= 12)%Q ->
      (1 <= WorldMap.scale (WorldMap.transform
                 (fold_left (fun acc ev => WorldMap.step ev acc) evs v0))
       <= 12)%Q /\
      (1 <= WorldMap.scale (WorldMap.rendered
                 (fold_left (fun acc ev => WorldMap.step ev acc) evs v0))
       <= 12)%Q).
    { induction evs as [|ev evs IH]; intros v0 H0; [exact H0|].
      cbn [fold_left]. apply IH. apply zoom_step_in_range. exact H0. }
    apply Hgen. cbn. repeat split; lra. }
  split; [exact Hrange|]. destruct Hrange as [[Hs1 Hs12] _].
  split.
  - intros H11. destruct (zoom_in_facts s Hs1 H11) as [(Hlo & Hhi & _ & Hlt) Hw].
    split; [split; [exact Hlt | split; [exact Hlo | exact Hhi]] | exact Hw].
  - intros H2. destruct (zoom_out_facts s H2 Hs12) as [(Hlo & Hhi & _ & Hlt) Hw].
    split; [split; [exact Hlt | split; [exact Hlo | exact Hhi]] | exact Hw].
Qed.

Lemma zoom_stays_in_range_witness :
  (WorldMap.scale
     (WorldMap.transform
        (WorldMap.zoomIn (WorldMap.run [WorldMap.ZoomIn] WorldMap.initial)))
   == 3)%Q.
Proof.
  destruct (zoom_stays_in_range [WorldMap.ZoomIn]) as (_ & Hin & _).
  destruct Hin as [_ Hwhole]; [vm_compute; discriminate|].
  apply (Hwhole 2%Z). vm_compute. reflexivity.
Defined.

Lemma last_cons_default {A : Type} (l : list A) (a d : A) :
  List.last (a :: l) d = List.last l a.
Proof.
  revert a d. induction l as [|b l IH]; intros a d; [reflexivity|].
  change (List.last (a :: b :: l) d) with (List.last (b :: l) d).
  rewrite (IH b d). symmetry. apply IH.
Qed.

Lemma drag_moves (moves : list (Q * Q)) (v : WorldMap.View) :
  WorldMap.isDragging v = true ->
  let v' := WorldMap.run
              (map (fun m => WorldMap.MouseMove (fst m) (snd m)) moves) v in
  WorldMap.isDragging v' = true /\
  WorldMap.lastMousePos v' = List.last moves (WorldMap.lastMousePos v) /\
  (WorldMap.tx (WorldMap.transform v')
   == WorldMap.tx (WorldMap.transform v)
      + (fst (List.last moves (WorldMap.lastMousePos v))
         - fst (WorldMap.lastMousePos v)))%Q /\
  (WorldMap.ty (WorldMap.transform v')
   == WorldMap.ty (WorldMap.transform v)
      + (snd (List.last moves (WorldMap.lastMousePos v))
         - snd (WorldMap.lastMousePos v)))%Q /\
  WorldMap.scale (WorldMap.transform v') = WorldMap.scale (WorldMap.transform v).
Proof.
  revert v. induction moves as [|m moves IH]; intros v Hd v'.
  - subst v'. cbn. repeat split; try assumption; lra.
  - subst v'. unfold WorldMap.run. cbn [map fold_left WorldMap.step].
    set (v1 := WorldMap.handleMouseMove (fst m) (snd m) v).
    assert (H1 : v1 = WorldMap.mkView (WorldMap.rendered v)
             (WorldMap.mkTransform
                (WorldMap.tx (WorldMap.transform v)
                 + (fst m - fst (WorldMap.lastMousePos v)))
                (WorldMap.ty (WorldMap.transform v)
                 + (snd m - snd (WorldMap.lastMousePos v)))
                (WorldMap.scale (WorldMap.transform v)))
             true (fst m, snd m)).
    { subst v1. unfold WorldMap.handleMouseMove. rewrite Hd. reflexivity. }
    assert (Hd1 : WorldMap.isDragging v1 = true) by (rewrite H1; reflexivity).
    destruct (IH v1 Hd1) as (Ha & Hb & Hc & He & Hf).
    unfold WorldMap.run in Ha, Hb, Hc, He, Hf.
    assert (Hlast : List.last (m :: moves) (WorldMap.lastMousePos v)
                    = List.last moves (WorldMap.lastMousePos v1)).
    { rewrite H1. cbn [WorldMap.lastMousePos]. rewrite <- surjective_pairing.
      apply last_cons_default. }
    rewrite Hlast.
    split; [exact Ha|]. split; [exact Hb|].
    split; [|split].
    + rewrite Hc. rewrite H1.
      cbn [WorldMap.transform WorldMap.tx WorldMap.lastMousePos fst]. lra.
    + rewrite He. rewrite H1.
      cbn [WorldMap.transform WorldMap.ty WorldMap.lastMousePos snd]. lra.
    + rewrite Hf. rewrite H1. reflexivity.
Qed.

Lemma idle_moves (moves : list (Q * Q)) (v : WorldMap.View) :
  WorldMap.isDragging v = false ->
  WorldMap.run (map (fun m => WorldMap.MouseMove (fst m) (snd m)) moves) v = v.
Proof.
  intros Hd. induction moves as [|m moves IH]; [reflexivity|].
  unfold WorldMap.run in *. cbn [map fold_left WorldMap.step].
  unfold WorldMap.handleMouseMove. rewrite Hd. cbn [negb]. exact IH.
Qed.

(** X23.  Dragging moves the map by what the pointer moved.  After the
    button goes down at a point, any number of pointer moves leave the map
    shifted by the difference between the last pointer position and that
    point, whatever the path, and the scale untouched; once the button is
    up, pointer moves change nothing. *)
Theorem drag_follows_the_pointer
  (downX downY : Q) (moves after : list (Q * Q)) (v : WorldMap.View) :
  let path := map (fun m => WorldMap.MouseMove (fst m) (snd m)) moves in
  let v' := WorldMap.run (WorldMap.MouseDown downX downY :: path) v in
  let released := WorldMap.run [WorldMap.MouseUp] v' in
  (WorldMap.tx (WorldMap.transform v')
   == WorldMap.tx (WorldMap.transform v)
      + (fst (List.last moves (downX, downY)) - downX))%Q /\
  (WorldMap.ty (WorldMap.transform v')
   == WorldMap.ty (WorldMap.transform v)
      + (snd (List.last moves (downX, downY)) - downY))%Q /\
  WorldMap.scale (WorldMap.transform v') = WorldMap.scale (WorldMap.transform v)
  /\
  WorldMap.run (map (fun m => WorldMap.MouseMove (fst m) (snd m)) after)
               released = released.
Proof.
  intros path v' released.
  pose proof (drag_moves moves (WorldMap.handleMouseDown downX downY v)
                eq_refl) as H.
  cbv zeta in H. destruct H as (_ & _ & Hx & Hy & Hs).
  split; [exact Hx|]. split; [exact Hy|]. split; [exact Hs|].
  apply idle_moves. reflexivity.
Qed.

Lemma wheel_overrides (ds : list Q) (d : Q) (v : WorldMap.View) :
  WorldMap.run (map WorldMap.Wheel ds) (WorldMap.handleWheel d v)
  = WorldMap.handleWheel (List.last ds d) v.
Proof.
  revert d. induction ds as [|d' ds IH]; intros d; [reflexivity|].
  unfold WorldMap.run in *. cbn [map fold_left WorldMap.step].
  change (WorldMap.handleWheel d' (WorldMap.handleWheel d v))
    with (WorldMap.handleWheel d' v).
  rewrite IH. rewrite (last_cons_default ds d' d). reflexivity.
Qed.

(** X24.  Wheel turns between two renders do not add up.  The wheel
    handler computes the new scale from the scale of the last render, so of
    several wheel events that arrive before the next render only the last
    one counts. *)
Theorem wheel_turns_do_not_add_up (ds : list Q) (v : WorldMap.View) :
  ds <> [] ->
  WorldMap.run (map WorldMap.Wheel ds) v
  = WorldMap.handleWheel (List.last ds 0%Q) v /\
  (WorldMap.scale (WorldMap.transform (WorldMap.run (map WorldMap.Wheel ds) v))
   == Qmin (Qmax 1 (WorldMap.scale (WorldMap.rendered v)
                    - List.last ds 0%Q * 0.001)) 12)%Q.
Proof.
  intros Hds. destruct ds as [|d ds]; [contradiction|].
  assert (Hrun : WorldMap.run (map WorldMap.Wheel (d :: ds)) v
                 = WorldMap.handleWheel (List.last (d :: ds) 0%Q) v).
  { change (WorldMap.run (map WorldMap.Wheel (d :: ds)) v)
      with (WorldMap.run (map WorldMap.Wheel ds) (WorldMap.handleWheel d v)).
    rewrite wheel_overrides. rewrite (last_cons_default ds d 0%Q).
    reflexivity. }
  split; [exact Hrun|]. rewrite Hrun.
  unfold WorldMap.handleWheel. cbn [WorldMap.transform WorldMap.scale].
  apply Q.min_compat; [|reflexivity].
  apply Q.max_compat; [reflexivity|]. lra.
Qed.

Lemma wheel_turns_do_not_add_up_witness :
  (WorldMap.scale
     (WorldMap.transform
        (WorldMap.run (map WorldMap.Wheel [-1000; -1000; -500]%Q)
                      WorldMap.initial))
   == 1.5)%Q.
Proof.
  destruct (wheel_turns_do_not_add_up [-1000; -1000; -500]%Q WorldMap.initial)
    as (_ & H); [discriminate|].
  rewrite H. reflexivity.
Defined.

(** X25.  The travel lines trace the markers.  When every photo has a
    marker, the lines of the map join the marker positions in the order of
    the photos, each to the next: one line fewer than there are markers. *)
Theorem travel_lines_join_markers (photos : list Photo) :
  Forall (fun p => WorldMap.marker p <> None) photos ->
  let points := map snd (WorldMap.markers photos) in
  WorldMap.travel_lines photos = combine points (tl points) /\
  List.length (WorldMap.travel_lines photos)
  = Nat.pred (List.length (WorldMap.markers photos)).
Proof.
  intros Hall points.
  assert (Hpos : forall p, WorldMap.marker p <> None ->
            exists l, location p = Some l /\
                      WorldMap.marker p
                      = Some (WorldMap.getPos (lat l) (lng l))).
  { intros p Hp. unfold WorldMap.marker in *.
    destruct (location p) as [l|]; [|contradiction].
    exists l. split; [reflexivity|].
    destruct (truthy_number (lat l)); [reflexivity | contradiction]. }
  assert (Hlines : WorldMap.travel_lines photos
                   = combine points (tl points)).
  { subst points. induction photos as [|p photos IH]; [reflexivity|].
    apply Forall_cons_iff in Hall as [Hp Hall].
    specialize (IH Hall).
    destruct (Hpos p Hp) as (lp & Hlp & Hmp).
    destruct photos as [|q rest].
    - unfold WorldMap.markers. cbn [flat_map WorldMap.travel_lines].
      rewrite Hmp. reflexivity.
    - apply Forall_cons_iff in Hall as [Hq _].
      destruct (Hpos q Hq) as (lq & Hlq & Hmq).
      change (WorldMap.travel_lines (p :: q :: rest))
        with (match WorldMap.travel_line p q with
              | Some line => [line]
              | None => []
              end ++ WorldMap.travel_lines (q :: rest)).
      rewrite IH. unfold WorldMap.travel_line. rewrite Hlp, Hlq.
      unfold WorldMap.markers. cbn [flat_map]. rewrite Hmp, Hmq.
      reflexivity. }
  split; [exact Hlines|].
  rewrite Hlines. subst points.
  rewrite length_combine.
  destruct (map snd (WorldMap.markers photos)) as [|a l] eqn:E.
  - apply (f_equal (@List.length _)) in E. rewrite length_map in E.
    rewrite E. reflexivity.
  - apply (f_equal (@List.length _)) in E. rewrite length_map in E.
    rewrite E. cbn [tl List.length Nat.pred]. lia.
Qed.

Lemma travel_lines_join_markers_witness :
  WorldMap.travel_lines [Samples.located_photo; Samples.shared_photo]
  = [(WorldMap.getPos 35.6938 139.7035, WorldMap.getPos 35.6938 139.7035)].
Proof.
  destruct (travel_lines_join_markers
              [Samples.located_photo; Samples.shared_photo]) as (H & _).
  - apply List.Forall_cons; [discriminate|].
    apply List.Forall_cons; [discriminate | apply List.Forall_nil].
  - rewrite H. reflexivity.
Defined.
